(** * Fixture generator: a shallow embedding of [fixture_generator.py]

    The development follows the Python module function by function:
    the string/integer helpers, [assign_zones], [generate_round_robin],
    [_generate_timeslots], [generate_match_list] and [generate_fixture].

    Conventions.
    - Python [int] is [Z]; [//] and [%] with a positive divisor are
      [Z.div] and [Z.modulo] (both floor-based).
    - Python [str] is [string]; a character is a code point below 256
      (Latin-1), and the built-ins below follow CPython on that range.
      Text with other code points is outside the model.
    - CPython refuses to convert between [int] and [str] beyond
      [sys.get_int_max_str_digits()] digits (4300 unless reconfigured);
      the conversions below raise [ValueError] there, as CPython does.
    - [Team] objects are mutable and shared, so they live in a heap
      ([gmap loc Team]) and a Python [List[Team]] is a [list loc].
    - A [dict] whose iteration order matters ([zones]) is an association
      list in insertion order; [last_played] is a [gmap string Z].
    - Exceptions and non-termination are outcomes of the [outcome] type. *)

From Stdlib Require Import ZArith List Ascii String Sorting.Sorted Sorting.Permutation Lia.
From Stdlib Require Import DecimalString DecimalPos DecimalZ.
From stdpp Require Import gmap strings list fin_maps sorting.

Local Open Scope string_scope.
Local Open Scope list_scope.
Local Open Scope Z_scope.

(* ===================================================================== *)
(** ** Python built-ins used by the module *)
(* ===================================================================== *)

Module Py.

(** The decimal text of an [int]: a minus sign for negatives, then the
    digits without leading zeros. *)
Definition decimal (z : Z) : string := NilZero.string_of_int (Z.to_int z).

(** [sys.get_int_max_str_digits()], CPython's default. *)
Definition int_max_str_digits : nat := 4300.

(** The conversion of [z] to text stays within the digit limit: the
    sign does not count. *)
Definition printable (z : Z) : bool :=
  (String.length (decimal (Z.abs z)) <=? int_max_str_digits)%nat.

(** [str(z)] for an [int]; [None] stands for [ValueError]. *)
Definition str (z : Z) : option string :=
  if printable z then Some (decimal z) else None.

(** [f"{z:02d}"]: sign-aware zero padding to width two.  Only the one
    character results (the digits 0..9) are ever padded.  Formatting
    converts the number as [str] does, digit limit included. *)
Definition format_02d (z : Z) : option string :=
  option_map (fun s => if (String.length s <? 2)%nat then String "0" s else s)
             (str z).

(** The characters [int] strips from both ends of its argument: the
    ASCII white space, and NEL and NBSP above 127.  The separators
    28 … 31 are white space for [str.isspace] but not for [int]. *)
Definition is_space (c : ascii) : bool :=
  let n := nat_of_ascii c in
  ((9 <=? n) && (n <=? 13) || (n =? 32) || (n =? 133) || (n =? 160))%nat.

Definition is_digit (c : ascii) : bool :=
  let n := nat_of_ascii c in ((48 <=? n) && (n <=? 57))%nat.

Fixpoint lstrip (s : string) : string :=
  match s with
  | EmptyString => EmptyString
  | String c s' => if is_space c then lstrip s' else s
  end.

Fixpoint rstrip (s : string) : string :=
  match s with
  | EmptyString => EmptyString
  | String c s' =>
      match rstrip s' with
      | EmptyString => if is_space c then EmptyString else String c EmptyString
      | r => String c r
      end
  end.

Definition strip (s : string) : string := rstrip (lstrip s).

(** Digit grouping: [int] accepts one underscore between two digits. *)
Fixpoint drop_underscores (prev_digit : bool) (s : string) : option string :=
  match s with
  | EmptyString => Some EmptyString
  | String c s' =>
      if Ascii.eqb c "_" then
        match s' with
        | String d _ =>
            if prev_digit && is_digit d then drop_underscores false s' else None
        | EmptyString => None
        end
      else option_map (String c) (drop_underscores (is_digit c) s')
  end.

(** The value of a digit string; underscores do not count towards the
    digit limit, leading zeros do. *)
Definition digits_value (s : string) : option Z :=
  match drop_underscores false s with
  | Some ds =>
      if (String.length ds <=? int_max_str_digits)%nat
      then option_map Z.of_uint (NilZero.uint_of_string ds)
      else None
  | None => None
  end.

(** [int(s)] on a string; [None] stands for [ValueError]. *)
Definition int (s : string) : option Z :=
  match strip s with
  | EmptyString => None
  | String c rest =>
      if Ascii.eqb c "-" then option_map Z.opp (digits_value rest)
      else if Ascii.eqb c "+" then digits_value rest
      else digits_value (String c rest)
  end.

(** [s.split(sep)] for a one-character separator. *)
Fixpoint split (sep : ascii) (s : string) : list string :=
  match s with
  | EmptyString => [EmptyString]
  | String c s' =>
      if Ascii.eqb c sep then EmptyString :: split sep s'
      else match split sep s' with
           | p :: ps => String c p :: ps
           | [] => [String c EmptyString]
           end
  end.

(** [s.lower()]: the letters A … Z and the Latin-1 capitals 192 … 222
    (the multiplication sign 215 apart) move up by 32. *)
Definition lower_char (c : ascii) : ascii :=
  let n := nat_of_ascii c in
  if ((65 <=? n) && (n <=? 90)
      || (192 <=? n) && (n <=? 222) && negb (n =? 215))%nat
  then ascii_of_nat (n + 32) else c.

Fixpoint lower (s : string) : string :=
  match s with
  | EmptyString => EmptyString
  | String c s' => String (lower_char c) (lower s')
  end.

(** [chr(ord('A') + i)] as a one-character string. *)
Definition chr_from_A (i : nat) : string :=
  String (ascii_of_nat (65 + i)) EmptyString.

(** Truthiness of a [str]. *)
Definition truthy (s : string) : bool :=
  match s with EmptyString => false | _ => true end.

End Py.

(* ===================================================================== *)
(** ** Outcomes: a value, a raised exception, or no termination *)
(* ===================================================================== *)

Inductive exn : Type :=
| ValueError
| RuntimeError (msg : string).

Inductive outcome (A : Type) : Type :=
| Ok (a : A)
| Raise (e : exn)
| Diverge.
Arguments Ok {A} a.
Arguments Raise {A} e.
Arguments Diverge {A}.

#[global] Instance outcome_ret : MRet outcome := fun A a => Ok a.
#[global] Instance outcome_bind : MBind outcome := fun A B f m =>
  match m with
  | Ok a => f a
  | Raise e => Raise e
  | Diverge => Diverge
  end.

(** A failed [int(...)] or a failed tuple unpacking raises [ValueError]. *)
Definition or_value_error {A} (o : option A) : outcome A :=
  match o with Some a => Ok a | None => Raise ValueError end.

(** [mapM] in source order: the first failure is the one raised. *)
Fixpoint traverse {A B} (f : A -> outcome B) (l : list A) : outcome (list B) :=
  match l with
  | [] => Ok []
  | a :: l' => b ← f a; bs ← traverse f l'; Ok (b :: bs)
  end.

(* ===================================================================== *)
(** ** Data model *)
(* ===================================================================== *)

(** [@dataclass Team]. *)
Record Team : Type := mkTeam { name : string; zone : string }.

(** [@dataclass Match]. *)
Record Match : Type := mkMatch {
  day : Z;
  time : string;
  field : string;
  home : string;
  away : string;
  mzone : string;
  round : Z;
  match_id : Z
}.

#[global] Instance Team_inhabited : Inhabited Team := populate (mkTeam "" "").

(** References to [Team] objects. *)
Definition loc := nat.
Abbreviation heap := (gmap loc Team).

(** A timeslot tuple [(day, time_str, field_name, index)]. *)
Definition slot : Type := Z * string * string * Z.
Definition slot_day (s : slot) : Z := s.1.1.1.
Definition slot_time (s : slot) : string := s.1.1.2.
Definition slot_field (s : slot) : string := s.1.2.
Definition slot_index (s : slot) : Z := s.2.
Definition slot_key (s : slot) : Z * string * string := s.1.

(* ===================================================================== *)
(** ** Time helpers *)
(* ===================================================================== *)

(** [h, m = map(int, time_str.split(':')); return h * 60 + m] *)
Definition _time_to_minutes (time_str : string) : outcome Z :=
  match Py.split ":" time_str with
  | [hs; ms] =>
      h ← or_value_error (Py.int hs);
      m ← or_value_error (Py.int ms);
      Ok (h * 60 + m)
  | _ => Raise ValueError
  end.

(** [h = minutes // 60; m = minutes % 60; return f"{h:02d}:{m:02d}"] *)
Definition _minutes_to_time (minutes : Z) : outcome string :=
  let h := minutes / 60 in
  let m := minutes mod 60 in
  hh ← or_value_error (Py.format_02d h);
  mm ← or_value_error (Py.format_02d m);
  Ok (hh +:+ ":" +:+ mm).

(* ===================================================================== *)
(** ** Slot enumerator: [_generate_timeslots] *)
(* ===================================================================== *)

(** [for field_num in range(1, fields + 1)]: appends one slot per field
    and advances [index]; returns the appended slots and the new index. *)
Fixpoint field_loop (day : Z) (time_str : string) (rng : list Z) (index : Z)
  : outcome (list slot * Z) :=
  match rng with
  | [] => Ok ([], index)
  | field_num :: rng' =>
      n ← or_value_error (Py.str field_num);
      let field_name := "c" +:+ n in
      '(more, index') ← field_loop day time_str rng' (index + 1);
      Ok ((day, time_str, field_name, index) :: more, index')
  end.

(** [break_start is not None and break_start <= current < break_end]:
    the clock jumps to [break_end] when the test holds. *)
Definition break_jump (brk : option (Z * Z)) (current : Z) : option Z :=
  match brk with
  | Some (break_start, break_end) =>
      if (break_start <=? current) && (current <? break_end)
      then Some break_end else None
  | None => None
  end.

(** [while current + match_duration <= end_min]: one unit of fuel per
    evaluation of the loop test; [Diverge] when the fuel runs out. *)
Fixpoint time_loop (fuel : nat) (day fields end_min match_duration : Z)
    (brk : option (Z * Z)) (current index : Z) : outcome (list slot * Z) :=
  match fuel with
  | O => Diverge
  | S fuel' =>
      if current + match_duration <=? end_min then
        match break_jump brk current with
        | Some break_end =>
            time_loop fuel' day fields end_min match_duration brk break_end index
        | None =>
            time_str ← _minutes_to_time current;
            '(emitted, index1) ← field_loop day time_str (seqZ 1 fields) index;
            '(more, index2) ← time_loop fuel' day fields end_min match_duration brk
                                (current + match_duration) index1;
            Ok (emitted ++ more, index2)
        end
      else Ok ([], index)
  end.

(** The least magnitude that has more digits than the conversion limit
    allows. *)
Definition digit_bound : Z := 10 ^ Z.of_nat Py.int_max_str_digits.

(** A minute of the day below which the hour has more digits than
    [int_max_str_digits], so that [_minutes_to_time] raises. *)
Definition clock_floor : Z := - (60 * digit_bound).

(** Fuel that covers every run of the [while] loop that ends, by its
    test or by an exception (see [time_loop_adequate]).  With a
    duration >= 0 the clock does not move back, and a run that ends does
    so before the clock passes [end_min - match_duration].  With a
    negative duration the clock runs down until its hour no longer
    prints, at most twice: once from the start and once from the end
    of the break. *)
Definition while_fuel (start_min end_min match_duration : Z)
    (brk : option (Z * Z)) : nat :=
  if 0 <=? match_duration
  then (Z.to_nat (end_min - match_duration - start_min + 1) + 2)%nat
  else
    let break_end := match brk with Some (_, be) => be | None => start_min end in
    (2 + (Z.to_nat (start_min - clock_floor + 1)
          + Z.to_nat (break_end - clock_floor + 1)))%nat.

(** [for day in range(1, days + 1)], with [current = start_min] on entry. *)
Fixpoint day_loop (rng : list Z) (fields start_min end_min match_duration : Z)
    (brk : option (Z * Z)) (index : Z) : outcome (list slot) :=
  match rng with
  | [] => Ok []
  | day :: rng' =>
      '(today, index') ← time_loop (while_fuel start_min end_min match_duration brk)
                           day fields end_min match_duration brk start_min index;
      later ← day_loop rng' fields start_min end_min match_duration brk index';
      Ok (today ++ later)
  end.

Definition parse_break (midday_break : option (string * string))
  : outcome (option (Z * Z)) :=
  match midday_break with
  | Some (b0, b1) =>
      break_start ← _time_to_minutes b0;
      break_end ← _time_to_minutes b1;
      Ok (Some (break_start, break_end))
  | None => Ok None
  end.

Definition _generate_timeslots (days fields : Z) (start_time end_time : string)
    (match_duration : Z) (midday_break : option (string * string))
  : outcome (list slot) :=
  start_min ← _time_to_minutes start_time;
  end_min ← _time_to_minutes end_time;
  brk ← parse_break midday_break;
  day_loop (seqZ 1 days) fields start_min end_min match_duration brk 0.

(* ===================================================================== *)
(** ** Zone assigner: [assign_zones] *)
(* ===================================================================== *)

(** [team.zone = z] on the object behind a reference. *)
Definition set_zone (z : string) (t : Team) : Team := mkTeam (name t) z.

Definition team_at (h : heap) (t : loc) : Team := h !!! t.

(** [enumerate(l, start)]. *)
Fixpoint enumerate {A} (start : Z) (l : list A) : list (Z * A) :=
  match l with
  | [] => []
  | a :: l' => (start, a) :: enumerate (start + 1) l'
  end.

(** The chain [if system == '8x3' and n == 24 ... elif system == '4x6'
    and n == 24 ... else]; [None] is the general round-robin branch. *)
Definition group_size_of (system : string) (n : nat) : option Z :=
  if bool_decide (system = "8x3") && bool_decide (n = 24%nat) then Some 3
  else if bool_decide (system = "4x6") && bool_decide (n = 24%nat) then Some 6
  else None.

(** The list object is returned as it came; the [Team] objects it refers
    to are updated in the heap. *)
Definition assign_zones (h : heap) (teams : list loc) (system : string)
  : heap * list loc :=
  if forallb (fun t => Py.truthy (zone (team_at h t))) teams then (h, teams)
  else
    let n := length teams in
    let system := Py.lower system in
    match group_size_of system n with
    | None =>
        (foldl (fun h t => alter (set_zone "A") t h) h teams, teams)
    | Some group_size =>
        let zones := Py.chr_from_A <$> seq 0 (Z.to_nat (Z.of_nat n / group_size)) in
        (foldl (fun h '(idx, t) =>
                  alter (set_zone (zones !!! Z.to_nat (idx / group_size))) t h)
               h (enumerate 0 teams),
         teams)
    end.

(* ===================================================================== *)
(** ** Round-robin generator: [generate_round_robin] *)
(* ===================================================================== *)

Definition BYE : string := "BYE".

(** [[teams[0]] + teams[-1:] + teams[1:-1]].  On the empty list
    [teams[0]] would raise, but the rotation only runs inside
    [range(n - 1)], which is empty then. *)
Definition rotate {A} (teams : list A) : list A :=
  take 1 teams ++ drop (length teams - 1) teams
    ++ take (length teams - 2) (drop 1 teams).

(** [for i in range(n // 2)]: the pairings of one round, byes skipped. *)
Fixpoint pair_loop (teams : list string) (n : nat) (rng : list nat)
  : list (string * string) :=
  match rng with
  | [] => []
  | i :: rng' =>
      let home := teams !!! i in
      let away := teams !!! (n - 1 - i)%nat in
      if bool_decide (home ≠ BYE) && bool_decide (away ≠ BYE)
      then (home, away) :: pair_loop teams n rng'
      else pair_loop teams n rng'
  end.

(** [for round_idx in range(n - 1)], threading the rotated list. *)
Fixpoint round_loop (count : nat) (n : nat) (teams : list string)
  : list (list (string * string)) :=
  match count with
  | O => []
  | S count' =>
      pair_loop teams n (seq 0 (n / 2)) :: round_loop count' n (rotate teams)
  end.

Definition generate_round_robin (team_names : list string) (home_and_away : bool)
  : list (list (string * string)) :=
  let teams := team_names in
  let teams := if Nat.eqb (length teams mod 2) 1 then teams ++ [BYE] else teams in
  let n := length teams in
  let rounds := round_loop (n - 1) n teams in
  if home_and_away
  then rounds ++ ((fun rnd : list (string * string) =>
                     (fun '(home, away) => (away, home)) <$> rnd) <$> rounds)
  else rounds.

(* ===================================================================== *)
(** ** Match assembler: [generate_match_list] *)
(* ===================================================================== *)

(** [zones.setdefault(z, []).append(t)] on an insertion-ordered dict. *)
Fixpoint setdefault_append (zones : list (string * list loc)) (z : string) (t : loc)
  : list (string * list loc) :=
  match zones with
  | [] => [(z, [t])]
  | (k, ts) :: rest =>
      if bool_decide (k = z) then (k, ts ++ [t]) :: rest
      else (k, ts) :: setdefault_append rest z t
  end.

(** [for t in teams: zones.setdefault(t.zone, []).append(t)] *)
Definition group_by_zone (h : heap) (teams : list loc) : list (string * list loc) :=
  foldl (fun zones t => setdefault_append zones (zone (team_at h t)) t) [] teams.

(** A pending match [(zone, home, away, round)]. *)
Definition pending : Type := string * string * string * Z.

(** The body of [for zone_name, zone_teams in zones.items()]; the same
    loop occurs in [generate_match_list] and in [generate_fixture]. *)
Definition zone_matches (h : heap) (home_and_away : bool)
    (zone_name : string) (zone_teams : list loc) : list pending :=
  let team_names := (fun t => name (team_at h t)) <$> zone_teams in
  let rounds := generate_round_robin team_names home_and_away in
  concat ((fun '(round_idx, pairs) =>
             (fun '(home, away) => (zone_name, home, away, round_idx))
               <$> (pairs : list (string * string)))
            <$> enumerate 1 rounds).

Definition all_zone_matches (h : heap) (home_and_away : bool)
    (zones : list (string * list loc)) : list pending :=
  concat ((fun '(zone_name, zone_teams) =>
             zone_matches h home_and_away zone_name zone_teams) <$> zones).

(** The dict [{"zone":…, "home":…, "away":…, "round":…}]. *)
Record MatchEntry : Type := mkEntry {
  e_zone : string; e_home : string; e_away : string; e_round : Z
}.

Definition entry_of (p : pending) : MatchEntry :=
  let '(z, hm, aw, r) := p in mkEntry z hm aw r.

(** [list(teams)] copies the list, not the objects in it: the copy holds
    the same references. *)
Definition list_copy (teams : list loc) : list loc := teams.

Definition generate_match_list (h : heap) (teams : list loc) (system : string)
    (home_and_away : bool) : heap * list MatchEntry :=
  let '(h1, teams_with_zone) := assign_zones h (list_copy teams) system in
  let zones := group_by_zone h1 teams_with_zone in
  (h1, entry_of <$> all_zone_matches h1 home_and_away zones).

(* ===================================================================== *)
(** ** Scheduler: [generate_fixture] *)
(* ===================================================================== *)

(** [list.sort(key=…)] is stable; a stable insertion sort computes the
    same list. *)
Section StableSort.
Context {A K : Type} (leb : K -> K -> bool) (key : A -> K).

Fixpoint insert_by (x : A) (l : list A) : list A :=
    match l with
    | [] => [x]
    | y :: l' => if leb (key x) (key y) then x :: y :: l' else y :: insert_by x l'
    end.

Definition sort_by (l : list A) : list A := foldr insert_by [] l.
End StableSort.

(** Tuple comparison [(d1, t1, f1) <= (d2, t2, f2)]: first difference
    decides; strings compare by code point. *)
Definition sort_key_t : Type := Z * Z * string.

Definition key_leb (k1 k2 : sort_key_t) : bool :=
  let '(d1, t1, f1) := k1 in
  let '(d2, t2, f2) := k2 in
  (d1 <? d2) || ((d1 =? d2) && ((t1 <? t2) || ((t1 =? t2) && String.leb f1 f2))).

(** [lambda m: (m.day, _time_to_minutes(m.time), m.field)] *)
Definition sort_key (m : Match) : outcome sort_key_t :=
  t ← _time_to_minutes (time m); Ok (day m, t, field m).

(** An entry [((day, time_str, field), abs_time)] of [timeslot_absolute]. *)
Definition abs_slot : Type := (Z * string * string) * Z.

Definition to_absolute (s : slot) : outcome abs_slot :=
  let '(day, time_str, field, _) := s in
  t ← _time_to_minutes time_str;
  Ok ((day, time_str, field), (day - 1) * 24 * 60 + t).

(** The working collections of one run. *)
Record sched_state : Type := mkState {
  schedule : list Match;
  last_played : gmap string Z
}.

(** [last_played.get(team, -1_000_000)] *)
Definition last_of (lp : gmap string Z) (team : string) : Z :=
  default (-1000000) (lp !! team).

(** [abs_time - last < rest_minutes] *)
Definition rest_blocks (lp : gmap string Z) (team : string) (abs_time rest : Z) : bool :=
  abs_time - last_of lp team <? rest.

(** [idx in {m.match_id for m in schedule}] *)
Definition occupied (sched : list Match) (idx : Z) : bool :=
  bool_decide (idx ∈ match_id <$> sched).

(** [sum(1 for m in schedule if m.day == day)] *)
Definition day_matches (sched : list Match) (d : Z) : Z :=
  Z.of_nat (length (filter (fun m => day m = d) sched)).

(** [max_matches_per_day is not None and day_matches >= max_matches_per_day] *)
Definition cap_blocks (sched : list Match) (cap : option Z) (d : Z) : bool :=
  match cap with
  | Some c => c <=? day_matches sched d
  | None => false
  end.

(** The chain of [continue] tests of the inner loop, in source order. *)
Definition slot_blocked (st : sched_state) (rest : Z) (cap : option Z)
    (hm aw : string) (idx : Z) (s : abs_slot) : bool :=
  let '((d, _, _), abs_time) := s in
  occupied (schedule st) idx
  || rest_blocks (last_played st) hm abs_time rest
  || rest_blocks (last_played st) aw abs_time rest
  || cap_blocks (schedule st) cap d.

(** The assignment at the end of the inner loop body. *)
Definition bind_match (st : sched_state) (p : pending) (idx : Z) (s : abs_slot)
  : sched_state :=
  let '(zn, hm, aw, round_idx) := p in
  let '((d, time_str, fld), abs_time) := s in
  mkState (schedule st ++ [mkMatch d time_str fld hm aw zn round_idx idx])
          (<[aw := abs_time]> (<[hm := abs_time]> (last_played st))).

(** [for idx, (…) in enumerate(timeslot_absolute)]: the state after the
    first slot that passes every test, [None] when the loop ends with
    [assigned] still false. *)
Fixpoint slot_loop (st : sched_state) (rest : Z) (cap : option Z) (p : pending)
    (cands : list (Z * abs_slot)) : option sched_state :=
  match cands with
  | [] => None
  | (idx, s) :: cands' =>
      let '(_, hm, aw, _) := p in
      if slot_blocked st rest cap hm aw idx s
      then slot_loop st rest cap p cands'
      else Some (bind_match st p idx s)
  end.

Definition infeasible_msg : string :=
  "No se pudo asignar un horario a todos los partidos.
Ajuste parámetros de días, canchas o descanso.".

(** [for zone, home, away, round_idx in matches_unassigned] *)
Fixpoint assign_loop (timeslot_absolute : list abs_slot) (rest : Z) (cap : option Z)
    (todo : list pending) (st : sched_state) : outcome sched_state :=
  match todo with
  | [] => Ok st
  | p :: todo' =>
      match slot_loop st rest cap p (enumerate 0 timeslot_absolute) with
      | Some st' => assign_loop timeslot_absolute rest cap todo' st'
      | None => Raise (RuntimeError infeasible_msg)
      end
  end.

Definition set_match_id (i : Z) (m : Match) : Match :=
  mkMatch (day m) (time m) (field m) (home m) (away m) (mzone m) (round m) i.

(** [for idx, match in enumerate(schedule, start=1): match.match_id = idx] *)
Definition renumber (sorted : list Match) : list Match :=
  (fun '(idx, m) => set_match_id idx m) <$> enumerate 1 sorted.

(** [schedule.sort(key=…)], the keys computed first, then the renumbering. *)
Definition finalize (sched : list Match) : outcome (list Match) :=
  keys ← traverse sort_key sched;
  let sorted := snd <$> sort_by key_leb fst (zip keys sched) in
  Ok (renumber sorted).

(** First phase: zones and the pending matches [matches_unassigned]. *)
Definition fixture_pending (h : heap) (teams : list loc) (system : string)
    (home_and_away : bool) : heap * list pending :=
  let '(h1, teams) := assign_zones h teams system in
  let zones := group_by_zone h1 teams in
  (h1, all_zone_matches h1 home_and_away zones).

(** Second phase: the slots, sorted by index, with their absolute times. *)
Definition fixture_slots (days fields : Z) (start_time end_time : string)
    (match_duration : Z) (midday_break : option (string * string))
  : outcome (list abs_slot) :=
  timeslots ← _generate_timeslots days fields start_time end_time
                match_duration midday_break;
  let timeslots := sort_by Z.leb slot_index timeslots in
  traverse to_absolute timeslots.

Definition empty_state : sched_state := mkState [] ∅.

Definition generate_fixture (h : heap) (teams : list loc) (system : string)
    (days fields : Z) (start_time end_time : string) (match_duration rest : Z)
    (midday_break : option (string * string)) (home_and_away : bool)
    (max_matches_per_day : option Z) : heap * outcome (list Match) :=
  let '(h1, matches_unassigned) := fixture_pending h teams system home_and_away in
  (h1,
   timeslot_absolute ← fixture_slots days fields start_time end_time
                         match_duration midday_break;
   st ← assign_loop timeslot_absolute rest max_matches_per_day
          matches_unassigned empty_state;
   finalize (schedule st)).

Definition four_teams : heap :=
  <[0%nat := mkTeam "a" ""]> (<[1%nat := mkTeam "b" ""]>
    (<[2%nat := mkTeam "c" ""]> (<[3%nat := mkTeam "d" ""]> ∅))).


(* ===================================================================== *)
(** ** Vocabulary of the statements *)
(* ===================================================================== *)

(** Every character of [s] satisfies [P]. *)
Fixpoint all_chars (P : ascii -> bool) (s : string) : bool :=
  match s with
  | EmptyString => true
  | String c s' => P c && all_chars P s'
  end.

(** [slots] carry the consecutive indices [index], [index + 1], … *)
Definition consecutive_from (index : Z) (slots : list slot) : Prop :=
  slot_index <$> slots = seqZ index (Z.of_nat (length slots)).

(** One row of the grid: a slot per field at a given day and time. *)
Definition field_row (d : Z) (time_str : string) (rng : list Z) (index : Z)
  : list slot :=
  (fun '(k, field_num) => (d, time_str, "c" +:+ Py.decimal field_num, k))
    <$> enumerate index rng.

(** The zone writes of [assign_zones], in program order: each entry
    [(t, z)] stands for one execution of [team.zone = z] on object [t]. *)
Definition zone_plan (teams : list loc) (system : string) : list (loc * string) :=
  let n := length teams in
  match group_size_of (Py.lower system) n with
  | None => (fun t => (t, "A")) <$> teams
  | Some group_size =>
      let zones := Py.chr_from_A <$> seq 0 (Z.to_nat (Z.of_nat n / group_size)) in
      (fun '(idx, t) => (t, zones !!! Z.to_nat (idx / group_size)))
        <$> enumerate 0 teams
  end.

Definition apply_plan (h : heap) (plan : list (loc * string)) : heap :=
  foldl (fun h '(t, z) => alter (set_zone z) t h) h plan.

(** The zone written last to object [t], if any. *)
Fixpoint last_assign (plan : list (loc * string)) (t : loc) : option string :=
  match plan with
  | [] => None
  | (t', z) :: plan' =>
      match last_assign plan' t with
      | Some z' => Some z'
      | None => if bool_decide (t' = t) then Some z else None
      end
  end.

(** The three matches of a zone of three teams [a], [b], [c], the way
    [generate_match_list] lists them (rounds 1, 2, 3). *)
Definition zone_of_three (z a b c : string) : list MatchEntry :=
  [mkEntry z b c 1; mkEntry z a c 2; mkEntry z a b 3].

(** Twenty-four unzoned teams named T0 … T23, at references 0 … 23. *)
Definition league24 : heap :=
  list_to_map ((fun i : nat => (i, mkTeam ("T" +:+ Py.decimal (Z.of_nat i)) "")) <$> seq 0 24).

(** One [Team] object listed twenty-four times. *)
Definition league_aliased : heap := <[0%nat := mkTeam "T0" ""]> ∅.

(** The same league with its first team called BYE. *)
Definition league24_bye : heap := <[0%nat := mkTeam "BYE" ""]> league24.

(** The slot a match is bound to. *)
Definition slot_of (m : Match) : Z * string * string := (day m, time m, field m).

(** Absolute time of a match: [(day - 1) * 1440] plus minutes of day. *)
Definition abs_time (m : Match) : outcome Z :=
  t ← _time_to_minutes (time m); Ok ((day m - 1) * 1440 + t).

Definition plays (team : string) (m : Match) : Prop := home m = team \/ away m = team.

(** Two matches are at least [rest] minutes apart for every team that
    plays in both. *)
Definition rested (rest : Z) (m1 m2 : Match) : Prop :=
  forall team, plays team m1 -> plays team m2 ->
    exists a1 a2, abs_time m1 = Ok a1 /\ abs_time m2 = Ok a2 /\ rest <= Z.abs (a1 - a2).

(** [R] holds between the elements at any two distinct positions. *)
Definition pairwise {A} (R : A -> A -> Prop) (l : list A) : Prop :=
  forall (i j : nat) x y, i <> j -> l !! i = Some x -> l !! j = Some y -> R x y.

(** [m1] sorts no later than [m2] under the key (day, minutes, field). *)
Definition sorted_before (m1 m2 : Match) : Prop :=
  exists k1 k2, sort_key m1 = Ok k1 /\ sort_key m2 = Ok k2 /\ key_leb k1 k2 = true.

(** An entry of [timeslot_absolute] pairs a slot with its absolute time. *)
Definition slot_entry_ok (s : abs_slot) : Prop :=
  exists t, _time_to_minutes s.1.1.2 = Ok t /\ s.2 = (s.1.1.1 - 1) * 24 * 60 + t.

(** What the scheduling loop maintains about its working collections,
    for the slot list [slots] and the rest [rest] of the run. *)
Record sched_inv (slots : list abs_slot) (rest : Z) (st : sched_state) : Prop := {
  inv_ids : NoDup (match_id <$> schedule st);
  inv_slots :
    Forall (fun m => exists (i : nat) a,
                match_id m = Z.of_nat i /\ slots !! i = Some (slot_of m, a))
           (schedule st);
  inv_last :
    Forall (fun m => forall team, plays team m ->
                exists a L, abs_time m = Ok a /\ last_played st !! team = Some L
                            /\ (0 <= rest -> a <= L))
           (schedule st);
  inv_rest : pairwise (rested rest) (schedule st)
}.

(** The schedule of scenario A: four teams, one day, one field. *)
Definition scenario_A_schedule : list Match :=
  [mkMatch 1 "09:00" "c1" "a" "d" "A" 1 1;
   mkMatch 1 "10:00" "c1" "b" "c" "A" 1 2;
   mkMatch 1 "11:00" "c1" "a" "c" "A" 2 3;
   mkMatch 1 "12:00" "c1" "d" "b" "A" 2 4;
   mkMatch 1 "13:00" "c1" "a" "b" "A" 3 5;
   mkMatch 1 "14:00" "c1" "c" "d" "A" 3 6].

(** The scheduler's state of scenario C after its first match. *)
Definition scenario_C_state : sched_state :=
  mkState [mkMatch 1 "09:00" "c1" "a" "b" "A" 1 0]
          (<["b" := 540]> (<["a" := 540]> ∅)).

(** Number of times the ordered pairing [p] occurs in one round. *)
Definition count_pairing (p : string * string) (rnd : list (string * string)) : nat :=
  length (filter (fun q => q = p) rnd).

(** Number of pairings of [a] with [b] in one round, either way round. *)
Definition meets (a b : string) (rnd : list (string * string)) : nat :=
  (count_pairing (a, b) rnd + count_pairing (b, a) rnd)%nat.

(** Position, after [r] rotations of a list of length [m + 1], of the
    element that started at index [k]: index 0 stays, the others cycle
    through the positions 1 … m. *)
Definition pos (m r k : nat) : nat :=
  if (k =? 0)%nat then 0%nat
  else if (k + r <=? m)%nat then (k + r)%nat else (k + r - m)%nat.

(** Where one rotation sends the element at position [p]. *)
Definition rot_pos (m p : nat) : nat :=
  if (p =? 0)%nat then 0%nat else if (p =? m)%nat then 1%nat else S p.

(** Number of occurrences of the character [c] in [s]. *)
Fixpoint count_char (c : ascii) (s : string) : nat :=
  match s with
  | EmptyString => 0%nat
  | String c' s' => ((if Ascii.eqb c' c then 1 else 0) + count_char c s')%nat
  end.

(** The dictionary [{"day":…, "time":…, "field":…, "index":…}]. *)
Record SlotEntry : Type := mkSlotEntry {
  s_day : Z; s_time : string; s_field : string; s_index : Z
}.

(** [generate_timeslots_list]: the raw tuples turned into dictionaries. *)
Definition generate_timeslots_list (days fields : Z) (start_time end_time : string)
    (match_duration : Z) (midday_break : option (string * string))
  : outcome (list SlotEntry) :=
  raw_slots ← _generate_timeslots days fields start_time end_time
                match_duration midday_break;
  Ok ((fun '(day, time_str, field_name, index) =>
         mkSlotEntry day time_str field_name index)
        <$> (raw_slots : list (Z * string * string * Z))).

(** [s1] is not later than [s2]: an earlier day, or the same day and a
    time of day that reads back as no later. *)
Definition chronological (s1 s2 : slot) : Prop :=
  slot_day s1 < slot_day s2
  \/ (slot_day s1 = slot_day s2
      /\ exists c1 c2, _time_to_minutes (slot_time s1) = Ok c1
                       /\ _time_to_minutes (slot_time s2) = Ok c2 /\ c1 <= c2).

(** One pass of the [while] loop seen from the clock alone: the next
    value of [current], or [None] when the loop stops at this pass (its
    test fails or its body raises). *)
Definition loop_next (fields end_min match_duration : Z) (brk : option (Z * Z))
    (current : Z) : option Z :=
  if current + match_duration <=? end_min then
    match break_jump brk current with
    | Some break_end => Some break_end
    | None =>
        match _minutes_to_time current with
        | Ok _ =>
            if forallb Py.printable (seqZ 1 fields)
            then Some (current + match_duration) else None
        | _ => None
        end
    end
  else None.

(** The clock after [n] passes, [None] when the loop stopped before. *)
Fixpoint loop_run (n : nat) (fields end_min match_duration : Z)
    (brk : option (Z * Z)) (current : Z) : option Z :=
  match n with
  | O => Some current
  | S n' =>
      match loop_next fields end_min match_duration brk current with
      | Some current' => loop_run n' fields end_min match_duration brk current'
      | None => None
      end
  end.

(** The slot [s] of day [d] starts at minute [c] of field number [k]. *)
Definition slot_at (d c k : Z) (s : slot) : Prop :=
  slot_day s = d /\ _minutes_to_time c = Ok (slot_time s)
  /\ exists n, Py.str k = Some n /\ slot_field s = "c" +:+ n.

(** The pending match a bound match came from. *)
Definition pending_of (m : Match) : pending := (mzone m, home m, away m, round m).

(** The list the circle method runs on: the names, with BYE appended when
    their number is odd. *)
Definition padded (team_names : list string) : list string :=
  if Nat.eqb (length team_names mod 2) 1 then team_names ++ [BYE] else team_names.

(** The pairings of one round before the byes are skipped. *)
Definition raw_pairs (teams : list string) (n : nat) (rng : list nat)
  : list (string * string) :=
  (fun i => (teams !!! i, teams !!! (n - 1 - i)%nat)) <$> rng.

(** A pairing of two real teams. *)
Definition real_pairing (p : string * string) : Prop := p.1 <> BYE /\ p.2 <> BYE.

(* ===================================================================== *)
(** * Sanity checks: the embedding evaluated on small inputs *)
(* ===================================================================== *)

Example str_neg : Py.str (-12) = Some "-12". Proof. reflexivity. Qed.

Example fmt_5 : Py.format_02d 5 = Some "05". Proof. reflexivity. Qed.

Example fmt_m1 : Py.format_02d (-1) = Some "-1". Proof. reflexivity. Qed.

Example fmt_123 : Py.format_02d 123 = Some "123". Proof. reflexivity. Qed.

(** The digit limit of [int]: 4301 digits are refused, leading zeros
    included. *)
Example int_limit :
  Py.int (String.concat "" (repeat "9" 4301)) = None
  /\ Py.int (String.concat "" (repeat "0" 4301)) = None.
Proof. vm_compute. repeat split. Qed.

(** White space for [int]: NBSP is stripped, the separator 28 is not. *)
Example int_nbsp : Py.int (String (ascii_of_nat 160) "5") = Some 5.
Proof. reflexivity. Qed.

Example int_fs : Py.int (String (ascii_of_nat 28) "5") = None.
Proof. reflexivity. Qed.

Example int_ws : Py.int " +1_000 " = Some 1000. Proof. reflexivity. Qed.

Example int_bad : Py.int "1__0" = None. Proof. reflexivity. Qed.

Example int_bad2 : Py.int "- 1" = None. Proof. reflexivity. Qed.

Example int_05 : Py.int "05" = Some 5. Proof. reflexivity. Qed.

Example split_ex : Py.split ":" "09:30" = ["09"; "30"]. Proof. reflexivity. Qed.

Example split_ex2 : Py.split ":" "0930" = ["0930"]. Proof. reflexivity. Qed.

Example lower_ex : Py.lower "8X3" = "8x3". Proof. reflexivity. Qed.

Example lower_latin1 :
  Py.lower_char (ascii_of_nat 201) = ascii_of_nat 233
  /\ Py.lower_char (ascii_of_nat 215) = ascii_of_nat 215.
Proof. split; reflexivity. Qed.

Example chr_ex : Py.chr_from_A 7 = "H". Proof. reflexivity. Qed.

Example t2m_0930 : _time_to_minutes "09:30" = Ok 570. Proof. reflexivity. Qed.

Example t2m_bad : _time_to_minutes "0930" = Raise ValueError. Proof. reflexivity. Qed.

Example t2m_bad3 : _time_to_minutes "09:30:00" = Raise ValueError. Proof. reflexivity. Qed.

Example m2t_570 : _minutes_to_time 570 = Ok "09:30". Proof. reflexivity. Qed.

Example m2t_neg : _minutes_to_time (-30) = Ok "-1:30". Proof. reflexivity. Qed.

Example slots_small :
  _generate_timeslots 2 2 "09:00" "11:30" 60 (Some ("10:00", "10:15")) =
  Ok [(1, "09:00", "c1", 0); (1, "09:00", "c2", 1);
      (1, "10:15", "c1", 2); (1, "10:15", "c2", 3);
      (2, "09:00", "c1", 4); (2, "09:00", "c2", 5);
      (2, "10:15", "c1", 6); (2, "10:15", "c2", 7)].
Proof. reflexivity. Qed.

Example slots_diverge :
  _generate_timeslots 1 1 "09:00" "18:00" 0 None = Diverge.
Proof. reflexivity. Qed.

Example slots_negative_duration_terminates :
  _generate_timeslots 1 1 "00:00" "00:10" (-1) (Some ("-1:55", "01:40")) = Ok [].
Proof. lazy. reflexivity. Qed.

Example rr4 :
  generate_round_robin ["a"; "b"; "c"; "d"] false =
  [[("a", "d"); ("b", "c")]; [("a", "c"); ("d", "b")]; [("a", "b"); ("c", "d")]].
Proof. reflexivity. Qed.

Example rr3 :
  generate_round_robin ["a"; "b"; "c"] false =
  [[("b", "c")]; [("a", "c")]; [("a", "b")]].
Proof. reflexivity. Qed.

Example rr1 : generate_round_robin ["a"] true = [[]; []].
Proof. reflexivity. Qed.

Example rr0 : generate_round_robin [] false = [].
Proof. reflexivity. Qed.

Example match_list_shared_objects :
  generate_match_list
    (<[0%nat := mkTeam "x" ""]> (<[1%nat := mkTeam "y" ""]> ∅)) [0%nat; 1%nat] "rr" false
  = (<[0%nat := mkTeam "x" "A"]> (<[1%nat := mkTeam "y" "A"]> ∅),
     [mkEntry "A" "x" "y" 1]).
Proof. vm_compute. reflexivity. Qed.

Example scenario_A :
  (generate_fixture four_teams [0; 1; 2; 3]%nat "rr" 1 1 "09:00" "18:00" 60 60
     None false None).2 =
  Ok [mkMatch 1 "09:00" "c1" "a" "d" "A" 1 1;
      mkMatch 1 "10:00" "c1" "b" "c" "A" 1 2;
      mkMatch 1 "11:00" "c1" "a" "c" "A" 2 3;
      mkMatch 1 "12:00" "c1" "d" "b" "A" 2 4;
      mkMatch 1 "13:00" "c1" "a" "b" "A" 3 5;
      mkMatch 1 "14:00" "c1" "c" "d" "A" 3 6].
Proof. vm_compute. reflexivity. Qed.

Example scenario_C :
  (generate_fixture four_teams [0; 1]%nat "rr" 1 1 "09:00" "10:00" 60 120
     None true None).2 = Raise (RuntimeError infeasible_msg).
Proof. vm_compute. reflexivity. Qed.

(* ===================================================================== *)
(** * Printing and parsing integers and times *)
(* ===================================================================== *)

Section Characters.

Lemma digit_not_space c : Py.is_digit c = true -> Py.is_space c = false.
  Proof.
    destruct c as [[] [] [] [] [] [] [] []]; vm_compute; congruence.
  Qed.

Lemma digit_not_underscore c : Py.is_digit c = true -> Ascii.eqb c "_" = false.
  Proof.
    destruct c as [[] [] [] [] [] [] [] []]; vm_compute; congruence.
  Qed.

Lemma digit_not_colon c : Py.is_digit c = true -> Ascii.eqb c ":" = false.
  Proof.
    destruct c as [[] [] [] [] [] [] [] []]; vm_compute; congruence.
  Qed.

Lemma digit_not_sign c :
    Py.is_digit c = true -> Ascii.eqb c "-" = false /\ Ascii.eqb c "+" = false.
  Proof.
    destruct c as [[] [] [] [] [] [] [] []]; vm_compute; split; congruence.
  Qed.

Lemma all_chars_app P s t :
    all_chars P (s +:+ t) = all_chars P s && all_chars P t.
  Proof.
    induction s as [|c s IH]; simpl; [reflexivity|].
    rewrite IH. now rewrite andb_assoc.
  Qed.

Lemma all_chars_weaken (P Q : ascii -> bool) s :
    (forall c, P c = true -> Q c = true) ->
    all_chars P s = true -> all_chars Q s = true.
  Proof.
    intros HPQ. induction s as [|c s IH]; simpl; [easy|].
    intros [Hc Hs]%andb_true_iff. rewrite (HPQ _ Hc). simpl. auto.
  Qed.

Lemma uint_digits d : all_chars Py.is_digit (NilEmpty.string_of_uint d) = true.
  Proof. induction d; simpl; auto. Qed.

End Characters.

Section Parsing.

Lemma lstrip_digits c s : Py.is_digit c = true -> Py.lstrip (String c s) = String c s.
  Proof. intros H. simpl. now rewrite (digit_not_space _ H). Qed.

Lemma rstrip_digits s : all_chars Py.is_digit s = true -> Py.rstrip s = s.
  Proof.
    induction s as [|c s IH]; simpl; [easy|].
    intros [Hc Hs]%andb_true_iff. rewrite (IH Hs).
    destruct s; [now rewrite (digit_not_space _ Hc)|reflexivity].
  Qed.

Lemma drop_underscores_digits b s :
    all_chars Py.is_digit s = true -> Py.drop_underscores b s = Some s.
  Proof.
    revert b. induction s as [|c s IH]; intros b; simpl; [easy|].
    intros [Hc Hs]%andb_true_iff.
    rewrite (digit_not_underscore _ Hc), (IH _ Hs). reflexivity.
  Qed.

Lemma split_digits s : all_chars Py.is_digit s = true -> Py.split ":" s = [s].
  Proof.
    induction s as [|c s IH]; simpl; [easy|].
    intros [Hc Hs]%andb_true_iff.
    rewrite (digit_not_colon _ Hc), (IH Hs). reflexivity.
  Qed.

  (** A non-empty digit string within the digit limit reads back as the
      number it denotes. *)
Lemma digits_value_uint d :
    d <> Decimal.Nil ->
    (String.length (NilEmpty.string_of_uint d) <= Py.int_max_str_digits)%nat ->
    Py.digits_value (NilEmpty.string_of_uint d) = Some (Z.of_uint d).
  Proof.
    intros Hd Hlen. unfold Py.digits_value.
    rewrite (drop_underscores_digits _ _ (uint_digits d)).
    apply Nat.leb_le in Hlen. rewrite Hlen.
    assert (E : NilZero.uint_of_string (NilEmpty.string_of_uint d) = Some d).
    { pose proof (NilZero.usu d Hd) as U. destruct d; try exact U. congruence. }
    now rewrite E.
  Qed.

Lemma int_uint d :
    d <> Decimal.Nil ->
    (String.length (NilEmpty.string_of_uint d) <= Py.int_max_str_digits)%nat ->
    Py.int (NilEmpty.string_of_uint d) = Some (Z.of_uint d).
  Proof.
    intros Hd Hlen. pose proof (uint_digits d) as Hall.
    pose proof (digits_value_uint d Hd Hlen) as Hv.
    unfold Py.int, Py.strip.
    destruct (NilEmpty.string_of_uint d) as [|c s] eqn:E.
    { destruct d; simpl in E; congruence. }
    simpl in Hall. apply andb_true_iff in Hall as [Hc Hs].
    rewrite (lstrip_digits _ _ Hc).
    rewrite rstrip_digits by (simpl; now rewrite Hc, Hs).
    destruct (digit_not_sign _ Hc) as [-> ->]. exact Hv.
  Qed.

Lemma int_neg_uint d :
    d <> Decimal.Nil ->
    (String.length (NilEmpty.string_of_uint d) <= Py.int_max_str_digits)%nat ->
    Py.int (String "-" (NilEmpty.string_of_uint d)) = Some (- Z.of_uint d).
  Proof.
    intros Hd Hlen. pose proof (uint_digits d) as Hall.
    unfold Py.int, Py.strip.
    change (Py.lstrip (String "-" ?s)) with (String "-" s).
    assert (R : Py.rstrip (String "-" (NilEmpty.string_of_uint d))
                = String "-" (NilEmpty.string_of_uint d)).
    { simpl. rewrite (rstrip_digits _ Hall).
      destruct (NilEmpty.string_of_uint d) eqn:E; [|reflexivity].
      destruct d; simpl in E; congruence. }
    rewrite R. simpl. now rewrite (digits_value_uint d Hd Hlen).
  Qed.

  (** The decimal text: digits, after a minus sign for negatives. *)
Lemma decimal_cases z :
    (0 <= z /\ exists d, d <> Decimal.Nil /\ Z.of_uint d = z
                         /\ Py.decimal z = NilEmpty.string_of_uint d)
    \/ (z < 0 /\ exists d, d <> Decimal.Nil /\ Z.of_uint d = - z
                         /\ Py.decimal z = String "-" (NilEmpty.string_of_uint d)
                         /\ Py.decimal (- z) = NilEmpty.string_of_uint d).
  Proof.
    destruct z as [|p|p].
    - left. split; [lia|]. exists (Decimal.D0 Decimal.Nil). repeat split; easy.
    - left. split; [lia|]. exists (Pos.to_uint p).
      pose proof (Unsigned.to_uint_nonnil p) as Hn.
      repeat split; [exact Hn| |].
      + unfold Z.of_uint. now rewrite Unsigned.of_to.
      + unfold Py.decimal. simpl. unfold NilZero.string_of_uint.
        destruct (Pos.to_uint p); congruence.
    - right. split; [lia|]. exists (Pos.to_uint p).
      pose proof (Unsigned.to_uint_nonnil p) as Hn.
      repeat split; [exact Hn| | |].
      + unfold Z.of_uint. now rewrite Unsigned.of_to.
      + unfold Py.decimal. simpl. unfold NilZero.string_of_uint.
        destruct (Pos.to_uint p); congruence.
      + unfold Py.decimal. simpl. unfold NilZero.string_of_uint.
        destruct (Pos.to_uint p); congruence.
  Qed.

  (** What [str] returns when it returns, with the bound on its digits. *)
Lemma str_cases z s :
    Py.str z = Some s ->
    (0 <= z /\ exists d, d <> Decimal.Nil /\ Z.of_uint d = z
                         /\ s = NilEmpty.string_of_uint d
                         /\ (String.length s <= Py.int_max_str_digits)%nat)
    \/ (z < 0 /\ exists d, d <> Decimal.Nil /\ Z.of_uint d = - z
                         /\ s = String "-" (NilEmpty.string_of_uint d)
                         /\ (String.length (NilEmpty.string_of_uint d)
                             <= Py.int_max_str_digits)%nat).
  Proof.
    unfold Py.str, Py.printable.
    destruct (Nat.leb_spec (String.length (Py.decimal (Z.abs z))) Py.int_max_str_digits)
      as [Hlen|]; [|discriminate].
    intros [= <-].
    destruct (decimal_cases z) as [[Hz (d & Hd & Hv & E)]|[Hz (d & Hd & Hv & E & E')]].
    - left. split; [exact Hz|]. exists d. rewrite Z.abs_eq in Hlen by exact Hz.
      now rewrite E in *.
    - right. split; [exact Hz|]. exists d.
      rewrite Z.abs_neq, E' in Hlen by lia. now rewrite E.
  Qed.

  (** Parsing undoes printing. *)
Lemma str_int z s : Py.str z = Some s -> Py.int s = Some z.
  Proof.
    intros [[_ (d & Hd & Hz & -> & Hl)]|[_ (d & Hd & Hz & -> & Hl)]]%str_cases.
    - rewrite int_uint by assumption. now rewrite Hz.
    - rewrite int_neg_uint by assumption. f_equal. lia.
  Qed.

Lemma str_inj z1 z2 s : Py.str z1 = Some s -> Py.str z2 = Some s -> z1 = z2.
  Proof. intros H1%str_int H2%str_int. congruence. Qed.

Lemma str_decimal z s : Py.str z = Some s -> s = Py.decimal z.
  Proof. unfold Py.str. destruct (Py.printable z); congruence. Qed.

  (** What [f"{z:02d}"] prints, in the same two shapes. *)
Lemma format_02d_cases z s :
    Py.format_02d z = Some s ->
    (exists d, d <> Decimal.Nil /\ Z.of_uint d = z
               /\ s = NilEmpty.string_of_uint d
               /\ (String.length s <= Py.int_max_str_digits)%nat)
    \/ (exists d, d <> Decimal.Nil /\ Z.of_uint d = - z
               /\ s = String "-" (NilEmpty.string_of_uint d)
               /\ (String.length (NilEmpty.string_of_uint d)
                   <= Py.int_max_str_digits)%nat).
  Proof.
    unfold Py.format_02d. destruct (Py.str z) as [s0|] eqn:E0; [|discriminate].
    cbn [option_map]. intros [= <-].
    destruct (str_cases _ _ E0) as [[_ (d & Hd & Hz & -> & Hl)]|[_ (d & Hd & Hz & -> & Hl)]].
    - left. destruct (Nat.ltb_spec (String.length (NilEmpty.string_of_uint d)) 2) as [H2|H2].
      + exists (Decimal.D0 d). repeat split; try easy.
        change (NilEmpty.string_of_uint (Decimal.D0 d))
          with (String "0" (NilEmpty.string_of_uint d)).
        cbn [String.length]. unfold Py.int_max_str_digits. lia.
      + exists d. repeat split; easy.
    - right. exists d. repeat split; try easy.
      destruct (NilEmpty.string_of_uint d) eqn:E; [|reflexivity].
      destruct d; simpl in E; congruence.
  Qed.

Lemma format_02d_int z s : Py.format_02d z = Some s -> Py.int s = Some z.
  Proof.
    intros [(d & Hd & Hz & -> & Hl)|(d & Hd & Hz & -> & Hl)]%format_02d_cases.
    - rewrite int_uint by assumption. now rewrite Hz.
    - rewrite int_neg_uint by assumption. f_equal. lia.
  Qed.

Lemma split_signed_digits (sgn : bool) s t :
    all_chars Py.is_digit s = true ->
    Py.split ":" t = [t] ->
    Py.split ":" ((if sgn then String "-" s else s) +:+ ":" +:+ t)
    = [if sgn then String "-" s else s; t].
  Proof.
    intros Hs Ht.
    assert (G : Py.split ":" (s +:+ ":" +:+ t) = [s; t]).
    { induction s as [|c s IH].
      - change (Py.split ":" (String ":" t) = [""; t]). simpl. now rewrite Ht.
      - simpl in Hs. apply andb_true_iff in Hs as [Hc Hs].
        change (Py.split ":" (String c (s +:+ ":" +:+ t)) = [String c s; t]).
        simpl. rewrite (digit_not_colon _ Hc), (IH Hs). reflexivity. }
    destruct sgn; [|exact G].
    change (Py.split ":" (String "-" (s +:+ ":" +:+ t)) = [String "-" s; t]).
    simpl. now rewrite G.
  Qed.

Lemma split_format_02d z s : Py.format_02d z = Some s -> Py.split ":" s = [s].
  Proof.
    intros [(d & _ & _ & -> & _)|(d & _ & _ & -> & _)]%format_02d_cases.
    - apply split_digits, uint_digits.
    - simpl. now rewrite (split_digits _ (uint_digits d)).
  Qed.

  (** What [_minutes_to_time] returns when it returns. *)
Lemma minutes_to_time_Ok minutes s :
    _minutes_to_time minutes = Ok s ->
    exists hh mm, Py.format_02d (minutes / 60) = Some hh
                  /\ Py.format_02d (minutes mod 60) = Some mm
                  /\ s = hh +:+ ":" +:+ mm.
  Proof.
    unfold _minutes_to_time.
    destruct (Py.format_02d (minutes / 60)) as [hh|]; cbn; [|discriminate].
    destruct (Py.format_02d (minutes mod 60)) as [mm|]; cbn; [|discriminate].
    intros [= <-]. now exists hh, mm.
  Qed.

  (** Reading a printed time gives the minutes back. *)
Lemma time_roundtrip (minutes : Z) (s : string) :
    _minutes_to_time minutes = Ok s -> _time_to_minutes s = Ok minutes.
  Proof.
    intros (hh & mm & Hh & Hm & ->)%minutes_to_time_Ok.
    unfold _time_to_minutes.
    assert (S : Py.split ":" (hh +:+ ":" +:+ mm) = [hh; mm]).
    { pose proof (split_format_02d _ _ Hm) as Ht.
      destruct (format_02d_cases _ _ Hh) as [(d & _ & _ & -> & _)|(d & _ & _ & -> & _)].
      - apply (split_signed_digits false); [apply uint_digits|exact Ht].
      - apply (split_signed_digits true); [apply uint_digits|exact Ht]. }
    rewrite S, (format_02d_int _ _ Hh), (format_02d_int _ _ Hm). simpl. f_equal.
    pose proof (Z.div_mod minutes 60). lia.
  Qed.

Lemma minutes_to_time_inj a b s :
    _minutes_to_time a = Ok s -> _minutes_to_time b = Ok s -> a = b.
  Proof. intros Ha%time_roundtrip Hb%time_roundtrip. congruence. Qed.

Lemma minutes_to_time_outcomes minutes :
    (exists s, _minutes_to_time minutes = Ok s)
    \/ _minutes_to_time minutes = Raise ValueError.
  Proof.
    unfold _minutes_to_time.
    destruct (Py.format_02d (minutes / 60)); cbn; [|now right].
    destruct (Py.format_02d (minutes mod 60)); cbn; [left; eauto|now right].
  Qed.

Lemma field_name_inj a b n m :
    Py.str a = Some n -> Py.str b = Some m -> "c" +:+ n = "c" +:+ m -> a = b.
  Proof.
    change ("c" +:+ ?s) with (String "c" s). intros Ha Hb [= E]. subst m.
    eapply str_inj; eauto.
  Qed.

End Parsing.

(* --------------------------------------------------------------------- *)
(** ** The digit limit in terms of magnitude *)

Section DigitLimit.

Lemma string_of_uint_length d :
    String.length (NilEmpty.string_of_uint d) = Decimal.nb_digits d.
  Proof. induction d; simpl; congruence. Qed.

  (** Horner evaluation between its two obvious bounds. *)
Lemma of_uint_acc_bounds d acc :
    Zpos acc * 10 ^ Z.of_nat (Decimal.nb_digits d)
    <= Zpos (Pos.of_uint_acc d acc)
    < (Zpos acc + 1) * 10 ^ Z.of_nat (Decimal.nb_digits d).
  Proof.
    revert acc. induction d as [|d IH|d IH|d IH|d IH|d IH|d IH|d IH|d IH|d IH|d IH];
      intros acc; cbn [Pos.of_uint_acc Decimal.nb_digits];
      [rewrite Z.pow_0_r; lia|..];
      rewrite Nat2Z.inj_succ, Z.pow_succ_r by lia;
      match goal with
      | |- _ <= Zpos (Pos.of_uint_acc _ ?a) < _ => specialize (IH a)
      end;
      pose proof (Z.pow_pos_nonneg 10 (Z.of_nat (Decimal.nb_digits d)) ltac:(lia) ltac:(lia));
      rewrite ?Pos2Z.inj_add, ?Pos2Z.inj_mul in IH; nia.
  Qed.

Lemma of_uint_upper d : Z.of_uint d < 10 ^ Z.of_nat (Decimal.nb_digits d).
  Proof.
    unfold Z.of_uint.
    induction d as [|d IH|d IH|d IH|d IH|d IH|d IH|d IH|d IH|d IH|d IH];
      cbn [Pos.of_uint Decimal.nb_digits];
      [reflexivity| |..];
      rewrite Nat2Z.inj_succ, Z.pow_succ_r by lia;
      pose proof (Z.pow_pos_nonneg 10 (Z.of_nat (Decimal.nb_digits d)) ltac:(lia) ltac:(lia));
      [lia|..];
      match goal with
      | |- Z.of_N (Npos (Pos.of_uint_acc _ ?a)) < _ =>
          pose proof (of_uint_acc_bounds d a)
      end; cbn [Z.of_N]; lia.
  Qed.

Lemma of_uint_lower d :
    Decimal.unorm d = d -> d <> Decimal.D0 Decimal.Nil ->
    10 ^ Z.of_nat (Decimal.nb_digits d - 1) <= Z.of_uint d.
  Proof.
    unfold Z.of_uint. intros Hn Hz.
    destruct d as [|d|d|d|d|d|d|d|d|d|d]; cbn [Pos.of_uint Decimal.nb_digits];
      rewrite ?Nat.sub_succ, ?Nat.sub_0_r.
    - now apply DecimalFacts.unorm_nonnil in Hn.
    - exfalso. rewrite DecimalFacts.unorm_D0 in Hn.
      destruct d as [|? |? |? |? |? |? |? |? |? |?]; [now apply Hz|..];
        match type of Hn with
        | Decimal.unorm ?u = _ =>
            assert (Hu : u <> Decimal.Nil) by discriminate;
            pose proof (DecimalFacts.nb_digits_unorm u Hu) as Hle;
            rewrite Hn in Hle; cbn [Decimal.nb_digits] in Hle; lia
        end.
    - pose proof (of_uint_acc_bounds d 1). cbn [Z.of_N]. lia.
    - pose proof (of_uint_acc_bounds d 2). cbn [Z.of_N].
      pose proof (Z.pow_pos_nonneg 10 (Z.of_nat (Decimal.nb_digits d)) ltac:(lia) ltac:(lia)).
      lia.
    - pose proof (of_uint_acc_bounds d 3). cbn [Z.of_N].
      pose proof (Z.pow_pos_nonneg 10 (Z.of_nat (Decimal.nb_digits d)) ltac:(lia) ltac:(lia)).
      lia.
    - pose proof (of_uint_acc_bounds d 4). cbn [Z.of_N].
      pose proof (Z.pow_pos_nonneg 10 (Z.of_nat (Decimal.nb_digits d)) ltac:(lia) ltac:(lia)).
      lia.
    - pose proof (of_uint_acc_bounds d 5). cbn [Z.of_N].
      pose proof (Z.pow_pos_nonneg 10 (Z.of_nat (Decimal.nb_digits d)) ltac:(lia) ltac:(lia)).
      lia.
    - pose proof (of_uint_acc_bounds d 6). cbn [Z.of_N].
      pose proof (Z.pow_pos_nonneg 10 (Z.of_nat (Decimal.nb_digits d)) ltac:(lia) ltac:(lia)).
      lia.
    - pose proof (of_uint_acc_bounds d 7). cbn [Z.of_N].
      pose proof (Z.pow_pos_nonneg 10 (Z.of_nat (Decimal.nb_digits d)) ltac:(lia) ltac:(lia)).
      lia.
    - pose proof (of_uint_acc_bounds d 8). cbn [Z.of_N].
      pose proof (Z.pow_pos_nonneg 10 (Z.of_nat (Decimal.nb_digits d)) ltac:(lia) ltac:(lia)).
      lia.
    - pose proof (of_uint_acc_bounds d 9). cbn [Z.of_N].
      pose proof (Z.pow_pos_nonneg 10 (Z.of_nat (Decimal.nb_digits d)) ltac:(lia) ltac:(lia)).
      lia.
  Qed.

  (** The decimal text of a positive number has at most [n] digits
      exactly when the number is below [10 ^ n]. *)
Lemma pos_digits_iff (p : positive) (n : nat) :
    (Decimal.nb_digits (Pos.to_uint p) <= n)%nat <-> Zpos p < 10 ^ Z.of_nat n.
  Proof.
    assert (Hv : Z.of_uint (Pos.to_uint p) = Zpos p).
    { unfold Z.of_uint. now rewrite Unsigned.of_to. }
    assert (Hn : Decimal.unorm (Pos.to_uint p) = Pos.to_uint p).
    { rewrite <- (DecimalPos.Unsigned.to_of (Pos.to_uint p)), Unsigned.of_to. reflexivity. }
    assert (Hz : Pos.to_uint p <> Decimal.D0 Decimal.Nil).
    { intros E. rewrite E in Hv. discriminate. }
    pose proof (of_uint_upper (Pos.to_uint p)) as Hup.
    pose proof (of_uint_lower _ Hn Hz) as Hlo.
    rewrite Hv in Hup, Hlo. split.
    - intros Hle. eapply Z.lt_le_trans; [exact Hup|].
      apply Z.pow_le_mono_r; lia.
    - intros Hlt. destruct (Nat.le_gt_cases (Decimal.nb_digits (Pos.to_uint p)) n)
        as [Hle|Hgt]; [exact Hle|exfalso].
      assert (10 ^ Z.of_nat n <= 10 ^ Z.of_nat (Decimal.nb_digits (Pos.to_uint p) - 1)).
      { apply Z.pow_le_mono_r; lia. }
      lia.
  Qed.

Lemma digit_bound_large : 100 <= digit_bound.
  Proof.
    unfold digit_bound. change 100 with (10 ^ 2).
    apply Z.pow_le_mono_r; [lia|]. unfold Py.int_max_str_digits. lia.
  Qed.

  (** A number converts to text exactly when its magnitude is below
      [digit_bound]. *)
Lemma printable_iff z : Py.printable z = true <-> Z.abs z < digit_bound.
  Proof.
    unfold Py.printable. rewrite Nat.leb_le.
    destruct (Z.abs z) as [|p|p] eqn:E; [| |lia].
    - pose proof digit_bound_large. split; [lia|].
      intros _. unfold Py.int_max_str_digits. cbn. lia.
    - replace (Py.decimal (Zpos p)) with (NilEmpty.string_of_uint (Pos.to_uint p)).
      + rewrite string_of_uint_length. apply pos_digits_iff.
      + unfold Py.decimal. simpl. unfold NilZero.string_of_uint.
        pose proof (Unsigned.to_uint_nonnil p). destruct (Pos.to_uint p); congruence.
  Qed.

Lemma str_Some z : Z.abs z < digit_bound -> Py.str z = Some (Py.decimal z).
  Proof. intros H%printable_iff. unfold Py.str. now rewrite H. Qed.

Lemma str_None z : digit_bound <= Z.abs z -> Py.str z = None.
  Proof.
    intros H. unfold Py.str. destruct (Py.printable z) eqn:E; [|reflexivity].
    apply printable_iff in E. lia.
  Qed.

Lemma format_02d_is_Some z : Z.abs z < digit_bound -> is_Some (Py.format_02d z).
  Proof. intros H. unfold Py.format_02d. rewrite (str_Some _ H). now eexists. Qed.

  (** [_minutes_to_time] returns exactly when the hour converts. *)
Lemma minutes_to_time_returns minutes :
    Z.abs (minutes / 60) < digit_bound -> exists s, _minutes_to_time minutes = Ok s.
  Proof.
    intros H. unfold _minutes_to_time.
    destruct (format_02d_is_Some _ H) as [hh ->].
    destruct (format_02d_is_Some (minutes mod 60)) as [mm ->].
    { pose proof digit_bound_large. pose proof (Z.mod_pos_bound minutes 60). lia. }
    cbn. now eexists.
  Qed.

Lemma minutes_to_time_raises minutes :
    digit_bound <= Z.abs (minutes / 60) -> _minutes_to_time minutes = Raise ValueError.
  Proof.
    intros H. unfold _minutes_to_time, Py.format_02d. now rewrite (str_None _ H).
  Qed.

Lemma minutes_to_time_within lo hi c :
    Z.abs (lo / 60) < digit_bound -> Z.abs (hi / 60) < digit_bound ->
    lo <= c <= hi -> exists s, _minutes_to_time c = Ok s.
  Proof.
    intros Hlo Hhi Hc. apply minutes_to_time_returns.
    assert (lo / 60 <= c / 60 <= hi / 60).
    { split; apply Z.div_le_mono; lia. }
    lia.
  Qed.

Lemma minutes_to_time_below_floor c :
    c < clock_floor -> _minutes_to_time c = Raise ValueError.
  Proof.
    unfold clock_floor. intros Hc. apply minutes_to_time_raises.
    assert (c / 60 < - digit_bound).
    { apply Z.div_lt_upper_bound; lia. }
    lia.
  Qed.

  (** At the limit: [10 ^ 4300 - 1] has 4300 digits and converts both
      ways, [10 ^ 4300] has 4301 and does not. *)
Example str_limit :
    Py.str (10 ^ 4300 - 1) = Some (Py.decimal (10 ^ 4300 - 1))
    /\ Py.int (Py.decimal (10 ^ 4300 - 1)) = Some (10 ^ 4300 - 1)
    /\ Py.str (10 ^ 4300) = None /\ Py.str (- 10 ^ 4300) = None
    /\ _minutes_to_time (60 * 10 ^ 4300) = Raise ValueError.
  Proof.
    assert (E : digit_bound = 10 ^ 4300) by reflexivity.
    pose proof digit_bound_large as Hl. rewrite E in Hl.
    generalize dependent (10 ^ 4300). intros B E Hl.
    assert (H1 : Py.str (B - 1) = Some (Py.decimal (B - 1))) by (apply str_Some; lia).
    split; [exact H1|]. split; [now apply str_int|].
    split; [apply str_None; lia|]. split; [apply str_None; lia|].
    apply minutes_to_time_raises.
    replace (60 * B / 60) with B by (symmetry; rewrite Z.mul_comm; apply Z.div_mul; lia).
    lia.
  Qed.

End DigitLimit.

(* ===================================================================== *)
(** * The slot enumerator *)
(* ===================================================================== *)

Section Enumerate.
Context {A : Type}.

Lemma enumerate_length start (l : list A) : length (enumerate start l) = length l.
  Proof. revert start. induction l; intros; simpl; auto. Qed.

Lemma enumerate_fst start (l : list A) :
    (enumerate start l).*1 = seqZ start (Z.of_nat (length l)).
  Proof.
    revert start. induction l as [|a l IH]; intros start.
    - reflexivity.
    - cbn [enumerate fmap list_fmap length]. rewrite seqZ_cons by lia.
      change (list_fmap _ _ fst (enumerate (start + 1) l))
        with ((enumerate (start + 1) l).*1).
      rewrite IH. do 2 f_equal; lia.
  Qed.

Lemma enumerate_snd start (l : list A) : (enumerate start l).*2 = l.
  Proof.
    revert start. induction l as [|a l IH]; intros start; [reflexivity|].
    cbn [enumerate fmap list_fmap]. f_equal. apply IH.
  Qed.

Lemma enumerate_lookup start (l : list A) (i : nat) :
    enumerate start l !! i = (fun a => (start + Z.of_nat i, a)) <$> l !! i.
  Proof.
    revert start i. induction l as [|a l IH]; intros start [|i]; simpl; try easy.
    - f_equal. f_equal. lia.
    - rewrite IH. destruct (l !! i); simpl; [|easy]. f_equal. f_equal. lia.
  Qed.

Lemma enumerate_app start (l k : list A) :
    enumerate start (l ++ k)
    = enumerate start l ++ enumerate (start + Z.of_nat (length l)) k.
  Proof.
    revert start. induction l as [|a l IH]; intros start; simpl.
    - f_equal. lia.
    - rewrite IH. do 3 f_equal. lia.
  Qed.
End Enumerate.

Section FieldRow.
Variables (d : Z) (time_str : string).

  (** The inner [for] loop: a row of slots, or [ValueError] when some
      field number does not convert to text. *)
Lemma field_loop_spec rng index :
    field_loop d time_str rng index
    = if forallb Py.printable rng
      then Ok (field_row d time_str rng index, index + Z.of_nat (length rng))
      else Raise ValueError.
  Proof.
    revert index. induction rng as [|n rng IH]; intros index.
    - simpl. unfold field_row. simpl. do 2 f_equal. lia.
    - cbn [field_loop forallb]. unfold Py.str.
      destruct (Py.printable n); cbn; [|reflexivity].
      rewrite IH. destruct (forallb Py.printable rng); cbn; [|reflexivity].
      unfold field_row. cbn [enumerate fmap list_fmap length]. do 2 f_equal. lia.
  Qed.

Lemma field_row_length rng index :
    length (field_row d time_str rng index) = length rng.
  Proof. unfold field_row. now rewrite length_fmap, enumerate_length. Qed.

Lemma field_row_index rng index :
    slot_index <$> field_row d time_str rng index
    = seqZ index (Z.of_nat (length rng)).
  Proof.
    unfold field_row. rewrite <- enumerate_fst, <- list_fmap_compose.
    apply list_fmap_ext. now intros ? [k n].
  Qed.

Lemma field_row_key rng index :
    slot_key <$> field_row d time_str rng index
    = (fun n => (d, time_str, "c" +:+ Py.decimal n)) <$> rng.
  Proof.
    unfold field_row. revert index.
    induction rng as [|n rng IH]; intros index; [reflexivity|].
    cbn [enumerate fmap list_fmap]. f_equal. apply IH.
  Qed.

Lemma field_row_NoDup rng index :
    forallb Py.printable rng = true ->
    NoDup rng -> NoDup (slot_key <$> field_row d time_str rng index).
  Proof.
    intros Hp Hnd. rewrite field_row_key.
    apply NoDup_fmap_2_strong; [|exact Hnd].
    rewrite forallb_forall in Hp.
    intros a b Ha%list_elem_of_In%Hp Hb%list_elem_of_In%Hp E.
    apply (field_name_inj a b (Py.decimal a) (Py.decimal b)).
    - unfold Py.str. now rewrite Ha.
    - unfold Py.str. now rewrite Hb.
    - congruence.
  Qed.

Lemma field_row_shape rng index s :
    s ∈ field_row d time_str rng index ->
    slot_day s = d /\ slot_time s = time_str.
  Proof.
    unfold field_row. intros ([k n] & -> & _)%list_elem_of_fmap. now split.
  Qed.
End FieldRow.

Section TimeLoop.
Variables (d fields end_min dur : Z) (brk : option (Z * Z)).

Let loop (fuel : nat) := time_loop fuel d fields end_min dur brk.
Let row (ts : string) (index : Z) := field_row d ts (seqZ 1 fields) index.
Let width := Z.of_nat (length (seqZ 1 fields)).
Let names_ok := forallb Py.printable (seqZ 1 fields).

Lemma break_jump_Some c be :
    break_jump brk c = Some be -> c < be /\ break_jump brk be = None.
  Proof.
    unfold break_jump. destruct brk as [[bs be']|]; [|easy].
    destruct (andb _ _) eqn:E; [|easy]. intros [= <-].
    apply andb_true_iff in E as [E1 E2]. split; [lia|].
    replace (be' <? be') with false by lia. now rewrite andb_false_r.
  Qed.

Lemma break_jump_above c c0 be :
    break_jump brk c = Some be -> break_jump brk c0 = None -> c <= c0 -> be <= c0.
  Proof.
    unfold break_jump. destruct brk as [[bs be']|]; [|easy].
    destruct (andb _ _) eqn:E; [|easy]. intros [= <-].
    destruct (andb (bs <=? c0) _) eqn:E0; [easy|]. intros _ Hle.
    apply andb_true_iff in E as [E1 E2]. apply andb_false_iff in E0. lia.
  Qed.

  (** The loop equation of the [while] statement. *)
Lemma time_loop_step fuel c index :
    loop (S fuel) c index =
    if c + dur <=? end_min then
      match break_jump brk c with
      | Some break_end => loop fuel break_end index
      | None =>
          ts ← _minutes_to_time c;
          if names_ok then
            '(more, index') ← loop fuel (c + dur) (index + width);
            Ok (row ts index ++ more, index')
          else Raise ValueError
      end
    else Ok ([], index).
  Proof.
    unfold loop, row, width, names_ok. cbn [time_loop].
    destruct (c + dur <=? end_min); [|reflexivity].
    destruct (break_jump brk c); [reflexivity|].
    destruct (_minutes_to_time c) as [ts| |]; cbn; [|reflexivity..].
    rewrite field_loop_spec. now destruct (forallb _ _).
  Qed.

  (** What a pass that returns went through. *)
Lemma time_loop_Ok fuel c index slots index' :
    loop (S fuel) c index = Ok (slots, index') ->
    (end_min < c + dur /\ slots = [] /\ index' = index)
    \/ (c + dur <= end_min
        /\ exists be, break_jump brk c = Some be
                      /\ loop fuel be index = Ok (slots, index'))
    \/ (c + dur <= end_min /\ break_jump brk c = None
        /\ names_ok = true
        /\ exists ts more, _minutes_to_time c = Ok ts
                           /\ loop fuel (c + dur) (index + width) = Ok (more, index')
                           /\ slots = row ts index ++ more).
  Proof.
    rewrite time_loop_step. destruct (c + dur <=? end_min) eqn:Ht.
    - apply Z.leb_le in Ht. destruct (break_jump brk c) as [be|] eqn:Hj.
      + intros H. right. left. split; [exact Ht|]. now exists be.
      + destruct (_minutes_to_time c) as [ts| |] eqn:Ets; cbn; [|easy..].
        destruct names_ok eqn:Hn; [|easy].
        destruct (loop fuel (c + dur) (index + width)) as [[more i2]| |] eqn:E;
          cbn; [|easy..].
        intros [= <- <-]. right. right. repeat split; try easy. now exists ts, more.
    - apply Z.leb_gt in Ht. intros [= <- <-]. left. now repeat split.
  Qed.

Lemma time_loop_mono fuel fuel' c index :
    loop fuel c index <> Diverge -> (fuel <= fuel')%nat ->
    loop fuel' c index = loop fuel c index.
  Proof.
    revert fuel' c index. induction fuel as [|fuel IH]; intros fuel' c index.
    { easy. }
    destruct fuel' as [|fuel']; [lia|]. intros H Hle. rewrite !time_loop_step in *.
    destruct (c + dur <=? end_min); [|reflexivity].
    destruct (break_jump brk c).
    - apply IH; [exact H|lia].
    - destruct (_minutes_to_time c) as [ts| |]; cbn in *; [|reflexivity..].
      destruct names_ok; [|reflexivity].
      rewrite (IH fuel' (c + dur) (index + width)); [reflexivity| |lia].
      intros E. rewrite E in H. now apply H.
  Qed.

Lemma time_loop_raises fuel c index e :
    loop fuel c index = Raise e -> e = ValueError.
  Proof.
    revert c index. induction fuel as [|fuel IH]; intros c index; [easy|].
    rewrite time_loop_step. destruct (c + dur <=? end_min); [|easy].
    destruct (break_jump brk c); [apply IH|].
    destruct (minutes_to_time_outcomes c) as [[ts ->]| ->]; cbn; [|congruence].
    destruct names_ok; [|congruence].
    destruct (loop fuel (c + dur) (index + width)) as [[more i2]|e'|] eqn:E; cbn; try easy.
    intros [= <-]. eapply IH, E.
  Qed.

Lemma time_loop_index fuel c index slots index' :
    loop fuel c index = Ok (slots, index') ->
    consecutive_from index slots /\ index' = index + Z.of_nat (length slots).
  Proof.
    revert c index slots index'.
    induction fuel as [|fuel IH]; intros c index slots index'; [discriminate|].
    intros [(_ & -> & ->)|[(_ & be & _ & H)|(_ & _ & _ & ts & more & _ & E & ->)]]%time_loop_Ok.
    - split; [reflexivity|simpl; lia].
    - eapply IH, H.
    - destruct (IH _ _ _ _ E) as [Hc ->].
      unfold consecutive_from in *. rewrite fmap_app, length_app.
      unfold row, width in *. rewrite field_row_index, field_row_length, Hc.
      rewrite Nat2Z.inj_add, seqZ_app by lia. split; [reflexivity|lia].
  Qed.

Lemma time_loop_day fuel c index slots index' :
    loop fuel c index = Ok (slots, index') ->
    Forall (fun s => slot_day s = d) slots.
  Proof.
    revert c index slots index'.
    induction fuel as [|fuel IH]; intros c index slots index'; [discriminate|].
    intros [(_ & -> & ->)|[(_ & be & _ & H)|(_ & _ & _ & ts & more & _ & E & ->)]]%time_loop_Ok.
    - constructor.
    - eapply IH, H.
    - apply Forall_app. split; [|eapply IH, E].
      apply Forall_forall. intros s Hs. now apply field_row_shape in Hs.
  Qed.

  (** With a positive duration the clock only moves forward, so a time of
      day is emitted once. *)
Lemma time_loop_keys fuel c index slots index' :
    0 < dur ->
    loop fuel c index = Ok (slots, index') ->
    Forall (fun s => exists c', c <= c' /\ _minutes_to_time c' = Ok (slot_time s)) slots
    /\ NoDup (slot_key <$> slots).
  Proof.
    intros Hdur. revert c index slots index'.
    induction fuel as [|fuel IH]; intros c index slots index'; [discriminate|].
    intros [(_ & -> & ->)|[(_ & be & Hj & H)|(_ & _ & Hn & ts & more & Ets & E & ->)]]%time_loop_Ok.
    - split; constructor.
    - destruct (IH _ _ _ _ H) as [Ht Hnd]. split; [|exact Hnd].
      apply break_jump_Some in Hj as [Hlt _].
      eapply Forall_impl; [exact Ht|]. intros s (c' & Hc' & E). exists c'. split; [lia|easy].
    - destruct (IH _ _ _ _ E) as [Ht Hnd]. split.
      + apply Forall_app. split.
        * apply Forall_forall. intros s Hs. apply field_row_shape in Hs as [_ ->].
          exists c. split; [lia|easy].
        * eapply Forall_impl; [exact Ht|]. intros s (c' & Hc' & E').
          exists c'. split; [lia|easy].
      + rewrite fmap_app. apply NoDup_app. split; [|split; [|exact Hnd]].
        * apply field_row_NoDup; [exact Hn|apply NoDup_seqZ].
        * intros k (s1 & -> & Hs1)%list_elem_of_fmap (s2 & Hk & Hs2)%list_elem_of_fmap.
          apply field_row_shape in Hs1 as [_ Hs1].
          rewrite Forall_forall in Ht. destruct (Ht _ Hs2) as (c' & Hc' & E').
          assert (Et : slot_time s1 = slot_time s2).
          { unfold slot_time, slot_key in *. now rewrite Hk. }
          rewrite Hs1 in Et. rewrite <- Et in E'.
          pose proof (minutes_to_time_inj _ _ _ Ets E'). lia.
  Qed.

  (** Termination: with a positive duration the loop test fails after at
      most [end_min - dur - c + 1] iterations, unless the body raises
      before. *)
Lemma time_loop_total fuel c index :
    0 < dur ->
    (Z.to_nat (end_min - dur - c + 1) < fuel)%nat ->
    loop fuel c index <> Diverge.
  Proof.
    intros Hdur. revert c index.
    induction fuel as [|fuel IH]; intros c index Hfuel; [lia|].
    rewrite time_loop_step. destruct (c + dur <=? end_min) eqn:Htest; [|easy].
    apply Z.leb_le in Htest.
    destruct (break_jump brk c) as [be|] eqn:Hj.
    - apply break_jump_Some in Hj as [Hlt _]. apply IH. lia.
    - destruct (minutes_to_time_outcomes c) as [[ts ->]| ->]; cbn; [|easy].
      destruct names_ok; [|easy].
      specialize (IH (c + dur) (index + width) ltac:(lia)).
      destruct (loop fuel (c + dur) (index + width)) as [[more i2]| |]; cbn; easy.
  Qed.

  (** With a positive duration, printable hours at both ends of the day
      and printable field numbers the loop returns. *)
Lemma time_loop_returns fuel c0 c index :
    0 < dur ->
    Z.abs (c0 / 60) < digit_bound -> Z.abs (end_min / 60) < digit_bound ->
    names_ok = true -> c0 <= c ->
    (Z.to_nat (end_min - dur - c + 1) < fuel)%nat ->
    exists r, loop fuel c index = Ok r.
  Proof.
    intros Hdur H0 He Hn. revert c index.
    induction fuel as [|fuel IH]; intros c index Hc Hfuel; [lia|].
    rewrite time_loop_step. destruct (c + dur <=? end_min) eqn:Htest; [|eauto].
    apply Z.leb_le in Htest.
    destruct (break_jump brk c) as [be|] eqn:Hj.
    - apply break_jump_Some in Hj as [Hlt _]. apply IH; lia.
    - destruct (minutes_to_time_within c0 end_min c H0 He ltac:(lia)) as [ts ->].
      cbn. rewrite Hn.
      destruct (IH (c + dur) (index + width)) as [[more i2] ->]; [lia|lia|].
      cbn. eauto.
  Qed.

  (* ------------------------------------------------------------------- *)
  (** *** The loop seen from the clock: when does it stop? *)

Let next := loop_next fields end_min dur brk.
Let run (n : nat) := loop_run n fields end_min dur brk.

  (** The fuel runs out exactly when the clock is still running. *)
Lemma time_loop_Diverge fuel c index :
    loop fuel c index = Diverge <-> is_Some (run fuel c).
  Proof.
    revert c index. induction fuel as [|fuel IH]; intros c index.
    { split; [now eexists|reflexivity]. }
    rewrite time_loop_step. unfold run. cbn [loop_run]. unfold loop_next.
    destruct (c + dur <=? end_min).
    2:{ split; [easy|now intros [? [=]]]. }
    destruct (break_jump brk c) as [be|]; [apply IH|].
    destruct (minutes_to_time_outcomes c) as [[ts ->]| ->]; cbn.
    2:{ split; [easy|now intros [? [=]]]. }
    fold names_ok. destruct names_ok.
    2:{ split; [easy|now intros [? [=]]]. }
    specialize (IH (c + dur) (index + width)). unfold run in IH. rewrite <- IH.
    destruct (loop fuel (c + dur) (index + width)) as [[more i2]| |]; cbn; easy.
  Qed.

Lemma obind_Some {A B} (f : A -> option B) (x : A) : Some x ≫= f = f x.
  Proof. reflexivity. Qed.

Lemma run_S n c : run (S n) c = next c ≫= run n.
  Proof. unfold run, next. cbn [loop_run]. now destruct (loop_next _ _ _ _ c). Qed.

  (** The three ways a pass can go. *)
Lemma next_cases c :
    next c = None
    \/ (exists bs be, brk = Some (bs, be) /\ c + dur <= end_min < be + (end_min - c)
                      /\ break_jump brk be = None /\ break_jump brk c = Some be
                      /\ next c = Some be)
    \/ (next c = Some (c + dur) /\ c + dur <= end_min /\ break_jump brk c = None
        /\ exists ts, _minutes_to_time c = Ok ts).
  Proof.
    unfold next, loop_next.
    destruct (c + dur <=? end_min) eqn:Ht; [apply Z.leb_le in Ht|now left].
    destruct (break_jump brk c) as [be|] eqn:Hj.
    - right. left. pose proof (break_jump_Some _ _ Hj) as [Hlt Hbe].
      pose proof Hj as Hj'.
      unfold break_jump in Hj. destruct brk as [[bs be']|]; [|easy].
      destruct (andb _ _); [|easy]. injection Hj as ->. exists bs, be.
      repeat split; try easy; lia.
    - destruct (_minutes_to_time c) as [ts| |]; try now left.
      destruct (forallb _ _); [|now left].
      right. right. repeat split; try easy. now exists ts.
  Qed.

Lemma run_mono n n' c : run n c = None -> (n <= n')%nat -> run n' c = None.
  Proof.
    revert n' c. induction n as [|n IH]; intros n' c; [easy|].
    destruct n' as [|n']; [lia|]. rewrite !run_S.
    destruct (next c); [|reflexivity]. rewrite !obind_Some. intros H Hle. apply (IH n'); [exact H|lia].
  Qed.

Lemma run_add n m c : run (n + m) c = run n c ≫= run m.
  Proof.
    revert c. induction n as [|n IH]; intros c; [reflexivity|].
    cbn [Nat.add]. rewrite !run_S. destruct (next c); [apply IH|reflexivity].
  Qed.

  (** A clock that comes back to a value it had never stops. *)
Lemma run_cycle k c : run (S k) c = Some c -> forall n, is_Some (run n c).
  Proof.
    intros Hk n. induction n as [n IH] using lt_wf_ind.
    destruct (Nat.le_gt_cases n (S k)) as [Hle|Hgt].
    - destruct (run n c) eqn:E; [now eexists|].
      rewrite (run_mono _ _ _ E Hle) in Hk. discriminate.
    - replace n with (S k + (n - S k))%nat by lia.
      rewrite run_add, Hk, obind_Some. apply IH. lia.
  Qed.

  (** Forward clock: the loop stops before the clock passes the end. *)
Lemma run_forward n c :
    0 < dur -> (Z.to_nat (end_min - dur - c + 1) < n)%nat -> run n c = None.
  Proof.
    intros Hdur. revert c. induction n as [|n IH]; intros c Hn; [lia|].
    rewrite run_S.
    destruct (next_cases c) as [->|[(bs & be & _ & Hlt & _ & _ & ->)|(-> & Ht & _)]];
      [reflexivity|..]; rewrite obind_Some; apply IH; lia.
  Qed.

  (** Standing clock: a pass that neither stops nor jumps repeats. *)
Lemma run_standing c :
    dur = 0 -> (exists n, run n c = None) -> run 2 c = None.
  Proof.
    intros Hdur [n Hn].
    assert (Hfix : forall x, break_jump brk x = None -> next x = None \/ run 1 x = Some x).
    { intros x Hj. rewrite run_S.
      destruct (next_cases x) as [->|[(bs & be & _ & _ & _ & Hj' & _)|(-> & _)]].
      - now left.
      - congruence.
      - right. rewrite obind_Some. change (run 0 (x + dur)) with (Some (x + dur)).
        f_equal. lia. }
    assert (Hstuck : forall x m, run 1 x = Some x -> run m x <> None).
    { intros x m Hx E. destruct (run_cycle 0 x Hx m) as [? Hs]. congruence. }
    rewrite run_S.
    destruct (next_cases c) as [->|[(bs & be & _ & _ & Hbe & _ & E)|(E & _ & Hj & _)]];
      [reflexivity|..].
    - rewrite E, obind_Some, run_S.
      destruct (Hfix be Hbe) as [->|Hcyc]; [reflexivity|exfalso].
      destruct n as [|n]; [discriminate|]. rewrite run_S, E, obind_Some in Hn.
      now apply (Hstuck be n).
    - exfalso. destruct (Hfix c Hj) as [E'|Hcyc]; [congruence|].
      now apply (Hstuck c n).
  Qed.

  (** Backward clock: it runs down until its hour no longer prints,
      unless the break sends it up. *)
Lemma run_backward n c :
    dur < 0 -> (Z.to_nat (c - clock_floor + 1) <= n)%nat ->
    run (S n) c = None
    \/ exists (j : nat) bs be,
         (j <= n)%nat /\ brk = Some (bs, be) /\ run (S j) c = Some be.
  Proof.
    intros Hdur. revert c. induction n as [|n IH]; intros c Hn; rewrite run_S;
      destruct (next_cases c) as [->|[(bs & be & Hb & _ & _ & _ & E)|(E & _ & _ & ts & Ets)]];
      try (now left).
    - right. exists 0%nat, bs, be. split; [lia|]. split; [exact Hb|].
      rewrite run_S, E. reflexivity.
    - rewrite minutes_to_time_below_floor in Ets by lia. discriminate.
    - right. exists 0%nat, bs, be. split; [lia|]. split; [exact Hb|].
      rewrite run_S, E. reflexivity.
    - rewrite E, obind_Some.
      assert (clock_floor <= c).
      { destruct (Z_lt_le_dec c clock_floor) as [Hlt|]; [|easy].
        rewrite minutes_to_time_below_floor in Ets by exact Hlt. discriminate. }
      destruct (IH (c + dur) ltac:(lia)) as [H'|(j & bs & be & Hj' & Hb & H')].
      + left. exact H'.
      + right. exists (S j), bs, be. split; [lia|]. split; [exact Hb|].
        rewrite run_S, E, obind_Some. exact H'.
  Qed.

  (** The fuel handed to the loop covers every run that stops. *)
Lemma run_adequate c :
    (exists n, run n c = None) -> run (while_fuel c end_min dur brk) c = None.
  Proof.
    intros Hstop. unfold while_fuel.
    destruct (0 <=? dur) eqn:Hd; [apply Z.leb_le in Hd|apply Z.leb_gt in Hd].
    - destruct (Z.eq_dec dur 0) as [E0|Hne].
      + apply (run_mono 2); [now apply run_standing|lia].
      + apply run_forward; lia.
    - set (A := Z.to_nat (c - clock_floor + 1)).
      destruct (run_backward A c Hd ltac:(lia)) as [H|(j & bs & be & Hj & Hb & H)].
      { apply (run_mono (S A)); [exact H|lia]. }
      rewrite Hb. set (B := Z.to_nat (be - clock_floor + 1)).
      destruct (run_backward B be Hd ltac:(lia)) as [H'|(j' & bs' & be' & Hj' & Hb' & H')].
      + apply (run_mono (S j + S B)); [|lia]. rewrite run_add, H, obind_Some. exact H'.
      + exfalso. rewrite Hb in Hb'. injection Hb' as <- <-.
        destruct Hstop as [n Hn].
        destruct (Nat.le_gt_cases n (S j)) as [Hle|Hgt].
        * rewrite (run_mono _ _ _ Hn Hle) in H. discriminate.
        * replace n with (S j + (n - S j))%nat in Hn by lia.
          rewrite run_add, H, obind_Some in Hn.
          destruct (run_cycle j' be H' (n - S j)) as [? Hs]. congruence.
  Qed.

  (** The fuel never cuts short a run that ends: whatever the loop
      returns or raises with some fuel, it does with [while_fuel]. *)
Lemma time_loop_adequate fuel c index :
    loop fuel c index <> Diverge ->
    loop (while_fuel c end_min dur brk) c index = loop fuel c index.
  Proof.
    intros H.
    assert (Hw : loop (while_fuel c end_min dur brk) c index <> Diverge).
    { rewrite time_loop_Diverge. intros [x Hx].
      rewrite run_adequate in Hx; [discriminate|].
      exists fuel. destruct (run fuel c) eqn:E; [|reflexivity].
      exfalso. apply H. apply time_loop_Diverge. rewrite E. now eexists. }
    destruct (Nat.le_ge_cases fuel (while_fuel c end_min dur brk)) as [Hle|Hle].
    - now apply time_loop_mono.
    - symmetry. now apply time_loop_mono.
  Qed.

  (** A clock that stands still at a time where the body succeeds never
      stops. *)
Lemma time_loop_stuck fuel c index ts :
    dur = 0 -> c <= end_min -> break_jump brk c = None ->
    _minutes_to_time c = Ok ts -> names_ok = true ->
    loop fuel c index = Diverge.
  Proof.
    intros Hdur Hc Hj Ets Hn. apply time_loop_Diverge.
    apply (run_cycle 0). unfold run. cbn [loop_run]. unfold loop_next.
    replace (c + dur <=? end_min) with true by lia.
    rewrite Hj, Ets. unfold names_ok in Hn. rewrite Hn. f_equal. lia.
  Qed.

  (** With a duration <= 0, once the body has run at some time the loop
      cannot end by its test: the clock stays at or below that time. *)
Lemma time_loop_no_return fuel c index c0 r :
    dur <= 0 -> c <= c0 -> c0 + dur <= end_min -> break_jump brk c0 = None ->
    loop fuel c index <> Ok r.
  Proof.
    intros Hdur. revert c index r.
    induction fuel as [|fuel IH]; intros c index r Hc Hc0 Hj0; [easy|].
    rewrite time_loop_step. replace (c + dur <=? end_min) with true by lia.
    destruct (break_jump brk c) as [be|] eqn:Hj.
    - apply IH; [|exact Hc0|exact Hj0]. eapply break_jump_above; eauto.
    - destruct (_minutes_to_time c) as [ts| |]; cbn; [|easy..].
      destruct names_ok; [|easy].
      destruct (loop fuel (c + dur) (index + width)) as [[more i2]| |] eqn:E; cbn;
        [|easy..].
      exfalso. apply (IH (c + dur) (index + width) (more, i2)); [lia|exact Hc0|exact Hj0|].
      exact E.
  Qed.

Lemma time_loop_nonpositive fuel c index r :
    dur <= 0 ->
    loop fuel c index = Ok r ->
    r = ([], index)
    /\ (end_min < c + dur
        \/ exists be, c + dur <= end_min /\ break_jump brk c = Some be /\ end_min < be + dur).
  Proof.
    intros Hdur. destruct fuel as [|fuel]; [discriminate|].
    rewrite time_loop_step. destruct (c + dur <=? end_min) eqn:Htest.
    - apply Z.leb_le in Htest. destruct (break_jump brk c) as [be|] eqn:Hj.
      + destruct fuel as [|fuel]; [discriminate|]. rewrite time_loop_step.
        destruct (be + dur <=? end_min) eqn:Htest2.
        * apply Z.leb_le in Htest2. apply break_jump_Some in Hj as [_ Hj].
          rewrite Hj. intros H. exfalso.
          destruct (_minutes_to_time be) as [ts| |]; cbn in H; [|easy..].
          destruct names_ok; [|easy].
          destruct (loop fuel (be + dur) (index + width)) as [[more i2]| |] eqn:E;
            cbn in H; [|easy..].
          apply (time_loop_no_return fuel (be + dur) (index + width) be (more, i2));
            [exact Hdur|lia|exact Htest2|exact Hj|exact E].
        * apply Z.leb_gt in Htest2. intros [= <-]. split; [reflexivity|].
          right. exists be. repeat split; [lia|lia].
      + intros H. exfalso.
        destruct (_minutes_to_time c) as [ts| |]; cbn in H; [|easy..].
        destruct names_ok; [|easy].
        destruct (loop fuel (c + dur) (index + width)) as [[more i2]| |] eqn:E;
          cbn in H; [|easy..].
        apply (time_loop_no_return fuel (c + dur) (index + width) c (more, i2));
          [exact Hdur|lia|exact Htest|exact Hj|exact E].
    - apply Z.leb_gt in Htest. intros [= <-]. split; [reflexivity|left; lia].
  Qed.
End TimeLoop.

Section DayLoop.
Variables (fields start_min end_min dur : Z) (brk : option (Z * Z)).

Let days_from (rng : list Z) := day_loop rng fields start_min end_min dur brk.

Lemma day_loop_Ok day rng index slots :
    days_from (day :: rng) index = Ok slots ->
    exists today index' later,
      time_loop (while_fuel start_min end_min dur brk) day fields end_min dur brk
        start_min index = Ok (today, index')
      /\ days_from rng index' = Ok later
      /\ slots = today ++ later.
  Proof.
    unfold days_from. cbn [day_loop].
    destruct (time_loop _ day _ _ _ _ _ _) as [[today i1]| |]; cbn; [|easy..].
    destruct (day_loop rng _ _ _ _ _ i1) as [later| |] eqn:El; cbn; [|easy..].
    intros [= <-]. now exists today, i1, later.
  Qed.

Lemma day_loop_index rng index slots :
    days_from rng index = Ok slots -> consecutive_from index slots.
  Proof.
    revert index slots. induction rng as [|d rng IH]; intros index slots.
    - intros [= <-]. reflexivity.
    - intros (today & i1 & later & Et & El & ->)%day_loop_Ok.
      apply time_loop_index in Et as [Hc ->]. apply IH in El.
      unfold consecutive_from in *.
      rewrite fmap_app, length_app, Hc, El, Nat2Z.inj_add, seqZ_app by lia.
      reflexivity.
  Qed.

Lemma day_loop_days rng index slots :
    days_from rng index = Ok slots -> Forall (fun s => slot_day s ∈ rng) slots.
  Proof.
    revert index slots. induction rng as [|d rng IH]; intros index slots.
    - intros [= <-]. constructor.
    - intros (today & i1 & later & Et & El & ->)%day_loop_Ok.
      apply Forall_app. split.
      + apply time_loop_day in Et. eapply Forall_impl; [exact Et|].
        intros s ->. apply list_elem_of_here.
      + apply IH in El. eapply Forall_impl; [exact El|].
        intros s Hs. now apply list_elem_of_further.
  Qed.

Lemma day_loop_keys rng index slots :
    0 < dur -> NoDup rng ->
    days_from rng index = Ok slots -> NoDup (slot_key <$> slots).
  Proof.
    intros Hdur. revert index slots. induction rng as [|d rng IH]; intros index slots Hnd.
    - intros [= <-]. constructor.
    - intros (today & i1 & later & Et & El & ->)%day_loop_Ok.
      apply NoDup_cons in Hnd as [Hd Hnd].
      rewrite fmap_app. apply NoDup_app. split; [|split].
      + eapply time_loop_keys; eauto.
      + intros k (s1 & -> & Hs1)%list_elem_of_fmap (s2 & Hk & Hs2)%list_elem_of_fmap.
        apply time_loop_day in Et. rewrite Forall_forall in Et.
        apply day_loop_days in El. rewrite Forall_forall in El.
        specialize (Et _ Hs1). specialize (El _ Hs2).
        assert (Ed : slot_day s1 = slot_day s2).
        { unfold slot_day, slot_key in *. now rewrite Hk. }
        apply Hd. now rewrite <- Et, Ed.
      + eapply IH; eauto.
  Qed.

Lemma day_loop_total rng index :
    0 < dur -> days_from rng index <> Diverge.
  Proof.
    intros Hdur. revert index. induction rng as [|d rng IH]; intros index; [easy|].
    unfold days_from. cbn [day_loop].
    pose proof (time_loop_total d fields end_min dur brk
                  (while_fuel start_min end_min dur brk) start_min index Hdur) as Ht.
    cbv beta in Ht.
    destruct (time_loop _ d _ _ _ _ _ _) as [[today i1]| |]; cbn; [|easy|].
    - specialize (IH i1). unfold days_from in IH.
      destruct (day_loop rng _ _ _ _ _ i1); cbn; easy.
    - exfalso. apply Ht; [|reflexivity].
      unfold while_fuel. replace (0 <=? dur) with true by lia. lia.
  Qed.

Lemma day_loop_raises rng index e :
    days_from rng index = Raise e -> e = ValueError.
  Proof.
    revert index. induction rng as [|d rng IH]; intros index; [easy|].
    unfold days_from. cbn [day_loop].
    destruct (time_loop _ d _ _ _ _ _ _) as [[today i1]|e'|] eqn:Et; cbn; [| |easy].
    - specialize (IH i1). unfold days_from in IH.
      destruct (day_loop rng _ _ _ _ _ i1) as [later|e''|]; cbn; easy.
    - intros [= <-]. eapply time_loop_raises, Et.
  Qed.

  (** With a positive duration, printable hours at both ends of the day
      and printable field numbers every day returns its slots. *)
Lemma day_loop_returns rng index :
    0 < dur ->
    Z.abs (start_min / 60) < digit_bound -> Z.abs (end_min / 60) < digit_bound ->
    forallb Py.printable (seqZ 1 fields) = true ->
    exists slots, days_from rng index = Ok slots.
  Proof.
    intros Hdur Hs He Hn. revert index.
    induction rng as [|d rng IH]; intros index; [now eexists|].
    unfold days_from. cbn [day_loop].
    destruct (time_loop_returns d fields end_min dur brk
                (while_fuel start_min end_min dur brk) start_min start_min index
                Hdur Hs He Hn ltac:(lia)) as [[today i1] ->].
    { unfold while_fuel. replace (0 <=? dur) with true by lia. lia. }
    cbn. destruct (IH i1) as [later E]. unfold days_from in E. rewrite E. cbn.
    now eexists.
  Qed.
End DayLoop.

Section SortedInput.
Context {A : Type} (key : A -> Z).

  (** Sorting a list whose keys are already ascending returns it as is. *)
Lemma sort_by_ascending (l : list A) :
    Sorted (fun a b => key a <= key b) l -> sort_by Z.leb key l = l.
  Proof.
    induction 1 as [|a l Hs IH Hhd]; [reflexivity|].
    cbn [sort_by foldr]. change (foldr (insert_by Z.leb key) [] l) with (sort_by Z.leb key l).
    rewrite IH. destruct Hhd as [|b l Hab]; [reflexivity|].
    cbn [insert_by]. now replace (key a <=? key b) with true by lia.
  Qed.
End SortedInput.

Lemma consecutive_sorted index (slots : list slot) :
  consecutive_from index slots ->
  Sorted (fun a b => slot_index a <= slot_index b) slots.
Proof.
  revert index. induction slots as [|s slots IH]; intros index Hc; [constructor|].
  unfold consecutive_from in Hc. cbn [fmap list_fmap length] in Hc.
  rewrite seqZ_cons in Hc by lia. injection Hc as Hs Hrest.
  replace (Z.pred (Z.of_nat (S (length slots)))) with (Z.of_nat (length slots)) in Hrest by lia.
  constructor; [eapply IH, Hrest|].
  destruct slots as [|s' slots]; constructor.
  cbn [fmap list_fmap length] in Hrest. rewrite seqZ_cons in Hrest by lia.
  injection Hrest as Hs' _. lia.
Qed.

Lemma consecutive_strictly_sorted index (slots : list slot) :
  consecutive_from index slots -> StronglySorted Z.lt (slot_index <$> slots).
Proof.
  unfold consecutive_from. intros ->. generalize (length slots) as n. intros n.
  revert index. induction n as [|n IH]; intros index.
  - constructor.
  - rewrite seqZ_cons by lia.
    replace (Z.pred (Z.of_nat (S n))) with (Z.of_nat n) by lia.
    constructor; [apply IH|]. apply Forall_seqZ. lia.
Qed.

Lemma time_to_minutes_terminates s : _time_to_minutes s <> Diverge.
Proof.
  unfold _time_to_minutes. destruct (Py.split ":" s) as [|hs [|ms [|? ?]]]; try easy.
  destruct (Py.int hs); cbn; [|easy]. destruct (Py.int ms); cbn; easy.
Qed.

Lemma time_to_minutes_raises s e : _time_to_minutes s = Raise e -> e = ValueError.
Proof.
  unfold _time_to_minutes.
  destruct (Py.split ":" s) as [|hs [|ms [|? ?]]]; try congruence.
  destruct (Py.int hs); cbn; [|congruence]. destruct (Py.int ms); cbn; congruence.
Qed.

Lemma parse_break_terminates b : parse_break b <> Diverge.
Proof.
  destruct b as [[b0 b1]|]; cbn; [|easy].
  pose proof (time_to_minutes_terminates b0).
  pose proof (time_to_minutes_terminates b1).
  destruct (_time_to_minutes b0); cbn; try easy.
  destruct (_time_to_minutes b1); cbn; easy.
Qed.

Lemma parse_break_raises b e : parse_break b = Raise e -> e = ValueError.
Proof.
  destruct b as [[b0 b1]|]; cbn; [|easy].
  destruct (_time_to_minutes b0) eqn:E0; cbn; [|apply time_to_minutes_raises in E0; congruence|easy].
  destruct (_time_to_minutes b1) eqn:E1; cbn; [easy|apply time_to_minutes_raises in E1; congruence|easy].
Qed.

(** The enumerator once its time strings are read. *)
Lemma generate_timeslots_parsed days fields start_time end_time dur midday_break
    start_min end_min brk :
  _time_to_minutes start_time = Ok start_min ->
  _time_to_minutes end_time = Ok end_min ->
  parse_break midday_break = Ok brk ->
  _generate_timeslots days fields start_time end_time dur midday_break
  = day_loop (seqZ 1 days) fields start_min end_min dur brk 0.
Proof. intros E1 E2 E3. unfold _generate_timeslots. now rewrite E1, E2, E3. Qed.

(** What a returned slot list came from. *)
Lemma generate_timeslots_Ok days fields start_time end_time dur midday_break slots :
  _generate_timeslots days fields start_time end_time dur midday_break = Ok slots ->
  exists start_min end_min brk,
    _time_to_minutes start_time = Ok start_min
    /\ _time_to_minutes end_time = Ok end_min
    /\ parse_break midday_break = Ok brk
    /\ day_loop (seqZ 1 days) fields start_min end_min dur brk 0 = Ok slots.
Proof.
  unfold _generate_timeslots.
  destruct (_time_to_minutes start_time) as [start_min| |]; cbn; [|easy..].
  destruct (_time_to_minutes end_time) as [end_min| |]; cbn; [|easy..].
  destruct (parse_break midday_break) as [brk| |]; cbn; [|easy..].
  intros H. now exists start_min, end_min, brk.
Qed.

(** The enumerator raises nothing but [ValueError]. *)
Lemma generate_timeslots_raises days fields start_time end_time dur midday_break e :
  _generate_timeslots days fields start_time end_time dur midday_break = Raise e ->
  e = ValueError.
Proof.
  unfold _generate_timeslots.
  destruct (_time_to_minutes start_time) eqn:E1; cbn;
    [|apply time_to_minutes_raises in E1; congruence|easy].
  destruct (_time_to_minutes end_time) eqn:E2; cbn;
    [|apply time_to_minutes_raises in E2; congruence|easy].
  destruct (parse_break midday_break) eqn:E3; cbn;
    [|apply parse_break_raises in E3; congruence|easy].
  apply day_loop_raises.
Qed.

(** Every property of the enumerator at once; only a positive duration
    is needed. *)
Lemma generate_timeslots_spec days fields start_time end_time dur midday_break :
  0 < dur ->
  _generate_timeslots days fields start_time end_time dur midday_break <> Diverge
  /\ forall slots,
      _generate_timeslots days fields start_time end_time dur midday_break = Ok slots ->
      consecutive_from 0 slots
      /\ StronglySorted Z.lt (slot_index <$> slots)
      /\ NoDup (slot_key <$> slots)
      /\ sort_by Z.leb slot_index slots = slots.
Proof.
  intros Hdur. split.
  - unfold _generate_timeslots.
    pose proof (time_to_minutes_terminates start_time) as T1.
    pose proof (time_to_minutes_terminates end_time) as T2.
    pose proof (parse_break_terminates midday_break) as T3.
    destruct (_time_to_minutes start_time) as [start_min| |]; cbn; [|easy..].
    destruct (_time_to_minutes end_time) as [end_min| |]; cbn; [|easy..].
    destruct (parse_break midday_break) as [brk| |]; cbn; [|easy..].
    now apply day_loop_total.
  - intros slots (start_min & end_min & brk & _ & _ & _ & E)%generate_timeslots_Ok.
    pose proof (day_loop_index _ _ _ _ _ _ _ _ E) as Hc.
    repeat split.
    + exact Hc.
    + eapply consecutive_strictly_sorted, Hc.
    + eapply day_loop_keys; eauto using NoDup_seqZ.
    + eapply sort_by_ascending, consecutive_sorted, Hc.
Qed.

(** A terminating enumeration has distinct slots whatever the duration:
    with a non-positive duration it can only return empty. *)
Lemma time_loop_keys_any d fields end_min dur brk fuel c index slots index' :
  time_loop fuel d fields end_min dur brk c index = Ok (slots, index') ->
  NoDup (slot_key <$> slots).
Proof.
  intros H. destruct (Z_lt_le_dec 0 dur) as [Hdur|Hdur].
  - eapply time_loop_keys; eauto.
  - apply time_loop_nonpositive in H as [[= -> _] _]; [constructor|exact Hdur].
Qed.

Lemma day_loop_nonpositive fields start_min end_min dur brk rng index slots :
  dur <= 0 ->
  day_loop rng fields start_min end_min dur brk index = Ok slots -> slots = [].
Proof.
  intros Hdur. revert index slots. induction rng as [|d rng IH]; intros index slots.
  - now intros [= <-].
  - intros (today & i1 & later & Et & El & ->)%day_loop_Ok.
    apply time_loop_nonpositive in Et as [[= -> _] _]; [|exact Hdur].
    apply IH in El. now subst.
Qed.

Lemma day_loop_keys_any fields start_min end_min dur brk rng index slots :
  NoDup rng ->
  day_loop rng fields start_min end_min dur brk index = Ok slots ->
  NoDup (slot_key <$> slots).
Proof.
  intros Hnd H. destruct (Z_lt_le_dec 0 dur) as [Hdur|Hdur].
  { eapply day_loop_keys; eauto. }
  apply day_loop_nonpositive in H; [|exact Hdur]. subst. constructor.
Qed.

(** What every returned slot list satisfies, whatever the inputs. *)
Lemma generate_timeslots_ok days fields start_time end_time dur midday_break slots :
  _generate_timeslots days fields start_time end_time dur midday_break = Ok slots ->
  consecutive_from 0 slots
  /\ NoDup (slot_key <$> slots)
  /\ sort_by Z.leb slot_index slots = slots.
Proof.
  intros (start_min & end_min & brk & _ & _ & _ & E)%generate_timeslots_Ok.
  pose proof (day_loop_index _ _ _ _ _ _ _ _ E) as Hc.
  repeat split.
  - exact Hc.
  - eapply day_loop_keys_any; eauto using NoDup_seqZ.
  - eapply sort_by_ascending, consecutive_sorted, Hc.
Qed.

(** Every returned slot's time string was printed by [_minutes_to_time]. *)
Lemma time_loop_printed d fields end_min dur brk fuel c index slots index' :
  time_loop fuel d fields end_min dur brk c index = Ok (slots, index') ->
  Forall (fun s => exists c', _minutes_to_time c' = Ok (slot_time s)) slots.
Proof.
  revert c index slots index'.
  induction fuel as [|fuel IH]; intros c index slots index'; [discriminate|].
  intros [(_ & -> & ->)|[(_ & be & _ & H)|(_ & _ & _ & ts & more & Ets & E & ->)]]%time_loop_Ok.
  - constructor.
  - eapply IH, H.
  - apply Forall_app. split; [|eapply IH, E].
    apply Forall_forall. intros s Hs. apply field_row_shape in Hs as [_ ->]. eauto.
Qed.

Lemma generate_timeslots_printed days fields start_time end_time dur midday_break slots :
  _generate_timeslots days fields start_time end_time dur midday_break = Ok slots ->
  Forall (fun s => exists c', _minutes_to_time c' = Ok (slot_time s)) slots.
Proof.
  intros (start_min & end_min & brk & _ & _ & _ & E)%generate_timeslots_Ok.
  revert E. generalize 0 as index. generalize (seqZ 1 days) as rng.
  intros rng. revert slots. induction rng as [|d rng IH]; intros slots index.
  - intros [= <-]. constructor.
  - intros (today & i1 & later & Et & El & ->)%day_loop_Ok.
    apply Forall_app. split; [eapply time_loop_printed, Et|eapply IH, El].
Qed.

(** Field numbers up to [fields] convert to text when [fields] does. *)
Lemma field_names_printable fields :
  fields < digit_bound -> forallb Py.printable (seqZ 1 fields) = true.
Proof.
  intros Hf. apply forallb_forall. intros k Hk%list_elem_of_In%elem_of_seqZ.
  apply printable_iff. lia.
Qed.

(** With well-formed time strings, a positive duration, hours at both
    ends of the day within the digit limit and a number of fields within
    it, the enumerator returns a slot list. *)
Lemma generate_timeslots_returns days fields start_time end_time dur midday_break
    start_min end_min brk :
  0 < dur ->
  _time_to_minutes start_time = Ok start_min ->
  _time_to_minutes end_time = Ok end_min ->
  parse_break midday_break = Ok brk ->
  Z.abs (start_min / 60) < digit_bound -> Z.abs (end_min / 60) < digit_bound ->
  fields < digit_bound ->
  exists slots,
    _generate_timeslots days fields start_time end_time dur midday_break = Ok slots.
Proof.
  intros Hdur E1 E2 E3 Hs He Hf.
  rewrite (generate_timeslots_parsed _ _ _ _ _ _ _ _ _ E1 E2 E3).
  apply day_loop_returns; auto using field_names_printable.
Qed.

(** C5. For days >= 1, fields >= 1 and a positive match duration the slot
    enumerator terminates; unless it raises ValueError (a malformed time
    string, or a number beyond the digit limit of the int/str
    conversions) it returns slots whose index values are 0, 1, 2, … in
    emission order (strictly increasing, gap-free, starting at 0), no two
    slots share the triple (day, time, field), and the list is already
    sorted by index: sorting it by index returns it unchanged. *)
Theorem C5_slot_enumerator days fields start_time end_time match_duration midday_break :
  1 <= days -> 1 <= fields -> 0 < match_duration ->
  (exists slots,
      _generate_timeslots days fields start_time end_time match_duration midday_break
      = Ok slots
      /\ slot_index <$> slots = seqZ 0 (Z.of_nat (length slots))
      /\ StronglySorted Z.lt (slot_index <$> slots)
      /\ NoDup (slot_key <$> slots)
      /\ sort_by Z.leb slot_index slots = slots)
  \/ _generate_timeslots days fields start_time end_time match_duration midday_break
     = Raise ValueError.
Proof.
  intros _ _ Hdur.
  destruct (generate_timeslots_spec days fields start_time end_time match_duration
              midday_break Hdur) as [Hterm Hok].
  destruct (_generate_timeslots _ _ _ _ _ _) as [slots|e|] eqn:E.
  - left. exists slots. split; [reflexivity|]. now apply Hok.
  - right. f_equal. eapply generate_timeslots_raises, E.
  - easy.
Qed.

Lemma C5_slot_enumerator_witness :
  (exists slots,
      _generate_timeslots 2 2 "09:00" "11:30" 60 (Some ("10:00", "10:15")) = Ok slots
      /\ slot_index <$> slots = seqZ 0 (Z.of_nat (length slots))
      /\ StronglySorted Z.lt (slot_index <$> slots)
      /\ NoDup (slot_key <$> slots)
      /\ sort_by Z.leb slot_index slots = slots)
  \/ _generate_timeslots 2 2 "09:00" "11:30" 60 (Some ("10:00", "10:15"))
     = Raise ValueError.
Proof.
  apply (C5_slot_enumerator 2 2 "09:00" "11:30" 60 (Some ("10:00", "10:15"))); lia.
Defined.

(* ===================================================================== *)
(** * The zone assigner *)
(* ===================================================================== *)

Section Plans.

Lemma foldl_fmap_fuse {A B C} (f : A -> B -> A) (g : C -> B) (a : A) (l : list C) :
    foldl f a (g <$> l) = foldl (fun a c => f a (g c)) a l.
  Proof. revert a. induction l as [|c l IH]; intros a; simpl; auto. Qed.

Lemma foldl_ext_in {A B} (f g : A -> B -> A) (a : A) (l : list B) :
    (forall a b, f a b = g a b) -> foldl f a l = foldl g a l.
  Proof. intros E. revert a. induction l as [|b l IH]; intros a; simpl; [easy|]. now rewrite E, IH. Qed.

  (** [assign_zones] either leaves the heap alone or performs its plan. *)
Lemma assign_zones_plan h teams system :
    assign_zones h teams system
    = if forallb (fun t => Py.truthy (zone (team_at h t))) teams
      then (h, teams)
      else (apply_plan h (zone_plan teams system), teams).
  Proof.
    unfold assign_zones, zone_plan, apply_plan.
    destruct (forallb _ teams); [reflexivity|].
    destruct (group_size_of _ _) as [g|]; f_equal.
    - rewrite foldl_fmap_fuse. apply foldl_ext_in. now intros a [idx t].
    - now rewrite foldl_fmap_fuse.
  Qed.

Lemma set_zone_twice z z' (o : option Team) :
    set_zone z' <$> (set_zone z <$> o) = set_zone z' <$> o.
  Proof. now destruct o. Qed.

  (** The heap after a plan: each object keeps its name and carries the
      zone written to it last. *)
Lemma apply_plan_lookup h plan t :
    apply_plan h plan !! t
    = match last_assign plan t with
      | Some z => set_zone z <$> h !! t
      | None => h !! t
      end.
  Proof.
    revert h. induction plan as [|[t' z] plan IH]; intros h; [reflexivity|].
    change (apply_plan h ((t', z) :: plan))
      with (apply_plan (alter (set_zone z) t' h) plan).
    rewrite IH. cbn [last_assign]. rewrite lookup_alter.
    destruct (last_assign plan t) as [z'|]; case_decide as Ht; try subst t'.
    - apply set_zone_twice.
    - reflexivity.
    - now rewrite bool_decide_true.
    - now rewrite bool_decide_false.
  Qed.

Lemma apply_plan_idempotent h plan :
    apply_plan (apply_plan h plan) plan = apply_plan h plan.
  Proof.
    apply map_eq. intros t. rewrite !apply_plan_lookup.
    destruct (last_assign plan t); [apply set_zone_twice|reflexivity].
  Qed.

Lemma last_assign_None plan t : last_assign plan t = None <-> t ∉ plan.*1.
  Proof.
    induction plan as [|[t' z] plan IH]; cbn [last_assign fmap list_fmap fst].
    - split; [intros _ H; inversion H|easy].
    - rewrite not_elem_of_cons, <- IH.
      destruct (last_assign plan t); [split; [easy|intros [_ [=]]]|].
      case_bool_decide; split; try easy; intros [? _]; congruence.
  Qed.

Lemma last_assign_Some plan t z : last_assign plan t = Some z -> (t, z) ∈ plan.
  Proof.
    induction plan as [|[t' z'] plan IH]; cbn [last_assign]; [easy|].
    destruct (last_assign plan t) as [z''|].
    - intros [= ->]. apply list_elem_of_further. now apply IH.
    - case_bool_decide; [|easy]. intros [= ->]. subst. apply list_elem_of_here.
  Qed.

Lemma last_assign_elem plan t :
    t ∈ plan.*1 -> exists z, last_assign plan t = Some z /\ (t, z) ∈ plan.
  Proof.
    intros Hin. destruct (last_assign plan t) as [z|] eqn:E.
    - exists z. split; [reflexivity|]. now apply last_assign_Some.
    - apply last_assign_None in E. contradiction.
  Qed.

Lemma last_assign_NoDup plan t z :
    NoDup plan.*1 -> (t, z) ∈ plan -> last_assign plan t = Some z.
  Proof.
    intros Hnd Hin.
    destruct (last_assign_elem plan t) as (z' & E & Hin').
    { apply list_elem_of_fmap. now exists (t, z). }
    rewrite E. f_equal.
    apply list_elem_of_lookup in Hin as [i Hi]. apply list_elem_of_lookup in Hin' as [j Hj].
    assert (i = j).
    { eapply NoDup_lookup; [exact Hnd| |]; rewrite list_lookup_fmap.
      - now rewrite Hi.
      - now rewrite Hj. }
    subst. congruence.
  Qed.

End Plans.

Section PlanZones.

Lemma zone_plan_fst teams system : (zone_plan teams system).*1 = teams.
  Proof.
    unfold zone_plan. destruct (group_size_of _ _) as [g|].
    - rewrite <- list_fmap_compose.
      rewrite <- (enumerate_snd 0 teams) at 2.
      apply list_fmap_ext. now intros ? [idx t].
    - rewrite <- list_fmap_compose. rewrite <- (list_fmap_id teams) at 2.
      now apply list_fmap_ext.
  Qed.

Lemma group_size_cases system n g :
    group_size_of system n = Some g -> n = 24%nat /\ (g = 3 \/ g = 6).
  Proof.
    unfold group_size_of.
    destruct (bool_decide (system = "8x3")); simpl.
    - case_bool_decide; simpl; [intros [= <-]; auto|].
      destruct (bool_decide (system = "4x6")); simpl; [|easy]. easy.
    - destruct (bool_decide (system = "4x6")); simpl; [|easy].
      case_bool_decide; simpl; [intros [= <-]; auto|easy].
  Qed.

  (** Every label written by the plan is a non-empty string. *)
Lemma zone_plan_truthy teams system t z :
    (t, z) ∈ zone_plan teams system -> Py.truthy z = true.
  Proof.
    unfold zone_plan. destruct (group_size_of _ _) as [g|] eqn:Eg.
    - intros ([idx t'] & [= -> ->] & Hin)%list_elem_of_fmap.
      apply group_size_cases in Eg as [En Hg].
      apply list_elem_of_lookup in Hin as [i Hi].
      rewrite enumerate_lookup in Hi.
      destruct (teams !! i) eqn:Ei; [|easy]. injection Hi as <- <-.
      apply lookup_lt_Some in Ei. rewrite En in *.
      rewrite list_lookup_total_alt, list_lookup_fmap.
      destruct (seq _ _ !! _) as [k|] eqn:Ek; [reflexivity|].
      apply lookup_ge_None in Ek. rewrite length_seq in Ek.
      exfalso. destruct Hg as [-> | ->]; change (Z.of_nat 24 / _) with 8 in Ek + change (Z.of_nat 24 / _) with 4 in Ek.
      + assert ((0 + Z.of_nat i) / 3 < 8) by (apply Z.div_lt_upper_bound; lia). lia.
      + assert ((0 + Z.of_nat i) / 6 < 4) by (apply Z.div_lt_upper_bound; lia). lia.
    - intros (t' & [= -> ->] & _)%list_elem_of_fmap. reflexivity.
  Qed.

End PlanZones.

(** After [assign_zones] every listed team that exists carries a
    non-empty zone and its old name. *)
Lemma assign_zones_truthy h teams system t T :
  t ∈ teams -> h !! t = Some T ->
  exists T', (assign_zones h teams system).1 !! t = Some T'
             /\ name T' = name T /\ Py.truthy (zone T') = true.
Proof.
  intros Hin Ht. rewrite assign_zones_plan.
  destruct (forallb _ teams) eqn:Eall; cbn [fst].
  - exists T. repeat split; [exact Ht|].
    rewrite forallb_forall in Eall. specialize (Eall t).
    unfold team_at in Eall. rewrite (lookup_total_correct _ _ _ Ht) in Eall.
    apply Eall. now apply list_elem_of_In.
  - rewrite apply_plan_lookup.
    destruct (last_assign_elem (zone_plan teams system) t) as (z & -> & Hz).
    { now rewrite zone_plan_fst. }
    rewrite Ht. exists (set_zone z T). repeat split.
    simpl. eapply zone_plan_truthy, Hz.
Qed.

(** C9. [assign_zones] is idempotent for every heap, team list and system
    code: a second application to the result of the first returns the same
    list and leaves every team (hence every zone) as the first left it. *)
Theorem C9_assign_zones_idempotent (h : heap) (teams : list loc) (system : string) :
  assign_zones (assign_zones h teams system).1 (assign_zones h teams system).2 system
  = assign_zones h teams system.
Proof.
  pose proof (assign_zones_plan h teams system) as E.
  destruct (forallb (fun t => Py.truthy (zone (team_at h t))) teams) eqn:Eall;
    rewrite E; cbn [fst snd]; rewrite assign_zones_plan.
  - now rewrite Eall.
  - clear Eall E.
    destruct (forallb _ teams); [reflexivity|]. now rewrite apply_plan_idempotent.
Qed.

(** C10. [generate_match_list] mutates the caller's [Team] objects: for
    every input whose list holds a team [t] with an empty zone, the heap
    after the call gives that same object [t] a non-empty zone (its name is
    unchanged), although only a copy of the list went to [assign_zones]. *)
Theorem C10_match_list_mutates_caller_teams
    (h : heap) (teams : list loc) (system : string) (home_and_away : bool)
    (t : loc) (T : Team) :
  t ∈ teams -> h !! t = Some T -> zone T = "" ->
  exists T', (generate_match_list h teams system home_and_away).1 !! t = Some T'
             /\ name T' = name T /\ zone T' <> "".
Proof.
  intros Hin Ht _. unfold generate_match_list, list_copy.
  destruct (assign_zones_truthy h teams system t T Hin Ht) as (T' & E & Hn & Hz).
  destruct (assign_zones h teams system) as [h1 teams1]. cbn [fst] in *.
  exists T'. repeat split; [exact E|exact Hn|].
  intros Ez. now rewrite Ez in Hz.
Qed.

Lemma C10_match_list_mutates_caller_teams_witness :
  exists T', (generate_match_list (<[0%nat := mkTeam "x" ""]> (<[1%nat := mkTeam "y" "B"]> ∅))
                [0%nat; 1%nat] "rr" false).1 !! 0%nat = Some T'
             /\ name T' = name (mkTeam "x" "") /\ zone T' <> "".
Proof.
  apply (C10_match_list_mutates_caller_teams
           (<[0%nat := mkTeam "x" ""]> (<[1%nat := mkTeam "y" "B"]> ∅))
           [0%nat; 1%nat] "rr" false 0%nat (mkTeam "x" "")).
  - apply list_elem_of_here.
  - reflexivity.
  - reflexivity.
Defined.

(* ===================================================================== *)
(** * The match assembler on the 8x3 system *)
(* ===================================================================== *)

(** A zone of three real teams: the bye sits out one pairing per round. *)
Lemma round_robin_three a b c :
  a <> BYE -> b <> BYE -> c <> BYE ->
  generate_round_robin [a; b; c] false = [[(b, c)]; [(a, c)]; [(a, b)]].
Proof.
  intros Ha Hb Hc.
  change (generate_round_robin [a; b; c] false) with (round_loop 3 4 [a; b; c; BYE]).
  assert (Hbye : bool_decide (BYE <> BYE) = false) by reflexivity.
  cbn -[bool_decide BYE].
  rewrite !(bool_decide_true (a <> BYE)), !(bool_decide_true (b <> BYE)),
    !(bool_decide_true (c <> BYE)), !Hbye by assumption.
  reflexivity.
Qed.

Lemma zone_plan_8x3_lookup teams (i : nat) t :
  length teams = 24%nat -> teams !! i = Some t ->
  zone_plan teams "8x3" !! i = Some (t, Py.chr_from_A (i / 3)).
Proof.
  intros Hlen Hi. unfold zone_plan. rewrite Hlen.
  change (group_size_of (Py.lower "8x3") 24) with (Some 3).
  cbn iota. rewrite list_lookup_fmap, enumerate_lookup, Hi. cbn [fmap option_fmap option_map].
  f_equal. f_equal.
  apply lookup_lt_Some in Hi. rewrite Hlen in Hi.
  change (Z.to_nat (Z.of_nat 24 / 3)) with 8%nat.
  replace (Z.to_nat ((0 + Z.of_nat i) / 3)) with (i / 3)%nat.
  2:{ rewrite Z.add_0_l. change 3 with (Z.of_nat 3). rewrite <- Nat2Z.inj_div. lia. }
  assert (Hk : (i / 3 < 8)%nat) by (apply Nat.Div0.div_lt_upper_bound; lia).
  rewrite list_lookup_total_alt, list_lookup_fmap, lookup_seq_lt by exact Hk.
  reflexivity.
Qed.

(** The heap after the 8x3 plan, on a list of 24 distinct objects. *)
Lemma assign_8x3_team h teams (i : nat) t :
  length teams = 24%nat -> NoDup teams -> is_Some (h !! t) ->
  teams !! i = Some t ->
  team_at (apply_plan h (zone_plan teams "8x3")) t
  = mkTeam (name (team_at h t)) (Py.chr_from_A (i / 3)).
Proof.
  intros Hlen Hnd [T HT] Hi. unfold team_at.
  apply lookup_total_correct. rewrite apply_plan_lookup.
  rewrite (last_assign_NoDup _ t (Py.chr_from_A (i / 3))).
  - rewrite HT. cbn. now rewrite (lookup_total_correct _ _ _ HT).
  - now rewrite zone_plan_fst.
  - eapply list_elem_of_lookup_2, zone_plan_8x3_lookup; eauto.
Qed.

Ltac index_facts F n :=
  lazymatch n with
  | O => idtac
  | S ?k =>
      index_facts F k;
      let H := fresh "F" in
      pose proof (F k _ eq_refl) as H; vm_compute (Py.chr_from_A _) in H
  end.

Ltac rewrite_team_facts :=
  repeat match goal with
         | H : team_at ?h ?t = _ |- context [team_at ?h ?t] => rewrite H
         end.

(** C8. For a list of 24 distinct teams that all carry an empty zone and
    none of which is named BYE, [generate_match_list] with system "8x3"
    and home_and_away false puts the i-th team in zone chr('A' + i // 3):
    eight zones 'A'..'H' of three contiguous teams each.  The returned
    list holds the 3 matches of each zone in zone order: 24 matches,
    3 per zone. *)
Theorem C8_scenario_8x3 (h : heap) (teams : list loc) :
  length teams = 24%nat ->
  NoDup teams ->
  (forall t, t ∈ teams ->
     is_Some (h !! t) /\ zone (team_at h t) = "" /\ name (team_at h t) <> BYE) ->
  let h1 := (generate_match_list h teams "8x3" false).1 in
  let ms := (generate_match_list h teams "8x3" false).2 in
  let nm (i : nat) := name (team_at h (teams !!! i)) in
  (forall (i : nat) t, teams !! i = Some t ->
     team_at h1 t = mkTeam (name (team_at h t)) (Py.chr_from_A (i / 3)))
  /\ group_by_zone h1 teams
     = (fun k => (Py.chr_from_A k, take 3 (drop (3 * k) teams))) <$> seq 0 8
  /\ ms = concat ((fun k => zone_of_three (Py.chr_from_A k)
                              (nm (3 * k)%nat) (nm (3 * k + 1)%nat) (nm (3 * k + 2)%nat))
                   <$> seq 0 8)
  /\ length ms = 24%nat
  /\ (forall k, (k < 8)%nat ->
        length (filter (fun e => e_zone e = Py.chr_from_A k) ms) = 3%nat).
Proof.
  intros Hlen Hnd Hvalid h1 ms nm.
  assert (Hfalse : forallb (fun t => Py.truthy (zone (team_at h t))) teams = false).
  { destruct teams as [|t0 rest]; [discriminate|].
    destruct (Hvalid t0) as (_ & Hz & _); [apply list_elem_of_here|].
    cbn [forallb]. now rewrite Hz. }
  assert (Eh : h1 = apply_plan h (zone_plan teams "8x3")).
  { unfold h1, generate_match_list, list_copy. now rewrite assign_zones_plan, Hfalse. }
  assert (F : forall (i : nat) t, teams !! i = Some t ->
     team_at h1 t = mkTeam (name (team_at h t)) (Py.chr_from_A (i / 3))).
  { intros i t Hi. rewrite Eh. apply assign_8x3_team; try assumption.
    apply Hvalid. eapply list_elem_of_lookup_2, Hi. }
  assert (Em : ms = entry_of <$> all_zone_matches h1 false (group_by_zone h1 teams)).
  { unfold ms, h1, generate_match_list, list_copy.
    now rewrite assign_zones_plan, Hfalse. }
  assert (Hnames : forall t, t ∈ teams -> name (team_at h t) <> BYE).
  { intros t Ht. now apply Hvalid. }
  clearbody h1 ms. clear Eh Hfalse Hvalid Hnd.
  do 24 (destruct teams as [|? teams]; [discriminate|]).
  destruct teams; [|discriminate]. clear Hlen.
  split; [exact F|].
  index_facts F 24%nat.
  assert (G : group_by_zone h1 [l; l0; l1; l2; l3; l4; l5; l6; l7; l8; l9; l10; l11;
                                 l12; l13; l14; l15; l16; l17; l18; l19; l20; l21; l22]
              = (fun k => (Py.chr_from_A k,
                           take 3 (drop (3 * k)
                             [l; l0; l1; l2; l3; l4; l5; l6; l7; l8; l9; l10; l11;
                              l12; l13; l14; l15; l16; l17; l18; l19; l20; l21; l22])))
                  <$> seq 0 8).
  { unfold group_by_zone. cbn [foldl]. rewrite_team_facts. reflexivity. }
  split; [exact G|].
  assert (M : ms = concat ((fun k => zone_of_three (Py.chr_from_A k)
                              (nm (3 * k)%nat) (nm (3 * k + 1)%nat) (nm (3 * k + 2)%nat))
                   <$> seq 0 8)).
  { rewrite Em, G. unfold all_zone_matches, zone_matches.
    cbn [seq fmap list_fmap take drop Nat.mul Nat.add concat app].
    rewrite_team_facts. cbn [name].
    rewrite !round_robin_three
      by (apply Hnames; repeat first [apply list_elem_of_here | apply list_elem_of_further]).
    reflexivity. }
  split; [exact M|]. rewrite M. split; [reflexivity|].
  intros k Hk.
  do 8 (destruct k as [|k]; [reflexivity|]). lia.
Qed.

Lemma C8_scenario_8x3_witness :
  let h := league24 in
  let teams := seq 0 24 in
  let h1 := (generate_match_list h teams "8x3" false).1 in
  let ms := (generate_match_list h teams "8x3" false).2 in
  let nm (i : nat) := name (team_at h (teams !!! i)) in
  (forall (i : nat) t, teams !! i = Some t ->
     team_at h1 t = mkTeam (name (team_at h t)) (Py.chr_from_A (i / 3)))
  /\ group_by_zone h1 teams
     = (fun k => (Py.chr_from_A k, take 3 (drop (3 * k) teams))) <$> seq 0 8
  /\ ms = concat ((fun k => zone_of_three (Py.chr_from_A k)
                              (nm (3 * k)%nat) (nm (3 * k + 1)%nat) (nm (3 * k + 2)%nat))
                   <$> seq 0 8)
  /\ length ms = 24%nat
  /\ (forall k, (k < 8)%nat ->
        length (filter (fun e => e_zone e = Py.chr_from_A k) ms) = 3%nat).
Proof.
  apply (C8_scenario_8x3 league24 (seq 0 24)).
  - reflexivity.
  - apply NoDup_seq.
  - intros t Ht. apply elem_of_seq in Ht.
    do 24 (destruct t as [|t]; [vm_compute; repeat split; [eauto|discriminate]|]).
    lia.
Defined.

(** C8 as stated fails when a team is called BYE: its pairings are
    dropped, and 22 matches come back instead of 24. *)
Lemma C8_counterexample_team_named_BYE :
  length (seq 0 24) = 24%nat
  /\ (forall t, t ∈ seq 0 24 -> zone (team_at league24_bye t) = "")
  /\ length (generate_match_list league24_bye (seq 0 24) "8x3" false).2 = 22%nat
  /\ length (generate_match_list league24_bye (seq 0 24) "8x3" false).2 <> 24%nat.
Proof.
  split; [reflexivity|]. split.
  - intros t Ht. apply elem_of_seq in Ht.
    do 24 (destruct t as [|t]; [reflexivity|]). lia.
  - assert (E : length (generate_match_list league24_bye (seq 0 24) "8x3" false).2 = 22%nat)
      by (vm_compute; reflexivity).
    split; [exact E|]. rewrite E. discriminate.
Qed.

(** Why the teams of C8 are distinct objects: a list that holds one object
    24 times ends with that object in zone H and a single zone. *)
Example match_list_8x3_aliased :
  let '(h1, ms) := generate_match_list league_aliased (replicate 24 0%nat) "8x3" false in
  zone (team_at h1 0%nat) = "H"
  /\ (group_by_zone h1 (replicate 24 0%nat)).*1 = ["H"]
  /\ length ms = 276%nat.
Proof. vm_compute. repeat split. Qed.

(* ===================================================================== *)
(** * Sorting and renumbering *)
(* ===================================================================== *)

Section StableSortFacts.
Context {A K : Type} (leb : K -> K -> bool) (key : A -> K).

Let R (a b : A) : Prop := leb (key a) (key b) = true.

Lemma insert_by_perm x l : insert_by leb key x l ≡ₚ x :: l.
  Proof.
    induction l as [|y l IH]; cbn [insert_by]; [reflexivity|].
    destruct (leb (key x) (key y)); [reflexivity|].
    rewrite IH. apply Permutation_swap.
  Qed.

Lemma sort_by_perm l : sort_by leb key l ≡ₚ l.
  Proof.
    induction l as [|x l IH]; [reflexivity|].
    cbn [sort_by foldr]. rewrite insert_by_perm. now constructor.
  Qed.

Hypothesis leb_total : forall a b, leb a b = true \/ leb b a = true.

Lemma insert_by_sorted x l : Sorted R l -> Sorted R (insert_by leb key x l).
  Proof.
    induction 1 as [|y l Hs IH Hhd]; cbn [insert_by].
    { repeat constructor. }
    destruct (leb (key x) (key y)) eqn:E.
    - constructor; [now constructor|]. now constructor.
    - constructor; [exact IH|].
      destruct l as [|z l]; cbn [insert_by].
      + constructor. unfold R. destruct (leb_total (key x) (key y)); congruence.
      + destruct (leb (key x) (key z)).
        * constructor. unfold R. destruct (leb_total (key x) (key y)); congruence.
        * constructor. now inversion Hhd.
  Qed.

Lemma sort_by_sorted l : Sorted R (sort_by leb key l).
  Proof.
    induction l as [|x l IH]; [constructor|].
    cbn [sort_by foldr]. now apply insert_by_sorted.
  Qed.
End StableSortFacts.

Section KeyOrder.

Lemma key_leb_total (k1 k2 : sort_key_t) : key_leb k1 k2 = true \/ key_leb k2 k1 = true.
  Proof.
    destruct k1 as [[d1 t1] f1], k2 as [[d2 t2] f2]. unfold key_leb.
    destruct (String.leb_total f1 f2) as [-> | ->];
      destruct (Z.ltb_spec d1 d2), (Z.ltb_spec d2 d1), (Z.eqb_spec d1 d2), (Z.eqb_spec d2 d1),
        (Z.ltb_spec t1 t2), (Z.ltb_spec t2 t1), (Z.eqb_spec t1 t2), (Z.eqb_spec t2 t1);
      cbn; auto; lia.
  Qed.

Lemma key_leb_trans (k1 k2 k3 : sort_key_t) :
    key_leb k1 k2 = true -> key_leb k2 k3 = true -> key_leb k1 k3 = true.
  Proof.
    destruct k1 as [[d1 t1] f1], k2 as [[d2 t2] f2], k3 as [[d3 t3] f3]. unfold key_leb.
    intros H12 H23.
    assert (Hf : String.leb f1 f2 = true -> String.leb f2 f3 = true -> String.leb f1 f3 = true).
    { intros H1 H2. apply Is_true_true. apply Is_true_true in H1, H2.
      exact (transitivity (R := String.le) H1 H2). }
    destruct (Z.ltb_spec d1 d2), (Z.eqb_spec d1 d2), (Z.ltb_spec d2 d3), (Z.eqb_spec d2 d3),
      (Z.ltb_spec d1 d3), (Z.eqb_spec d1 d3); cbn in *; try easy; try lia.
    destruct (Z.ltb_spec t1 t2), (Z.eqb_spec t1 t2), (Z.ltb_spec t2 t3), (Z.eqb_spec t2 t3),
      (Z.ltb_spec t1 t3), (Z.eqb_spec t1 t3); cbn in *; try easy; try lia.
    auto.
  Qed.

#[global] Instance sorted_before_trans : Transitive sorted_before.
  Proof.
    intros m1 m2 m3 (k1 & k2 & E1 & E2 & H12) (k2' & k3 & E2' & E3 & H23).
    rewrite E2 in E2'. injection E2' as <-.
    exists k1, k3. repeat split; try assumption. eapply key_leb_trans; eauto.
  Qed.

End KeyOrder.

Section Traverse.
Context {A B : Type} (f : A -> outcome B).

Lemma traverse_Ok l bs :
    traverse f l = Ok bs -> Forall2 (fun a b => f a = Ok b) l bs.
  Proof.
    revert bs. induction l as [|a l IH]; intros bs; cbn [traverse].
    - intros [= <-]. constructor.
    - destruct (f a) as [b| |] eqn:Ea; cbn; [|easy..].
      destruct (traverse f l) as [bs'| |]; cbn; [|easy..].
      intros [= <-]. constructor; auto.
  Qed.

Lemma traverse_total l :
    Forall (fun a => exists b, f a = Ok b) l -> exists bs, traverse f l = Ok bs.
  Proof.
    induction 1 as [|a l [b Hb] _ [bs IH]]; cbn [traverse].
    - now eexists.
    - rewrite Hb. cbn. rewrite IH. cbn. now eexists.
  Qed.
End Traverse.

Lemma sort_key_set_match_id i m : sort_key (set_match_id i m) = sort_key m.
Proof. reflexivity. Qed.

Lemma renumber_lookup sorted (i : nat) :
  renumber sorted !! i = set_match_id (1 + Z.of_nat i) <$> sorted !! i.
Proof.
  unfold renumber. rewrite list_lookup_fmap, enumerate_lookup.
  now destruct (sorted !! i).
Qed.

Lemma renumber_length sorted : length (renumber sorted) = length sorted.
Proof. unfold renumber. now rewrite length_fmap, enumerate_length. Qed.

Lemma renumber_ids sorted :
  match_id <$> renumber sorted = seqZ 1 (Z.of_nat (length sorted)).
Proof.
  unfold renumber. rewrite <- enumerate_fst, <- list_fmap_compose.
  apply list_fmap_ext. now intros ? [idx m].
Qed.

Lemma renumber_sorted sorted :
  StronglySorted sorted_before sorted -> StronglySorted sorted_before (renumber sorted).
Proof.
  unfold renumber. generalize 1 as start. intros start Hs. revert start.
  induction Hs as [|m l Hs IH Hall]; intros start; cbn [enumerate fmap list_fmap].
  - constructor.
  - constructor; [apply IH|].
    apply Forall_forall. intros m' ([idx m''] & -> & Hin)%list_elem_of_fmap.
    assert (Hm : m'' ∈ l).
    { rewrite <- (enumerate_snd (start + 1) l). apply list_elem_of_fmap. now exists (idx, m''). }
    rewrite Forall_forall in Hall. exact (Hall _ Hm).
Qed.

(** What a successful [finalize] returns: the schedule, stably sorted by
    (day, minutes, field) and numbered from 1. *)
Lemma finalize_Ok sched result :
  finalize sched = Ok result ->
  exists sorted,
    sorted ≡ₚ sched
    /\ StronglySorted sorted_before sorted
    /\ result = renumber sorted.
Proof.
  unfold finalize. destruct (traverse sort_key sched) as [keys| |] eqn:Ek; cbn; [|easy..].
  intros [= <-]. apply traverse_Ok in Ek.
  set (pairs := sort_by key_leb fst (zip keys sched)).
  exists (pairs.*2). repeat split.
  - unfold pairs. rewrite sort_by_perm. rewrite snd_zip; [reflexivity|].
    apply Forall2_length in Ek. lia.
  - apply Sorted_StronglySorted; [apply _|].
    assert (Hkeys : Forall (fun p => sort_key p.2 = Ok p.1) pairs).
    { unfold pairs. rewrite sort_by_perm. apply Forall_forall. intros [k m] Hin.
      apply list_elem_of_lookup in Hin as [i Hi]. apply lookup_zip_Some in Hi as [Hk Hm].
      exact (Forall2_lookup_lr _ _ _ _ _ _ Ek Hm Hk). }
    pose proof (sort_by_sorted key_leb fst key_leb_total (zip keys sched)) as Hs.
    fold pairs in Hs. clearbody pairs.
    induction Hs as [|p l Hs IH Hhd]; cbn [fmap list_fmap]; [constructor|].
    apply Forall_cons in Hkeys as [Hp Hl]. constructor; [now apply IH|].
    destruct Hhd as [|q l Hpq]; cbn [fmap list_fmap]; constructor.
    apply Forall_cons in Hl as [Hq _]. now exists p.1, q.1.
Qed.

(* ===================================================================== *)
(** * The scheduler *)
(* ===================================================================== *)

Section Pairwise.
Context {A : Type} (R : A -> A -> Prop).

Lemma pairwise_nil : pairwise R [].
  Proof. intros i j x y _ H. now rewrite lookup_nil in H. Qed.

Lemma pairwise_cons x l :
    pairwise R (x :: l) <-> (forall y, y ∈ l -> R x y /\ R y x) /\ pairwise R l.
  Proof.
    split.
    - intros H. split.
      + intros y [k Hk]%list_elem_of_lookup. split.
        * apply (H 0%nat (S k)); [lia|reflexivity|exact Hk].
        * apply (H (S k) 0%nat); [lia|exact Hk|reflexivity].
      + intros i j a b Hij Ha Hb. apply (H (S i) (S j)); [lia|exact Ha|exact Hb].
    - intros [Hx Hl] [|i] [|j] a b Hij Ha Hb; cbn in Ha, Hb.
      + lia.
      + injection Ha as <-. apply Hx. eapply list_elem_of_lookup_2, Hb.
      + injection Hb as <-. apply Hx. eapply list_elem_of_lookup_2, Ha.
      + apply (Hl i j); [lia|exact Ha|exact Hb].
  Qed.

Lemma pairwise_perm l l' : l ≡ₚ l' -> pairwise R l -> pairwise R l'.
  Proof.
    induction 1 as [|x l l' Hp IH|x y l|l l' l'' _ IH1 _ IH2].
    - easy.
    - rewrite !pairwise_cons. intros [Hx Hl]. split; [|auto].
      intros y Hy. apply Hx. now rewrite Hp.
    - rewrite !pairwise_cons. intros [Hy [Hx Hl]]. split; [|split; [|exact Hl]].
      + intros z [->|Hz]%elem_of_cons.
        * destruct (Hy x); [apply list_elem_of_here|]. now split.
        * now apply Hx.
      + intros z Hz. apply Hy. now apply list_elem_of_further.
    - auto.
  Qed.

Lemma pairwise_snoc l x :
    pairwise R l -> (forall y, y ∈ l -> R x y /\ R y x) -> pairwise R (l ++ [x]).
  Proof.
    intros Hl Hx. apply (pairwise_perm (x :: l)).
    - apply Permutation_cons_append.
    - now apply pairwise_cons.
  Qed.
End Pairwise.

Section SlotLoop.
Variables (rest : Z) (cap : option Z).

Lemma slot_loop_Some st zn hm aw r cands st' :
    slot_loop st rest cap (zn, hm, aw, r) cands = Some st' ->
    exists idx s, (idx, s) ∈ cands
                  /\ slot_blocked st rest cap hm aw idx s = false
                  /\ st' = bind_match st (zn, hm, aw, r) idx s.
  Proof.
    induction cands as [|[idx s] cands IH]; cbn [slot_loop]; [easy|].
    destruct (slot_blocked st rest cap hm aw idx s) eqn:E.
    - intros H. destruct (IH H) as (idx' & s' & Hin & Hb & ->).
      exists idx', s'. repeat split; [now apply list_elem_of_further|exact Hb].
    - intros [= <-]. exists idx, s. repeat split; [apply list_elem_of_here|exact E].
  Qed.

Lemma slot_loop_None st zn hm aw r cands :
    slot_loop st rest cap (zn, hm, aw, r) cands = None <->
    forall idx s, (idx, s) ∈ cands -> slot_blocked st rest cap hm aw idx s = true.
  Proof.
    induction cands as [|[idx s] cands IH]; cbn [slot_loop].
    - split; [intros _ ? ? H; inversion H|easy].
    - destruct (slot_blocked st rest cap hm aw idx s) eqn:E.
      + rewrite IH. split.
        * intros H idx' s' [[= -> ->]|Hin]%elem_of_cons; [exact E|now apply H].
        * intros H idx' s' Hin. apply H. now apply list_elem_of_further.
      + split; [easy|]. intros H. rewrite (H idx s) in E; [easy|apply list_elem_of_here].
  Qed.

Lemma elem_of_enumerate {A} (l : list A) idx (a : A) :
    (idx, a) ∈ enumerate 0 l <-> exists i : nat, idx = Z.of_nat i /\ l !! i = Some a.
  Proof.
    rewrite list_elem_of_lookup. split.
    - intros [i Hi]. rewrite enumerate_lookup in Hi. exists i.
      destruct (l !! i); [|easy]. injection Hi as <- <-. split; [lia|reflexivity].
    - intros (i & -> & Hi). exists i. rewrite enumerate_lookup, Hi. cbn. do 2 f_equal.
  Qed.

Lemma assign_loop_app slots pre post st :
    assign_loop slots rest cap (pre ++ post) st
    = st' ← assign_loop slots rest cap pre st; assign_loop slots rest cap post st'.
  Proof.
    revert st. induction pre as [|p pre IH]; intros st; [reflexivity|].
    cbn [app assign_loop]. destruct (slot_loop _ _ _ _ _); [apply IH|reflexivity].
  Qed.
End SlotLoop.

Section Invariant.
Variables (slots : list abs_slot) (rest : Z) (cap : option Z).
Hypothesis slots_ok : Forall slot_entry_ok slots.

Lemma inv_empty : sched_inv slots rest empty_state.
  Proof.
    split; cbn; [constructor|constructor|constructor|apply pairwise_nil].
  Qed.

Lemma rest_blocks_false lp team a L :
    rest_blocks lp team a rest = false -> lp !! team = Some L -> rest <= a - L.
  Proof.
    unfold rest_blocks, last_of. intros H E. rewrite E in H. cbn in H. lia.
  Qed.

Lemma rested_sym m1 m2 : rested rest m1 m2 -> rested rest m2 m1.
  Proof.
    intros H team H2 H1. destruct (H team H1 H2) as (a1 & a2 & E1 & E2 & Hr).
    exists a2, a1. repeat split; [exact E2|exact E1|lia].
  Qed.

  (** Binding a match to a slot that passes every test keeps the
      invariant. *)
Lemma inv_bind st zn hm aw r (i : nat) s :
    sched_inv slots rest st ->
    slots !! i = Some s ->
    slot_blocked st rest cap hm aw (Z.of_nat i) s = false ->
    sched_inv slots rest (bind_match st (zn, hm, aw, r) (Z.of_nat i) s).
  Proof.
    intros [Hids Hsl Hlast Hrest] Hi Hb.
    destruct s as [[[d ts] f] a]. cbn [slot_blocked bind_match] in *.
    apply orb_false_iff in Hb as [Hb Hcap].
    apply orb_false_iff in Hb as [Hb Haw].
    apply orb_false_iff in Hb as [Hocc Hhm].
    unfold occupied in Hocc. apply bool_decide_eq_false in Hocc.
    set (m := mkMatch d ts f hm aw zn r (Z.of_nat i)).
    assert (Habs : abs_time m = Ok a).
    { rewrite Forall_forall in slots_ok.
      destruct (slots_ok (d, ts, f, a)) as (t & Et & Ea).
      { eapply list_elem_of_lookup_2, Hi. }
      cbn in Et, Ea. unfold abs_time. cbn. rewrite Et. cbn. f_equal. lia. }
    assert (Hnew : forall m0, m0 ∈ schedule st -> rested rest m0 m).
    { intros m0 Hm0 team Hp0 Hp.
      rewrite Forall_forall in Hlast.
      destruct (Hlast m0 Hm0 team Hp0) as (a0 & L & Ea0 & EL & Hle).
      exists a0, a. repeat split; [exact Ea0|exact Habs|].
      assert (rest <= a - L).
      { destruct Hp as [Hp|Hp]; cbn in Hp; subst team;
          eauto using rest_blocks_false. }
      lia. }
    split; cbn [schedule last_played].
    - rewrite fmap_app. apply NoDup_app. repeat split; [exact Hids| |apply NoDup_singleton].
      intros x Hx [->|Hx']%elem_of_cons; [contradiction|inversion Hx'].
    - apply Forall_app. split; [exact Hsl|]. constructor; [|constructor].
      exists i, a. split; [reflexivity|exact Hi].
    - apply Forall_app. split.
      + rewrite Forall_forall in Hlast. apply Forall_forall. intros m0 Hm0 team Hp0.
        destruct (Hlast m0 Hm0 team Hp0) as (a0 & L & Ea0 & EL & Hle).
        destruct (decide (aw = team)) as [<-|Haw'].
        { exists a0, a. rewrite lookup_insert_eq. repeat split; [exact Ea0|].
          pose proof (rest_blocks_false _ _ _ _ Haw EL). lia. }
        destruct (decide (hm = team)) as [<-|Hhm'].
        { exists a0, a. rewrite lookup_insert_ne, lookup_insert_eq by exact Haw'.
          repeat split; [exact Ea0|].
          pose proof (rest_blocks_false _ _ _ _ Hhm EL). lia. }
        exists a0, L. rewrite !lookup_insert_ne by assumption. now repeat split.
      + constructor; [|constructor]. intros team Hp. exists a, a.
        repeat split; [exact Habs| |lia].
        destruct (decide (aw = team)) as [<-|Haw']; [apply lookup_insert_eq|].
        rewrite lookup_insert_ne by exact Haw'.
        destruct Hp as [Hp|Hp]; cbn in Hp; [subst; apply lookup_insert_eq|contradiction].
    - apply pairwise_snoc; [exact Hrest|].
      intros m0 Hm0. split; [apply rested_sym|]; now apply Hnew.
  Qed.

  (** The loop over the pending matches keeps the invariant and binds
      exactly one match per pending match, in pending order. *)
Lemma assign_loop_inv todo st st' :
    sched_inv slots rest st ->
    assign_loop slots rest cap todo st = Ok st' ->
    sched_inv slots rest st'
    /\ length (schedule st') = (length (schedule st) + length todo)%nat.
  Proof.
    revert st. induction todo as [|[[[zn hm] aw] r] todo IH]; intros st Hinv.
    - intros [= <-]. split; [exact Hinv|cbn; lia].
    - cbn [assign_loop].
      destruct (slot_loop st rest cap (zn, hm, aw, r) (enumerate 0 slots)) as [st1|] eqn:E;
        [|easy].
      apply slot_loop_Some in E as (idx & s & Hin & Hb & ->).
      apply elem_of_enumerate in Hin as (i & -> & Hi).
      intros H. apply IH in H as [Hinv' Hlen]; [|now apply inv_bind].
      split; [exact Hinv'|]. rewrite Hlen.
      destruct s as [[[d ts] f] a]. cbn. rewrite length_app. cbn. lia.
  Qed.

  (** Matches at different positions occupy different slots. *)
Lemma inv_distinct_slots st :
    NoDup slots.*1 ->
    sched_inv slots rest st ->
    pairwise (fun m1 m2 => slot_of m1 <> slot_of m2) (schedule st).
  Proof.
    intros Hnd [Hids Hsl _ _] i j m1 m2 Hij H1 H2 E.
    rewrite Forall_forall in Hsl.
    destruct (Hsl m1) as (i1 & a1 & Hid1 & Hs1); [eapply list_elem_of_lookup_2, H1|].
    destruct (Hsl m2) as (i2 & a2 & Hid2 & Hs2); [eapply list_elem_of_lookup_2, H2|].
    assert (i1 = i2).
    { eapply NoDup_lookup; [exact Hnd| |]; apply list_lookup_fmap_Some.
      - eexists. split; [|exact Hs1]. reflexivity.
      - eexists. split; [|exact Hs2]. cbn. now rewrite E. }
    subst i2. apply Hij.
    eapply NoDup_lookup; [exact Hids| |]; rewrite list_lookup_fmap.
    - rewrite H1. reflexivity.
    - rewrite H2. cbn. congruence.
  Qed.
End Invariant.

(** The slot list the scheduler works on. *)
Lemma fixture_slots_ok days fields start_time end_time dur midday_break slots :
  fixture_slots days fields start_time end_time dur midday_break = Ok slots ->
  Forall slot_entry_ok slots /\ NoDup slots.*1.
Proof.
  unfold fixture_slots.
  destruct (_generate_timeslots _ _ _ _ _ _) as [ts| |] eqn:E; cbn; [|easy..].
  destruct (generate_timeslots_ok _ _ _ _ _ _ _ E) as (_ & Hnd & ->).
  intros Ht. apply traverse_Ok in Ht.
  assert (Hkeys : slots.*1 = slot_key <$> ts).
  { clear Hnd E. induction Ht as [|s a ts slots Hs _ IH]; [reflexivity|].
    cbn [fmap list_fmap]. rewrite <- IH. f_equal.
    destruct s as [[[d t] f] idx]. cbn in Hs.
    destruct (_time_to_minutes t); cbn in Hs; [|easy..]. now injection Hs as <-. }
  split; [|now rewrite Hkeys].
  clear Hkeys Hnd E. induction Ht as [|s a ts slots Hs _ IH]; constructor; [|exact IH].
  destruct s as [[[d t] f] idx]. cbn in Hs.
  destruct (_time_to_minutes t) as [tm| |] eqn:Et; cbn in Hs; [|easy..].
  injection Hs as <-. exists tm. now split.
Qed.

Section Run.
Variables (h : heap) (teams : list loc) (system : string) (days fields : Z)
            (start_time end_time : string) (match_duration rest : Z)
            (midday_break : option (string * string)) (home_and_away : bool)
            (max_matches_per_day : option Z).

Let run := generate_fixture h teams system days fields start_time end_time
               match_duration rest midday_break home_and_away max_matches_per_day.
Let todo := (fixture_pending h teams system home_and_away).2.
Let the_slots := fixture_slots days fields start_time end_time match_duration
                     midday_break.

Lemma generate_fixture_unfold :
    run.2 = (slots ← the_slots;
             st ← assign_loop slots rest max_matches_per_day todo empty_state;
             finalize (schedule st)).
  Proof.
    unfold run, todo, the_slots, generate_fixture.
    now destruct (fixture_pending h teams system home_and_away).
  Qed.

  (** Anatomy of a successful run. *)
Lemma generate_fixture_Ok result :
    run.2 = Ok result ->
    exists slots st sorted,
      the_slots = Ok slots
      /\ assign_loop slots rest max_matches_per_day todo empty_state = Ok st
      /\ sched_inv slots rest st
      /\ NoDup slots.*1
      /\ length (schedule st) = length todo
      /\ sorted ≡ₚ schedule st
      /\ StronglySorted sorted_before sorted
      /\ result = renumber sorted.
  Proof.
    rewrite generate_fixture_unfold. unfold the_slots.
    destruct (fixture_slots _ _ _ _ _ _) as [slots| |] eqn:Es; cbn; [|easy..].
    destruct (assign_loop slots rest max_matches_per_day todo empty_state)
      as [st| |] eqn:Ea; cbn; [|easy..].
    intros (sorted & Hp & Hs & ->)%finalize_Ok.
    destruct (fixture_slots_ok _ _ _ _ _ _ _ Es) as [Hok Hnd].
    destruct (assign_loop_inv slots rest max_matches_per_day Hok todo empty_state st
                (inv_empty slots rest) Ea) as [Hinv Hlen].
    exists slots, st, sorted.
    split; [reflexivity|]. split; [exact Ea|]. split; [exact Hinv|].
    split; [exact Hnd|]. split; [exact Hlen|]. split; [exact Hp|].
    split; [exact Hs|reflexivity].
  Qed.

Lemma pairwise_renumber (R : Match -> Match -> Prop) sorted :
    (forall i j m1 m2, R m1 m2 -> R (set_match_id i m1) (set_match_id j m2)) ->
    pairwise R sorted -> pairwise R (renumber sorted).
  Proof.
    intros HR Hp i j m1 m2 Hij H1 H2. rewrite renumber_lookup in H1, H2.
    destruct (sorted !! i) as [x|] eqn:Ex; [|easy].
    destruct (sorted !! j) as [y|] eqn:Ey; [|easy].
    injection H1 as <-. injection H2 as <-. apply HR. exact (Hp i j x y Hij Ex Ey).
  Qed.
End Run.

(** C1. In every successful run of [generate_fixture], any two returned
    matches (two different positions of the returned list) in which the
    same team name plays are at least [rest] minutes apart in absolute
    time, where the absolute time of a match is (day - 1) * 1440 plus the
    minutes of its start time. *)
Theorem C1_rest_between_matches
    (h : heap) (teams : list loc) (system : string) (days fields : Z)
    (start_time end_time : string) (match_duration rest : Z)
    (midday_break : option (string * string)) (home_and_away : bool)
    (max_matches_per_day : option Z) (result : list Match) :
  (generate_fixture h teams system days fields start_time end_time match_duration
     rest midday_break home_and_away max_matches_per_day).2 = Ok result ->
  forall (i j : nat) (m1 m2 : Match) (team : string),
    i <> j -> result !! i = Some m1 -> result !! j = Some m2 ->
    plays team m1 -> plays team m2 ->
    exists a1 a2, abs_time m1 = Ok a1 /\ abs_time m2 = Ok a2 /\ rest <= Z.abs (a1 - a2).
Proof.
  intros (slots & st & sorted & _ & _ & Hinv & _ & _ & Hp & _ & ->)%generate_fixture_Ok.
  intros i j m1 m2 team Hij H1 H2.
  assert (Hpw : pairwise (rested rest) (renumber sorted)).
  { apply pairwise_renumber; [now intros ? ? [] []|].
    eapply pairwise_perm; [symmetry; exact Hp|]. apply Hinv. }
  exact (Hpw i j m1 m2 Hij H1 H2 team).
Qed.

(** C6. In every successful run of [generate_fixture] no two returned
    matches share a slot: matches at different positions of the returned
    list differ in their (day, time, field) triple. *)
Theorem C6_no_shared_slot
    (h : heap) (teams : list loc) (system : string) (days fields : Z)
    (start_time end_time : string) (match_duration rest : Z)
    (midday_break : option (string * string)) (home_and_away : bool)
    (max_matches_per_day : option Z) (result : list Match) :
  (generate_fixture h teams system days fields start_time end_time match_duration
     rest midday_break home_and_away max_matches_per_day).2 = Ok result ->
  forall (i j : nat) (m1 m2 : Match),
    i <> j -> result !! i = Some m1 -> result !! j = Some m2 ->
    (day m1, time m1, field m1) <> (day m2, time m2, field m2).
Proof.
  intros (slots & st & sorted & Hs & _ & Hinv & Hnd & _ & Hp & _ & ->)%generate_fixture_Ok.
  destruct (fixture_slots_ok _ _ _ _ _ _ _ Hs) as [Hok _].
  intros i j m1 m2 Hij H1 H2.
  assert (Hpw : pairwise (fun m1 m2 => slot_of m1 <> slot_of m2) (renumber sorted)).
  { apply pairwise_renumber; [now intros ? ? [] []|].
    eapply pairwise_perm; [symmetry; exact Hp|].
    eapply inv_distinct_slots; eauto. }
  exact (Hpw i j m1 m2 Hij H1 H2).
Qed.

(** C4. In every successful run of [generate_fixture] with N pending
    matches the returned list has N matches, is sorted by (day, minutes of
    the time of day, field name) in ascending order, field names compared
    as strings, and its match_id values are 1, 2, …, N in list order, hence
    strictly increasing along the sort order. *)
Theorem C4_sorted_and_renumbered
    (h : heap) (teams : list loc) (system : string) (days fields : Z)
    (start_time end_time : string) (match_duration rest : Z)
    (midday_break : option (string * string)) (home_and_away : bool)
    (max_matches_per_day : option Z) (result : list Match) :
  (generate_fixture h teams system days fields start_time end_time match_duration
     rest midday_break home_and_away max_matches_per_day).2 = Ok result ->
  let N := length (fixture_pending h teams system home_and_away).2 in
  length result = N
  /\ StronglySorted sorted_before result
  /\ match_id <$> result = seqZ 1 (Z.of_nat N).
Proof.
  intros (slots & st & sorted & _ & _ & _ & _ & Hlen & Hp & Hs & ->)%generate_fixture_Ok N.
  assert (El : length sorted = N).
  { unfold N. rewrite <- Hlen. now apply Permutation_length. }
  repeat split.
  - now rewrite renumber_length.
  - now apply renumber_sorted.
  - now rewrite renumber_ids, El.
Qed.

(** C2. Whenever the scheduler reaches a pending match for which every
    slot is occupied, violates the rest of its home or away team, or is on
    a day that reached the daily cap, [generate_fixture] raises the
    scheduling error; the outcome is that exception and carries no
    schedule, partial or otherwise. *)
Theorem C2_no_partial_schedule
    (h : heap) (teams : list loc) (system : string) (days fields : Z)
    (start_time end_time : string) (match_duration rest : Z)
    (midday_break : option (string * string)) (home_and_away : bool)
    (max_matches_per_day : option Z)
    (slots : list abs_slot) (pre post : list pending) (zn hm aw : string) (r : Z)
    (st : sched_state) :
  fixture_slots days fields start_time end_time match_duration midday_break = Ok slots ->
  (fixture_pending h teams system home_and_away).2 = pre ++ (zn, hm, aw, r) :: post ->
  assign_loop slots rest max_matches_per_day pre empty_state = Ok st ->
  (forall (i : nat) d ts f a, slots !! i = Some ((d, ts, f), a) ->
     occupied (schedule st) (Z.of_nat i) = true
     \/ rest_blocks (last_played st) hm a rest = true
     \/ rest_blocks (last_played st) aw a rest = true
     \/ cap_blocks (schedule st) max_matches_per_day d = true) ->
  (generate_fixture h teams system days fields start_time end_time match_duration
     rest midday_break home_and_away max_matches_per_day).2
  = Raise (RuntimeError infeasible_msg).
Proof.
  intros Hs Htodo Hpre Hblocked.
  rewrite generate_fixture_unfold, Hs, Htodo. cbn.
  rewrite assign_loop_app, Hpre. cbn.
  assert (E : slot_loop st rest max_matches_per_day (zn, hm, aw, r) (enumerate 0 slots)
              = None).
  { apply slot_loop_None. intros idx [[[d ts] f] a] (i & -> & Hi)%elem_of_enumerate.
    cbn [slot_blocked].
    destruct (Hblocked i d ts f a Hi) as [-> | [-> | [-> | ->]]];
      rewrite ?orb_true_r; reflexivity. }
  now rewrite E.
Qed.

(** C7 as stated fails: a team that never played is remembered at the
    finite time -1000000, so a rest above abs_time + 1000000 rejects the
    slot; with rest = 2000000 a single match between two fresh teams
    cannot be placed at all. *)
Lemma C7_counterexample_finite_sentinel :
  0 <= 2000000
  /\ (∅ : gmap string Z) !! "a" = None
  /\ rest_blocks ∅ "a" 540 2000000 = true
  /\ (generate_fixture four_teams [0; 1]%nat "rr" 1 1 "09:00" "18:00" 60 2000000
        None false None).2 = Raise (RuntimeError infeasible_msg).
Proof.
  split; [lia|]. split; [reflexivity|]. split; [reflexivity|].
  vm_compute. reflexivity.
Qed.

(** Only bound teams are remembered: in every state the outer loop
    reaches, a name with an entry in [last_played] is the home or the
    away side of a match bound so far. *)
Lemma assign_loop_remembered slots rest cap todo st st' :
  (forall team, is_Some (last_played st !! team) ->
     Exists (fun m => home m = team \/ away m = team) (schedule st)) ->
  assign_loop slots rest cap todo st = Ok st' ->
  forall team, is_Some (last_played st' !! team) ->
    Exists (fun m => home m = team \/ away m = team) (schedule st').
Proof.
  revert st. induction todo as [|[[[zn hm] aw] r] todo IH]; intros st Hst; cbn [assign_loop].
  { now intros [= <-]. }
  destruct (slot_loop st rest cap (zn, hm, aw, r) (enumerate 0 slots)) as [st1|] eqn:E;
    [|easy].
  apply IH. clear IH.
  apply slot_loop_Some in E as (idx & [[[d ts] f] a] & _ & _ & ->).
  cbn [bind_match schedule last_played]. intros team Hteam.
  apply Exists_app.
  destruct (decide (team = aw)) as [->|Haw]; [right; constructor; cbn; now right|].
  destruct (decide (team = hm)) as [->|Hhm]; [right; constructor; cbn; now left|].
  left. apply Hst. now rewrite !lookup_insert_ne in Hteam by congruence.
Qed.

(** C7, amended. Let the scheduler have bound the matches [done], in the
    order of the pending list, and let no match bound so far have [team]
    as its home or away side (under that name, in whatever zone).  Then
    [last_played] has no entry for the team and the rest test compares
    the slot's absolute time with the sentinel -1000000: the slot passes
    the team's rest test exactly when rest <= abs_time + 1000000.  In
    particular no rest up to 1000000 rejects a slot at a non-negative
    absolute time on account of such a team. *)
Theorem C7_unplayed_team_rest
    (slots : list abs_slot) (rest : Z) (cap : option Z) (done : list pending)
    (st : sched_state) (team : string) (abs_time : Z) :
  assign_loop slots rest cap done empty_state = Ok st ->
  Forall (fun m => home m <> team /\ away m <> team) (schedule st) ->
  last_played st !! team = None
  /\ (rest_blocks (last_played st) team abs_time rest = false
      <-> rest <= abs_time + 1000000)
  /\ (0 <= abs_time -> rest <= 1000000 ->
      rest_blocks (last_played st) team abs_time rest = false).
Proof.
  intros Hrun Hfree.
  assert (E : last_played st !! team = None).
  { destruct (last_played st !! team) as [L|] eqn:EL; [exfalso|reflexivity].
    assert (Hex : Exists (fun m => home m = team \/ away m = team) (schedule st)).
    { eapply (assign_loop_remembered slots rest cap done empty_state st);
        [|exact Hrun|rewrite EL; now eexists].
      intros t [x Hx]. cbn in Hx. now rewrite lookup_empty in Hx. }
    apply Exists_exists in Hex as (m & Hm & Hp).
    rewrite Forall_forall in Hfree. destruct (Hfree m Hm). tauto. }
  split; [exact E|].
  unfold rest_blocks, last_of. rewrite E. cbn. split; [|intros; lia].
  split; intros; lia.
Qed.

Lemma C7_unplayed_team_rest_witness :
  last_played scenario_C_state !! "c" = None
  /\ (rest_blocks (last_played scenario_C_state) "c" 600 60 = false
      <-> 60 <= 600 + 1000000)
  /\ (0 <= 600 -> 60 <= 1000000 ->
      rest_blocks (last_played scenario_C_state) "c" 600 60 = false).
Proof.
  apply (C7_unplayed_team_rest
           [((1, "09:00", "c1"), 540); ((1, "10:00", "c1"), 600)] 60 None
           [("A", "a", "b", 1)] scenario_C_state "c" 600).
  - reflexivity.
  - apply (bool_decide_unpack _). vm_compute. exact I.
Defined.

Lemma C1_rest_between_matches_witness :
  exists a1 a2,
    abs_time (mkMatch 1 "09:00" "c1" "a" "d" "A" 1 1) = Ok a1
    /\ abs_time (mkMatch 1 "11:00" "c1" "a" "c" "A" 2 3) = Ok a2
    /\ 60 <= Z.abs (a1 - a2).
Proof.
  apply (C1_rest_between_matches four_teams [0; 1; 2; 3]%nat "rr" 1 1
           "09:00" "18:00" 60 60 None false None scenario_A_schedule)
    with (i := 0%nat) (j := 2%nat) (team := "a").
  - vm_compute. reflexivity.
  - lia.
  - reflexivity.
  - reflexivity.
  - left. reflexivity.
  - left. reflexivity.
Defined.

Lemma C6_no_shared_slot_witness :
  (1, "09:00", "c1") <> (1, "10:00", "c1").
Proof.
  apply (C6_no_shared_slot four_teams [0; 1; 2; 3]%nat "rr" 1 1
           "09:00" "18:00" 60 60 None false None scenario_A_schedule)
    with (i := 0%nat) (j := 1%nat)
         (m1 := mkMatch 1 "09:00" "c1" "a" "d" "A" 1 1)
         (m2 := mkMatch 1 "10:00" "c1" "b" "c" "A" 1 2).
  - vm_compute. reflexivity.
  - lia.
  - reflexivity.
  - reflexivity.
Defined.

Lemma C4_sorted_and_renumbered_witness :
  let N := length (fixture_pending four_teams [0; 1; 2; 3]%nat "rr" false).2 in
  length scenario_A_schedule = N
  /\ StronglySorted sorted_before scenario_A_schedule
  /\ match_id <$> scenario_A_schedule = seqZ 1 (Z.of_nat N).
Proof.
  apply (C4_sorted_and_renumbered four_teams [0; 1; 2; 3]%nat "rr" 1 1
           "09:00" "18:00" 60 60 None false None scenario_A_schedule).
  vm_compute. reflexivity.
Defined.

Lemma C2_no_partial_schedule_witness :
  (generate_fixture four_teams [0; 1]%nat "rr" 1 1 "09:00" "10:00" 60 120
     None true None).2 = Raise (RuntimeError infeasible_msg).
Proof.
  apply (C2_no_partial_schedule four_teams [0; 1]%nat "rr" 1 1 "09:00" "10:00" 60 120
           None true None
           [((1, "09:00", "c1"), 540)] [("A", "a", "b", 1)] [] "A" "b" "a" 2
           scenario_C_state).
  - vm_compute. reflexivity.
  - vm_compute. reflexivity.
  - vm_compute. reflexivity.
  - intros [|i] d ts f a H; [|discriminate].
    injection H as <- <- <- <-. left. reflexivity.
Defined.

(* ===================================================================== *)
(** * Further properties of the time helpers *)
(* ===================================================================== *)

Lemma split_length sep s : length (Py.split sep s) = S (count_char sep s).
Proof.
  induction s as [|c s IH]; [reflexivity|].
  cbn [Py.split count_char]. destruct (Ascii.eqb c sep).
  - cbn [length]. rewrite IH. reflexivity.
  - destruct (Py.split sep s) as [|p ps]; [discriminate|].
    cbn [length] in *. lia.
Qed.

Lemma split_str z s : Py.str z = Some s -> Py.split ":" s = [s].
Proof.
  intros [[_ (d & _ & _ & -> & _)]|[_ (d & _ & _ & -> & _)]]%str_cases.
  - apply split_digits, uint_digits.
  - simpl. now rewrite (split_digits _ (uint_digits d)).
Qed.

(** X1. [_minutes_to_time] returns exactly when the hour, minutes // 60,
    is below 10 ^ 4300 in magnitude (at most 4300 digits), and
    [_time_to_minutes] then reads the string back as the same number of
    minutes, negative ones and hours above 99 included; for a larger hour
    the formatting raises ValueError. *)
Theorem minutes_time_round_trip (minutes : Z) :
  (Z.abs (minutes / 60) < digit_bound
   /\ exists s, _minutes_to_time minutes = Ok s /\ _time_to_minutes s = Ok minutes)
  \/ (digit_bound <= Z.abs (minutes / 60)
      /\ _minutes_to_time minutes = Raise ValueError).
Proof.
  destruct (Z_lt_le_dec (Z.abs (minutes / 60)) digit_bound) as [H|H].
  - left. split; [exact H|].
    destruct (minutes_to_time_returns minutes H) as [s Hs].
    exists s. split; [exact Hs|]. now apply time_roundtrip.
  - right. split; [exact H|]. now apply minutes_to_time_raises.
Qed.

(** X2. [_time_to_minutes] raises ValueError on every string that does
    not contain exactly one colon: the unpacking [h, m = …] needs two
    parts. *)
Theorem time_to_minutes_needs_one_colon (time_str : string) :
  count_char ":" time_str <> 1%nat ->
  _time_to_minutes time_str = Raise ValueError.
Proof.
  intros Hc. unfold _time_to_minutes.
  pose proof (split_length ":" time_str) as Hl.
  destruct (Py.split ":" time_str) as [|hs [|ms [|x rest]]]; try reflexivity.
  cbn in Hl. lia.
Qed.

Lemma time_to_minutes_needs_one_colon_witness :
  _time_to_minutes "09:30:00" = Raise ValueError.
Proof.
  apply (time_to_minutes_needs_one_colon "09:30:00"). vm_compute. lia.
Defined.

(** X3. [_time_to_minutes] does not range-check: for any two integers
    h and m that [str] prints (at most 4300 digits each), the texts
    joined by a colon read as h * 60 + m, so "25:99" and "-1:30" are
    accepted. *)
Theorem time_to_minutes_unvalidated (h m : Z) (hs ms : string) :
  Py.str h = Some hs -> Py.str m = Some ms ->
  _time_to_minutes (hs +:+ ":" +:+ ms) = Ok (h * 60 + m).
Proof.
  intros Hh Hm. unfold _time_to_minutes.
  assert (S : Py.split ":" (hs +:+ ":" +:+ ms) = [hs; ms]).
  { pose proof (split_str _ _ Hm) as Hsm.
    destruct (str_cases _ _ Hh) as [[_ (d & _ & _ & -> & _)]|[_ (d & _ & _ & -> & _)]].
    - apply (split_signed_digits false); [apply uint_digits|exact Hsm].
    - apply (split_signed_digits true); [apply uint_digits|exact Hsm]. }
  rewrite S, (str_int _ _ Hh), (str_int _ _ Hm). reflexivity.
Qed.

Lemma time_to_minutes_unvalidated_witness :
  _time_to_minutes ("-1" +:+ ":" +:+ "99") = Ok (-1 * 60 + 99).
Proof. apply (time_to_minutes_unvalidated (-1) 99 "-1" "99"); reflexivity. Defined.

(** X4. For 0 <= minutes < 6000 (hours below 100) [_minutes_to_time]
    prints exactly five characters, with the colon in the middle. *)
Theorem minutes_to_time_width (minutes : Z) :
  0 <= minutes < 6000 ->
  exists s, _minutes_to_time minutes = Ok s
            /\ String.length s = 5%nat
            /\ String.get 2 s = Some ":"%char.
Proof.
  intros Hm.
  assert (Hfmt : forall z, 0 <= z < 100 ->
            exists a b, Py.format_02d z = Some (String a (String b EmptyString))).
  { assert (Hall : Forall (fun z => (String.length <$> Py.format_02d z) = Some 2%nat)
                          (seqZ 0 100)).
    { apply (bool_decide_unpack _). vm_compute. exact I. }
    intros z Hz. rewrite Forall_seqZ in Hall. specialize (Hall z ltac:(lia)).
    destruct (Py.format_02d z) as [[|a [|b [|c s]]]|]; try discriminate. eauto. }
  unfold _minutes_to_time.
  destruct (Hfmt (minutes / 60)) as (a & b & ->).
  { split; [apply Z.div_pos; lia|apply Z.div_lt_upper_bound; lia]. }
  destruct (Hfmt (minutes mod 60)) as (c & d & ->).
  { pose proof (Z.mod_pos_bound minutes 60). lia. }
  cbn. eexists. split; [reflexivity|]. split; reflexivity.
Qed.

Lemma minutes_to_time_width_witness :
  exists s, _minutes_to_time 570 = Ok s
            /\ String.length s = 5%nat
            /\ String.get 2 s = Some ":"%char.
Proof. apply (minutes_to_time_width 570). lia. Defined.

(* ===================================================================== *)
(** * Further properties of the slot enumerator *)
(* ===================================================================== *)

Lemma field_row_at d c ts rng index s :
  _minutes_to_time c = Ok ts -> forallb Py.printable rng = true ->
  s ∈ field_row d ts rng index ->
  exists k, k ∈ rng /\ slot_at d c k s.
Proof.
  intros Ets Hp. unfold field_row. intros ([i k] & -> & Hin)%list_elem_of_fmap.
  assert (Hk : k ∈ rng).
  { rewrite <- (enumerate_snd index rng). apply list_elem_of_fmap. now exists (i, k). }
  exists k. split; [exact Hk|]. split; [reflexivity|]. split; [exact Ets|].
  exists (Py.decimal k). split; [|reflexivity].
  rewrite forallb_forall in Hp. unfold Py.str.
  now rewrite (Hp k (proj1 (list_elem_of_In _ _) Hk)).
Qed.

Lemma break_jump_None_spec brk c :
  break_jump brk c = None <-> forall bs be, brk = Some (bs, be) -> ~ (bs <= c < be).
Proof.
  unfold break_jump. destruct brk as [[bs be]|]; [|split; [intros _ ? ? [=]|easy]].
  destruct (andb _ _) eqn:E.
  - split; [easy|]. intros H. exfalso. apply (H bs be eq_refl).
    apply andb_true_iff in E. lia.
  - split; [|easy]. intros _ ? ? [= <- <-]. apply andb_false_iff in E. lia.
Qed.

Lemma break_jump_lt brk c be : break_jump brk c = Some be -> c < be.
Proof.
  unfold break_jump. destruct brk as [[bs be']|]; [|easy].
  destruct (andb _ _) eqn:E; [|easy]. intros [= <-].
  apply andb_true_iff in E. lia.
Qed.

(** Where the slots of one day lie (positive duration). *)
Lemma time_loop_located d fields end_min dur brk fuel c index slots index' :
  0 < dur ->
  time_loop fuel d fields end_min dur brk c index = Ok (slots, index') ->
  Forall (fun s => exists c' k,
            c <= c' /\ c' + dur <= end_min /\ break_jump brk c' = None
            /\ 1 <= k <= fields /\ slot_at d c' k s) slots.
Proof.
  intros Hdur. revert c index slots index'.
  induction fuel as [|fuel IH]; intros c index slots index'; [discriminate|].
  intros [(_ & -> & ->)|[(Ht & be & Hj & H)|(Ht & Hj & Hn & ts & more & Ets & E & ->)]]%time_loop_Ok.
  - constructor.
  - apply break_jump_lt in Hj as Hlt.
    eapply Forall_impl; [exact (IH _ _ _ _ H)|].
    intros s (c' & k & ? & ?). exists c', k. split; [lia|assumption].
  - apply Forall_app. split.
    + apply Forall_forall. intros s (k & Hk & Hs)%(field_row_at d c ts); [|exact Ets|exact Hn].
      apply elem_of_seqZ in Hk. exists c, k.
      split; [lia|]. split; [exact Ht|]. split; [exact Hj|]. split; [lia|exact Hs].
    + eapply Forall_impl; [exact (IH _ _ _ _ E)|].
      intros s (c' & k & ? & ?). exists c', k. split; [lia|assumption].
Qed.

Lemma slot_at_chronological d c1 c2 k1 k2 s1 s2 :
  slot_at d c1 k1 s1 -> slot_at d c2 k2 s2 -> c1 <= c2 -> chronological s1 s2.
Proof.
  intros (D1 & T1 & _) (D2 & T2 & _) Hc. right. split; [congruence|].
  exists c1, c2. rewrite (time_roundtrip _ _ T1), (time_roundtrip _ _ T2). now repeat split.
Qed.

Lemma time_loop_chronological d fields end_min dur brk fuel c index slots index' :
  0 < dur ->
  time_loop fuel d fields end_min dur brk c index = Ok (slots, index') ->
  StronglySorted chronological slots.
Proof.
  intros Hdur. revert c index slots index'.
  induction fuel as [|fuel IH]; intros c index slots index'; [discriminate|].
  intros [(_ & -> & ->)|[(Ht & be & Hj & H)|(Ht & Hj & Hn & ts & more & Ets & E & ->)]]%time_loop_Ok.
  - constructor.
  - eapply IH, H.
  - apply StronglySorted_app_2.
    + intros s1 s2 (k1 & _ & H1)%(field_row_at d c ts) H2; [|exact Ets|exact Hn].
      pose proof (time_loop_located _ _ _ _ _ _ _ _ _ _ Hdur E) as Hloc.
      rewrite Forall_forall in Hloc. destruct (Hloc _ H2) as (c' & k2 & Hc' & _ & _ & _ & Hs2).
      eapply slot_at_chronological; eauto. lia.
    + generalize (field_row d ts (seqZ 1 fields) index)
        (fun s => field_row_at d c ts (seqZ 1 fields) index s Ets Hn).
      intros row Hrow. induction row as [|s row IHrow]; constructor.
      * apply IHrow. intros s' Hs'. apply Hrow. now apply list_elem_of_further.
      * apply Forall_forall. intros s' Hs'.
        destruct (Hrow s) as (k1 & _ & H1); [apply list_elem_of_here|].
        destruct (Hrow s') as (k2 & _ & H2); [now apply list_elem_of_further|].
        eapply slot_at_chronological; eauto. lia.
    + eapply IH, E.
Qed.

Lemma day_loop_located fields start_min end_min dur brk rng index slots :
  0 < dur ->
  day_loop rng fields start_min end_min dur brk index = Ok slots ->
  Forall (fun s => exists d c k,
            d ∈ rng /\ start_min <= c /\ c + dur <= end_min
            /\ break_jump brk c = None /\ 1 <= k <= fields /\ slot_at d c k s) slots.
Proof.
  intros Hdur. revert index slots. induction rng as [|d rng IH]; intros index slots.
  - intros [= <-]. constructor.
  - intros (today & i1 & later & Et & El & ->)%day_loop_Ok.
    apply Forall_app. split.
    + eapply Forall_impl; [exact (time_loop_located _ _ _ _ _ _ _ _ _ _ Hdur Et)|].
      intros s (c & k & H1 & H2 & H3 & H4 & H5). exists d, c, k.
      split; [apply list_elem_of_here|]. split; [exact H1|]. split; [exact H2|].
      split; [exact H3|]. split; [exact H4|exact H5].
    + eapply Forall_impl; [exact (IH _ _ El)|].
      intros s (d' & c & k & ? & ?). exists d', c, k.
      split; [now apply list_elem_of_further|assumption].
Qed.

Lemma day_loop_chronological fields start_min end_min dur brk rng index slots :
  0 < dur -> StronglySorted Z.lt rng ->
  day_loop rng fields start_min end_min dur brk index = Ok slots ->
  StronglySorted chronological slots.
Proof.
  intros Hdur. revert index slots. induction rng as [|d rng IH]; intros index slots Hs.
  - intros [= <-]. constructor.
  - intros (today & i1 & later & Et & El & ->)%day_loop_Ok.
    apply StronglySorted_cons in Hs as [Hd Hs].
    apply StronglySorted_app_2.
    + intros s1 s2 H1 H2. left.
      pose proof (time_loop_day _ _ _ _ _ _ _ _ _ _ Et) as Hday.
      rewrite Forall_forall in Hday. rewrite (Hday _ H1).
      pose proof (day_loop_days _ _ _ _ _ _ _ _ El) as Hdays.
      rewrite Forall_forall in Hdays. rewrite Forall_forall in Hd.
      apply Hd, Hdays, H2.
    + eapply time_loop_chronological; eauto.
    + eapply IH; eauto.
Qed.

Lemma seqZ_strictly_sorted m n : StronglySorted Z.lt (seqZ m n).
Proof.
  destruct (Z_le_gt_dec n 0) as [Hn|Hn]; [rewrite seqZ_nil by lia; constructor|].
  rewrite <- (Z2Nat.id n) by lia. generalize (Z.to_nat n) as k. clear. intros k.
  revert m. induction k as [|k IH]; intros m; [constructor|].
  rewrite seqZ_cons by lia. replace (Z.pred (Z.of_nat (S k))) with (Z.of_nat k) by lia.
  constructor; [apply IH|]. apply Forall_seqZ. lia.
Qed.

(** X5. Every returned slot lies in the grid: its day is in 1..days, its
    field is c1..c{fields}, and its time reads back as a minute c with
    start <= c and c + match_duration <= end that is not inside the
    midday break [break_start, break_end). *)
Theorem timeslots_within_window days fields start_time end_time dur midday_break
    start_min end_min brk slots :
  _time_to_minutes start_time = Ok start_min ->
  _time_to_minutes end_time = Ok end_min ->
  parse_break midday_break = Ok brk ->
  _generate_timeslots days fields start_time end_time dur midday_break = Ok slots ->
  forall s, s ∈ slots ->
    1 <= slot_day s <= days
    /\ (exists k n, 1 <= k <= fields /\ Py.str k = Some n /\ slot_field s = "c" +:+ n)
    /\ exists c, _time_to_minutes (slot_time s) = Ok c
                 /\ start_min <= c /\ c + dur <= end_min
                 /\ forall bs be, brk = Some (bs, be) -> ~ (bs <= c < be).
Proof.
  intros E1 E2 E3. rewrite (generate_timeslots_parsed _ _ _ _ _ _ _ _ _ E1 E2 E3).
  intros E s Hs.
  destruct (Z_lt_le_dec 0 dur) as [Hdur|Hdur].
  - pose proof (day_loop_located _ _ _ _ _ _ _ _ Hdur E) as Hloc.
    rewrite Forall_forall in Hloc.
    destruct (Hloc s Hs) as (d & c & k & Hd & Hc1 & Hc2 & Hj & Hk & (D & T & n & Hn & F)).
    apply elem_of_seqZ in Hd. split; [lia|]. split; [now exists k, n|].
    exists c. rewrite (time_roundtrip _ _ T). repeat split; try assumption.
    now apply break_jump_None_spec.
  - apply day_loop_nonpositive in E; [|exact Hdur]. subst. inversion Hs.
Qed.

Lemma timeslots_within_window_witness :
  1 <= slot_day (1, "10:15", "c2", 3) <= 2
  /\ (exists k n, 1 <= k <= 2 /\ Py.str k = Some n
                  /\ slot_field (1, "10:15", "c2", 3) = "c" +:+ n)
  /\ exists c, _time_to_minutes (slot_time (1, "10:15", "c2", 3)) = Ok c
               /\ 540 <= c /\ c + 60 <= 690
               /\ forall bs be, Some (600, 615) = Some (bs, be) -> ~ (bs <= c < be).
Proof.
  apply (timeslots_within_window 2 2 "09:00" "11:30" 60 (Some ("10:00", "10:15"))
           540 690 (Some (600, 615))
           [(1, "09:00", "c1", 0); (1, "09:00", "c2", 1);
            (1, "10:15", "c1", 2); (1, "10:15", "c2", 3);
            (2, "09:00", "c1", 4); (2, "09:00", "c2", 5);
            (2, "10:15", "c1", 6); (2, "10:15", "c2", 7)]);
    try reflexivity.
  apply (bool_decide_unpack _). vm_compute. exact I.
Defined.

(** X6. With a positive match duration the returned slots are in
    chronological order, as the docstring promises: for any two positions
    i < j the slot at i is on an earlier day than the slot at j, or on the
    same day at a time of day that is not later. *)
Theorem timeslots_chronological days fields start_time end_time dur midday_break slots :
  0 < dur ->
  _generate_timeslots days fields start_time end_time dur midday_break = Ok slots ->
  StronglySorted chronological slots.
Proof.
  intros Hdur (start_min & end_min & brk & _ & _ & _ & E)%generate_timeslots_Ok.
  eapply day_loop_chronological; eauto using seqZ_strictly_sorted.
Qed.

Lemma timeslots_chronological_witness :
  StronglySorted chronological
    [(1, "09:00", "c1", 0); (1, "10:00", "c1", 1); (2, "09:00", "c1", 2);
     (2, "10:00", "c1", 3)].
Proof.
  apply (timeslots_chronological 2 1 "09:00" "11:00" 60 None); [lia|reflexivity].
Defined.

(** X7. With a match duration of 0 the enumerator never returns once a
    slot fits: if days >= 1, start <= end, the start time is not inside
    the midday break, the start hour prints (below 10 ^ 4300 in
    magnitude) and so do the field numbers, the clock of the first day
    stands still and the while loop runs forever, whatever the fuel. *)
Theorem timeslots_zero_duration_diverges
    days fields start_time end_time midday_break start_min end_min brk :
  _time_to_minutes start_time = Ok start_min ->
  _time_to_minutes end_time = Ok end_min ->
  parse_break midday_break = Ok brk ->
  1 <= days -> start_min <= end_min ->
  (forall bs be, brk = Some (bs, be) -> ~ (bs <= start_min < be)) ->
  Z.abs (start_min / 60) < digit_bound -> fields < digit_bound ->
  _generate_timeslots days fields start_time end_time 0 midday_break = Diverge
  /\ forall fuel, time_loop fuel 1 fields end_min 0 brk start_min 0 = Diverge.
Proof.
  intros E1 E2 E3 Hdays Hfit Hbrk Hh Hf.
  destruct (minutes_to_time_returns start_min Hh) as [ts Ets].
  assert (Hstuck : forall fuel, time_loop fuel 1 fields end_min 0 brk start_min 0 = Diverge).
  { intros fuel. apply (time_loop_stuck 1 fields end_min 0 brk fuel start_min 0 ts);
      [reflexivity|exact Hfit|now apply break_jump_None_spec|exact Ets|].
    now apply field_names_printable. }
  split; [|exact Hstuck].
  rewrite (generate_timeslots_parsed _ _ _ _ _ _ _ _ _ E1 E2 E3).
  rewrite seqZ_cons by lia. cbn [day_loop]. now rewrite Hstuck.
Qed.

Lemma timeslots_zero_duration_diverges_witness :
  _generate_timeslots 1 1 "09:00" "18:00" 0 None = Diverge
  /\ forall fuel, time_loop fuel 1 1 1080 0 None 540 0 = Diverge.
Proof.
  apply (timeslots_zero_duration_diverges 1 1 "09:00" "18:00" None 540 1080 None);
    try reflexivity; try lia.
  intros bs be [=].
Defined.

Lemma time_loop_no_fields d fields end_min dur brk fuel c index slots index' :
  fields <= 0 ->
  time_loop fuel d fields end_min dur brk c index = Ok (slots, index') -> slots = [].
Proof.
  intros Hf. revert c index slots index'.
  induction fuel as [|fuel IH]; intros c index slots index'; [discriminate|].
  intros [(_ & -> & ->)|[(Ht & be & Hj & H)|(Ht & Hj & Hn & ts & more & Ets & E & ->)]]%time_loop_Ok.
  - reflexivity.
  - eapply IH, H.
  - apply IH in E. subst. now rewrite seqZ_nil by lia.
Qed.

(** X8. An empty grid: with well-formed time strings, [days <= 0] gives
    the empty slot list, and so does [fields <= 0] when the match
    duration is positive and the hours of the start and end times print
    (both below 10 ^ 4300 in magnitude). *)
Theorem timeslots_empty_grid
    days fields start_time end_time dur midday_break start_min end_min brk :
  _time_to_minutes start_time = Ok start_min ->
  _time_to_minutes end_time = Ok end_min ->
  parse_break midday_break = Ok brk ->
  days <= 0
  \/ (fields <= 0 /\ 0 < dur
      /\ Z.abs (start_min / 60) < digit_bound /\ Z.abs (end_min / 60) < digit_bound) ->
  _generate_timeslots days fields start_time end_time dur midday_break = Ok [].
Proof.
  intros E1 E2 E3 H.
  rewrite (generate_timeslots_parsed _ _ _ _ _ _ _ _ _ E1 E2 E3).
  destruct H as [Hd|(Hf & Hdur & Hs & He)].
  - now rewrite seqZ_nil by lia.
  - destruct (day_loop_returns fields start_min end_min dur brk (seqZ 1 days) 0
                Hdur Hs He) as [slots E].
    { apply field_names_printable. pose proof digit_bound_large. lia. }
    rewrite E. f_equal. revert E. generalize 0. generalize (seqZ 1 days). intros rng.
    revert slots. induction rng as [|d rng IH]; intros slots index.
    + now intros [= <-].
    + intros (today & i1 & later & Et & El & ->)%day_loop_Ok.
      apply time_loop_no_fields in Et; [|exact Hf].
      apply IH in El. now subst.
Qed.

Lemma timeslots_empty_grid_witness :
  _generate_timeslots 3 0 "09:00" "18:00" 60 None = Ok [].
Proof.
  apply (timeslots_empty_grid 3 0 "09:00" "18:00" 60 None 540 1080 None);
    try reflexivity.
  right. repeat split; try lia; vm_compute; reflexivity.
Defined.

Lemma time_loop_count d fields end_min dur fuel c index slots index' :
  0 < dur ->
  time_loop fuel d fields end_min dur None c index = Ok (slots, index') ->
  Z.of_nat (length slots) = Z.max 0 ((end_min - c) / dur) * Z.max 0 fields.
Proof.
  intros Hdur. revert c index slots index'.
  induction fuel as [|fuel IH]; intros c index slots index'; [discriminate|].
  intros [(Ht & -> & ->)|[(Ht & be & Hj & H)|(Ht & Hj & Hn & ts & more & Ets & E & ->)]]%time_loop_Ok.
  - assert ((end_min - c) / dur < 1) by (apply Z.div_lt_upper_bound; lia).
    cbn [length]. lia.
  - discriminate.
  - apply IH in E.
    rewrite length_app, field_row_length, length_seqZ, Nat2Z.inj_add, E.
    replace (end_min - c) with ((end_min - (c + dur)) + 1 * dur) by lia.
    rewrite Z.div_add by lia.
    assert (0 <= (end_min - (c + dur)) / dur) by (apply Z.div_pos; lia).
    lia.
Qed.

(** X9. Without a midday break and with a positive match duration the
    number of slots is days * floor((end - start) / match_duration) *
    fields, each factor taken as 0 when negative. *)
Theorem timeslots_count
    days fields start_time end_time dur start_min end_min slots :
  0 < dur ->
  _time_to_minutes start_time = Ok start_min ->
  _time_to_minutes end_time = Ok end_min ->
  _generate_timeslots days fields start_time end_time dur None = Ok slots ->
  Z.of_nat (length slots)
  = Z.max 0 days * (Z.max 0 ((end_min - start_min) / dur) * Z.max 0 fields).
Proof.
  intros Hdur E1 E2.
  rewrite (generate_timeslots_parsed days fields start_time end_time dur None
             start_min end_min None E1 E2 eq_refl).
  intros E.
  assert (G : forall rng index slots,
             day_loop rng fields start_min end_min dur None index = Ok slots ->
             Z.of_nat (length slots)
             = Z.of_nat (length rng)
               * (Z.max 0 ((end_min - start_min) / dur) * Z.max 0 fields)).
  { clear E slots. induction rng as [|d rng IH]; intros index slots.
    - now intros [= <-].
    - intros (today & i1 & later & Et & El & ->)%day_loop_Ok.
      apply time_loop_count in Et; [|exact Hdur]. apply IH in El.
      rewrite length_app, Nat2Z.inj_add, Et, El. cbn [length]. lia. }
  rewrite (G _ _ _ E), length_seqZ. lia.
Qed.

Lemma timeslots_count_witness :
  Z.of_nat (length [(1, "09:00", "c1", 0); (1, "10:00", "c1", 1);
                    (2, "09:00", "c1", 2); (2, "10:00", "c1", 3)])
  = Z.max 0 2 * (Z.max 0 ((690 - 540) / 60) * Z.max 0 1).
Proof.
  apply (timeslots_count 2 1 "09:00" "11:30" 60 540 690); [lia|reflexivity..].
Defined.

(** X10. [generate_timeslots_list] returns one dictionary per raw slot
    and the "index" field of the dictionary at position i is i, so the
    index identifies the dictionary in the list. *)
Theorem timeslots_list_index
    days fields start_time end_time dur midday_break (entries : list SlotEntry) :
  generate_timeslots_list days fields start_time end_time dur midday_break = Ok entries ->
  exists slots,
    _generate_timeslots days fields start_time end_time dur midday_break = Ok slots
    /\ length entries = length slots
    /\ forall (i : nat) e, entries !! i = Some e ->
         s_index e = Z.of_nat i
         /\ slots !! i = Some (s_day e, s_time e, s_field e, s_index e).
Proof.
  unfold generate_timeslots_list.
  destruct (_generate_timeslots _ _ _ _ _ _) as [slots| |] eqn:E; cbn; [|easy..].
  intros [= <-]. exists slots. split; [reflexivity|]. split; [apply length_fmap|].
  intros i e Hi. apply list_lookup_fmap_Some in Hi as ([[[d t] f] idx] & -> & Es).
  cbn. split; [|exact Es].
  destruct (generate_timeslots_ok _ _ _ _ _ _ _ E) as (Hc & _ & _).
  unfold consecutive_from in Hc.
  assert (Hidx : (slot_index <$> slots) !! i = Some idx).
  { apply list_lookup_fmap_Some. now exists (d, t, f, idx). }
  rewrite Hc in Hidx. apply lookup_seqZ in Hidx. lia.
Qed.

Lemma timeslots_list_index_witness :
  exists slots,
    _generate_timeslots 1 2 "09:00" "10:00" 60 None = Ok slots
    /\ length [mkSlotEntry 1 "09:00" "c1" 0; mkSlotEntry 1 "09:00" "c2" 1] = length slots
    /\ forall (i : nat) e,
         [mkSlotEntry 1 "09:00" "c1" 0; mkSlotEntry 1 "09:00" "c2" 1] !! i = Some e ->
         s_index e = Z.of_nat i
         /\ slots !! i = Some (s_day e, s_time e, s_field e, s_index e).
Proof.
  apply (timeslots_list_index 1 2 "09:00" "10:00" 60 None). reflexivity.
Defined.

(* ===================================================================== *)
(** * Further properties of the zone assigner *)
(* ===================================================================== *)

Lemma forallb_false_witness h teams :
  (exists t, t ∈ teams /\ zone (team_at h t) = "") ->
  forallb (fun t => Py.truthy (zone (team_at h t))) teams = false.
Proof.
  intros (t & Hin & Hz). apply not_true_is_false. intros Hall.
  rewrite forallb_forall in Hall. specialize (Hall t).
  rewrite Hz in Hall. discriminate Hall. now apply list_elem_of_In.
Qed.

(** X11. [assign_zones] returns the list it was given, never changes a
    team's name, neither creates nor removes a team object, and leaves
    every object that is not in the list exactly as it was. *)
Theorem assign_zones_frame (h : heap) (teams : list loc) (system : string) (t : loc) :
  (assign_zones h teams system).2 = teams
  /\ name <$> (assign_zones h teams system).1 !! t = name <$> h !! t
  /\ (t ∉ teams -> (assign_zones h teams system).1 !! t = h !! t).
Proof.
  rewrite assign_zones_plan. destruct (forallb _ teams); cbn [fst snd].
  { repeat split. }
  split; [reflexivity|]. rewrite apply_plan_lookup. split.
  - destruct (last_assign _ t); [|reflexivity]. now destruct (h !! t).
  - intros Hnot.
    assert (E : last_assign (zone_plan teams system) t = None).
    { apply last_assign_None. now rewrite zone_plan_fst. }
    now rewrite E.
Qed.

Lemma assign_zones_frame_witness :
  (assign_zones four_teams [0%nat; 1%nat] "rr").1 !! 2%nat = four_teams !! 2%nat.
Proof.
  destruct (assign_zones_frame four_teams [0%nat; 1%nat] "rr" 2%nat) as (_ & _ & H).
  apply H. apply (bool_decide_unpack _). vm_compute. exact I.
Defined.

(** X12. The fallback overwrites: when some listed team has an empty zone
    and the lower-cased system is not 8x3 or 4x6 with exactly 24 teams,
    every listed team ends in zone 'A', also the teams that carried
    another zone before the call. *)
Theorem assign_zones_fallback_overwrites
    (h : heap) (teams : list loc) (system : string) (t : loc) (T : Team) :
  (exists t0, t0 ∈ teams /\ zone (team_at h t0) = "") ->
  length teams <> 24%nat \/ (Py.lower system <> "8x3" /\ Py.lower system <> "4x6") ->
  t ∈ teams -> h !! t = Some T ->
  (assign_zones h teams system).1 !! t = Some (mkTeam (name T) "A").
Proof.
  intros Hempty Hsys Hin Ht.
  rewrite assign_zones_plan, (forallb_false_witness _ _ Hempty). cbn [fst].
  rewrite apply_plan_lookup.
  assert (Eg : group_size_of (Py.lower system) (length teams) = None).
  { unfold group_size_of. destruct Hsys as [Hn|[H3 H6]].
    - rewrite (bool_decide_false (length teams = 24%nat)) by exact Hn.
      now rewrite !andb_false_r.
    - now rewrite (bool_decide_false _ H3), (bool_decide_false _ H6). }
  assert (Hplan : zone_plan teams system = (fun t => (t, "A")) <$> teams).
  { unfold zone_plan. now rewrite Eg. }
  destruct (last_assign_elem (zone_plan teams system) t) as (z & -> & Hz).
  { now rewrite zone_plan_fst. }
  rewrite Hplan in Hz. apply list_elem_of_fmap in Hz as (t' & [= _ ->] & _).
  now rewrite Ht.
Qed.

Lemma assign_zones_fallback_overwrites_witness :
  (assign_zones (<[0%nat := mkTeam "x" ""]> (<[1%nat := mkTeam "y" "B"]> ∅))
     [0%nat; 1%nat] "rr").1 !! 1%nat = Some (mkTeam (name (mkTeam "y" "B")) "A").
Proof.
  apply (assign_zones_fallback_overwrites
           (<[0%nat := mkTeam "x" ""]> (<[1%nat := mkTeam "y" "B"]> ∅))
           [0%nat; 1%nat] "rr" 1%nat (mkTeam "y" "B")).
  - exists 0%nat. split; [apply list_elem_of_here|reflexivity].
  - left. cbn. lia.
  - apply list_elem_of_further, list_elem_of_here.
  - reflexivity.
Defined.

Lemma lower_char_idempotent c : Py.lower_char (Py.lower_char c) = Py.lower_char c.
Proof. destruct c as [[] [] [] [] [] [] [] []]; reflexivity. Qed.

Lemma lower_idempotent s : Py.lower (Py.lower s) = Py.lower s.
Proof.
  induction s as [|c s IH]; [reflexivity|].
  cbn [Py.lower]. now rewrite lower_char_idempotent, IH.
Qed.

(** X13. The system code is case-insensitive: [assign_zones] gives the
    same heap and list for a system string and for its lower-case form. *)
Theorem assign_zones_case_insensitive (h : heap) (teams : list loc) (system : string) :
  assign_zones h teams system = assign_zones h teams (Py.lower system).
Proof.
  rewrite !assign_zones_plan. destruct (forallb _ teams); [reflexivity|].
  unfold zone_plan. now rewrite lower_idempotent.
Qed.

Lemma zone_plan_grouped_lookup teams system g (i : nat) t :
  length teams = 24%nat ->
  (Py.lower system = "8x3" /\ g = 3%nat) \/ (Py.lower system = "4x6" /\ g = 6%nat) ->
  teams !! i = Some t ->
  zone_plan teams system !! i = Some (t, Py.chr_from_A (i / g)).
Proof.
  intros Hlen Hsys Hi. unfold zone_plan. rewrite Hlen.
  apply lookup_lt_Some in Hi as Hlt. rewrite Hlen in Hlt.
  destruct Hsys as [[-> ->]|[-> ->]].
  - change (group_size_of "8x3" 24) with (Some 3).
    cbn iota. rewrite list_lookup_fmap, enumerate_lookup, Hi.
    cbn [fmap option_fmap option_map]. f_equal. f_equal.
    change (Z.to_nat (Z.of_nat 24 / 3)) with 8%nat.
    replace (Z.to_nat ((0 + Z.of_nat i) / 3)) with (i / 3)%nat.
    2:{ rewrite Z.add_0_l. change 3 with (Z.of_nat 3). rewrite <- Nat2Z.inj_div. lia. }
    assert (Hk : (i / 3 < 8)%nat) by (apply Nat.Div0.div_lt_upper_bound; lia).
    now rewrite list_lookup_total_alt, list_lookup_fmap, lookup_seq_lt by exact Hk.
  - change (group_size_of "4x6" 24) with (Some 6).
    cbn iota. rewrite list_lookup_fmap, enumerate_lookup, Hi.
    cbn [fmap option_fmap option_map]. f_equal. f_equal.
    change (Z.to_nat (Z.of_nat 24 / 6)) with 4%nat.
    replace (Z.to_nat ((0 + Z.of_nat i) / 6)) with (i / 6)%nat.
    2:{ rewrite Z.add_0_l. change 6 with (Z.of_nat 6). rewrite <- Nat2Z.inj_div. lia. }
    assert (Hk : (i / 6 < 4)%nat) by (apply Nat.Div0.div_lt_upper_bound; lia).
    now rewrite list_lookup_total_alt, list_lookup_fmap, lookup_seq_lt by exact Hk.
Qed.

(** X14. The grouped systems: for 24 distinct teams of which at least one
    has an empty zone, a system that lower-cases to "8x3" (group size 3)
    or "4x6" (group size 6) puts the team at position i in zone
    chr('A' + i // group size) and keeps its name; zones that teams
    carried before are overwritten. *)
Theorem assign_zones_grouped
    (h : heap) (teams : list loc) (system : string) (g : nat) (i : nat)
    (t : loc) (T : Team) :
  length teams = 24%nat -> NoDup teams ->
  (exists t0, t0 ∈ teams /\ zone (team_at h t0) = "") ->
  (Py.lower system = "8x3" /\ g = 3%nat) \/ (Py.lower system = "4x6" /\ g = 6%nat) ->
  teams !! i = Some t -> h !! t = Some T ->
  (assign_zones h teams system).1 !! t
  = Some (mkTeam (name T) (Py.chr_from_A (i / g))).
Proof.
  intros Hlen Hnd Hempty Hsys Hi Ht.
  rewrite assign_zones_plan, (forallb_false_witness _ _ Hempty). cbn [fst].
  rewrite apply_plan_lookup.
  rewrite (last_assign_NoDup _ t (Py.chr_from_A (i / g))).
  - now rewrite Ht.
  - now rewrite zone_plan_fst.
  - eapply list_elem_of_lookup_2, zone_plan_grouped_lookup; eauto.
Qed.

Lemma assign_zones_grouped_witness :
  (assign_zones league24 (seq 0 24) "4X6").1 !! 13%nat
  = Some (mkTeam (name (mkTeam "T13" "")) (Py.chr_from_A (13 / 6))).
Proof.
  apply (assign_zones_grouped league24 (seq 0 24) "4X6" 6 13 13%nat (mkTeam "T13" "")).
  - reflexivity.
  - apply NoDup_seq.
  - exists 0%nat. split; [|reflexivity]. apply elem_of_seq. lia.
  - right. split; reflexivity.
  - reflexivity.
  - reflexivity.
Defined.

(* ===================================================================== *)
(** * Further properties of the scheduler *)
(* ===================================================================== *)

(** X15. The inner loop is greedy: the slot it binds a match to is the
    first one, in index order, that passes the occupancy, rest and daily
    cap tests; every slot before it fails one of them. *)
Theorem slot_loop_first_feasible
    (st : sched_state) (rest : Z) (cap : option Z) (zn hm aw : string) (r : Z)
    (slots : list abs_slot) (st' : sched_state) :
  slot_loop st rest cap (zn, hm, aw, r) (enumerate 0 slots) = Some st' ->
  exists (i : nat) s,
    slots !! i = Some s
    /\ slot_blocked st rest cap hm aw (Z.of_nat i) s = false
    /\ (forall (j : nat) s', (j < i)%nat -> slots !! j = Some s' ->
          slot_blocked st rest cap hm aw (Z.of_nat j) s' = true)
    /\ st' = bind_match st (zn, hm, aw, r) (Z.of_nat i) s.
Proof.
  assert (G : forall start cands,
    slot_loop st rest cap (zn, hm, aw, r) (enumerate start cands) = Some st' ->
    exists (i : nat) s,
      cands !! i = Some s
      /\ slot_blocked st rest cap hm aw (start + Z.of_nat i) s = false
      /\ (forall (j : nat) s', (j < i)%nat -> cands !! j = Some s' ->
            slot_blocked st rest cap hm aw (start + Z.of_nat j) s' = true)
      /\ st' = bind_match st (zn, hm, aw, r) (start + Z.of_nat i) s).
  { intros start cands. revert start.
    induction cands as [|s cands IH]; intros start; cbn [enumerate slot_loop]; [easy|].
    destruct (slot_blocked st rest cap hm aw start s) eqn:E.
    - intros H. destruct (IH _ H) as (i & s0 & Hi & Hb & Hprev & ->).
      exists (S i), s0. split; [exact Hi|].
      replace (start + Z.of_nat (S i)) with (start + 1 + Z.of_nat i) by lia.
      split; [exact Hb|]. split; [|reflexivity].
      intros [|j] s' Hj Hs'.
      + injection Hs' as <-. now rewrite Z.add_0_r.
      + replace (start + Z.of_nat (S j)) with (start + 1 + Z.of_nat j) by lia.
        apply (Hprev j s'); [lia|exact Hs'].
    - intros [= <-]. exists 0%nat, s. rewrite Z.add_0_r.
      split; [reflexivity|]. split; [exact E|]. split; [|reflexivity]. intros j s' Hj. lia. }
  intros H. destruct (G 0 slots H) as (i & s & Hi & Hb & Hprev & ->).
  exists i, s. rewrite Z.add_0_l in *. split; [exact Hi|]. split; [exact Hb|].
  split; [|reflexivity]. intros j s' Hj Hs'. rewrite <- (Hprev j s' Hj Hs'). f_equal.
Qed.

Lemma slot_loop_first_feasible_witness :
  exists (i : nat) s,
    [((1, "09:00", "c1"), 540); ((1, "10:00", "c1"), 600); ((1, "11:00", "c1"), 660)] !! i
    = Some s
    /\ slot_blocked scenario_C_state 60 None "b" "a" (Z.of_nat i) s = false
    /\ (forall (j : nat) s', (j < i)%nat ->
          [((1, "09:00", "c1"), 540); ((1, "10:00", "c1"), 600); ((1, "11:00", "c1"), 660)]
            !! j = Some s' ->
          slot_blocked scenario_C_state 60 None "b" "a" (Z.of_nat j) s' = true)
    /\ bind_match scenario_C_state ("A", "b", "a", 2) 1 ((1, "10:00", "c1"), 600)
       = bind_match scenario_C_state ("A", "b", "a", 2) (Z.of_nat i) s.
Proof.
  apply (slot_loop_first_feasible scenario_C_state 60 None "A" "b" "a" 2
           [((1, "09:00", "c1"), 540); ((1, "10:00", "c1"), 600); ((1, "11:00", "c1"), 660)]).
  reflexivity.
Defined.

Section Bookkeeping.
Variables (slots : list abs_slot) (rest : Z) (cap : option Z).

Lemma schedule_bind st p idx s :
    pending_of <$> schedule (bind_match st p idx s) = (pending_of <$> schedule st) ++ [p].
  Proof.
    destruct p as [[[zn hm] aw] r], s as [[[d ts] f] a]. cbn [bind_match schedule].
    now rewrite fmap_app.
  Qed.

  (** The loop appends one bound match per pending match, in order. *)
Lemma assign_loop_pending todo st st' :
    assign_loop slots rest cap todo st = Ok st' ->
    pending_of <$> schedule st' = (pending_of <$> schedule st) ++ todo.
  Proof.
    revert st. induction todo as [|[[[zn hm] aw] r] todo IH]; intros st.
    - intros [= <-]. now rewrite app_nil_r.
    - cbn [assign_loop].
      destruct (slot_loop st rest cap (zn, hm, aw, r) (enumerate 0 slots)) as [st1|] eqn:E;
        [|easy].
      apply slot_loop_Some in E as (idx & s & _ & _ & ->).
      intros H. rewrite (IH _ H), schedule_bind, <- app_assoc. reflexivity.
  Qed.

Lemma day_matches_snoc sched m d :
    day_matches (sched ++ [m]) d
    = day_matches sched d + (if decide (day m = d) then 1 else 0).
  Proof.
    unfold day_matches. rewrite filter_app, length_app, Nat2Z.inj_add.
    rewrite filter_cons, filter_nil. now destruct (decide (day m = d)).
  Qed.

Lemma assign_loop_cap c todo st st' :
    cap = Some c ->
    (forall d, day_matches (schedule st) d <= Z.max 0 c) ->
    assign_loop slots rest cap todo st = Ok st' ->
    forall d, day_matches (schedule st') d <= Z.max 0 c.
  Proof.
    intros ->. revert st. induction todo as [|[[[zn hm] aw] r] todo IH]; intros st Hst.
    - now intros [= <-].
    - cbn [assign_loop].
      destruct (slot_loop st rest (Some c) (zn, hm, aw, r) (enumerate 0 slots))
        as [st1|] eqn:E; [|easy].
      apply slot_loop_Some in E as (idx & [[[d0 ts] f] a] & _ & Hb & ->).
      apply IH. intros d. cbn [bind_match schedule]. rewrite day_matches_snoc.
      cbn [slot_blocked] in Hb. apply orb_false_iff in Hb as [_ Hcap].
      cbn [cap_blocks] in Hcap. cbn [day]. specialize (Hst d).
      destruct (decide (d0 = d)) as [->|]; lia.
  Qed.
End Bookkeeping.

Lemma pending_of_renumber sorted : pending_of <$> renumber sorted = pending_of <$> sorted.
Proof.
  unfold renumber. rewrite <- (enumerate_snd 1 sorted) at 2.
  rewrite <- !list_fmap_compose. apply list_fmap_ext. now intros ? [idx m].
Qed.

Lemma day_matches_renumber sorted d : day_matches (renumber sorted) d = day_matches sorted d.
Proof.
  unfold day_matches, renumber. generalize 1 as start. intros start. revert start.
  induction sorted as [|m l IH]; intros start; [reflexivity|].
  cbn [enumerate fmap list_fmap]. rewrite !filter_cons. cbn [set_match_id day].
  specialize (IH (start + 1)).
  destruct (decide (day m = d)); cbn [length]; lia.
Qed.

Lemma day_matches_perm l l' d : l ≡ₚ l' -> day_matches l d = day_matches l' d.
Proof. intros Hp. unfold day_matches. now rewrite Hp. Qed.

Lemma scheduled_pending_perm
    (h : heap) (teams : list loc) (system : string) (days fields : Z)
    (start_time end_time : string) (match_duration rest : Z)
    (midday_break : option (string * string)) (home_and_away : bool)
    (max_matches_per_day : option Z) (result : list Match) :
  (generate_fixture h teams system days fields start_time end_time match_duration
     rest midday_break home_and_away max_matches_per_day).2 = Ok result ->
  pending_of <$> result ≡ₚ (fixture_pending h teams system home_and_away).2.
Proof.
  intros (slots & st & sorted & _ & Ha & _ & _ & _ & Hp & _ & ->)%generate_fixture_Ok.
  rewrite pending_of_renumber, Hp.
  apply assign_loop_pending in Ha. now rewrite Ha.
Qed.

(** X16. In a successful run every pending match is scheduled exactly
    once and nothing else is: the (zone, home, away, round) tuples of the
    returned matches are a permutation of the pending list. *)
Theorem fixture_schedules_every_pending_match
    (h : heap) (teams : list loc) (system : string) (days fields : Z)
    (start_time end_time : string) (match_duration rest : Z)
    (midday_break : option (string * string)) (home_and_away : bool)
    (max_matches_per_day : option Z) (result : list Match) :
  (generate_fixture h teams system days fields start_time end_time match_duration
     rest midday_break home_and_away max_matches_per_day).2 = Ok result ->
  pending_of <$> result ≡ₚ (fixture_pending h teams system home_and_away).2.
Proof.
  exact (scheduled_pending_perm h teams system days fields start_time end_time
           match_duration rest midday_break home_and_away max_matches_per_day result).
Qed.

Lemma fixture_schedules_every_pending_match_witness :
  pending_of <$> scenario_A_schedule
  ≡ₚ (fixture_pending four_teams [0; 1; 2; 3]%nat "rr" false).2.
Proof.
  apply (fixture_schedules_every_pending_match four_teams [0; 1; 2; 3]%nat "rr" 1 1
           "09:00" "18:00" 60 60 None false None scenario_A_schedule).
  vm_compute. reflexivity.
Defined.

(** X17. The daily cap is respected: in a successful run with
    max_matches_per_day = c no day holds more than c returned matches
    (none at all when c <= 0). *)
Theorem fixture_respects_daily_cap
    (h : heap) (teams : list loc) (system : string) (days fields : Z)
    (start_time end_time : string) (match_duration rest : Z)
    (midday_break : option (string * string)) (home_and_away : bool)
    (c : Z) (result : list Match) (d : Z) :
  (generate_fixture h teams system days fields start_time end_time match_duration
     rest midday_break home_and_away (Some c)).2 = Ok result ->
  day_matches result d <= Z.max 0 c.
Proof.
  intros (slots & st & sorted & _ & Ha & _ & _ & _ & Hp & _ & ->)%generate_fixture_Ok.
  rewrite day_matches_renumber, (day_matches_perm _ _ d Hp).
  eapply (assign_loop_cap slots rest (Some c) c); [reflexivity| |exact Ha].
  intros d'. change (day_matches (schedule empty_state) d') with 0. lia.
Qed.

Lemma fixture_respects_daily_cap_witness :
  day_matches
    [mkMatch 1 "09:00" "c1" "a" "b" "A" 1 1; mkMatch 2 "09:00" "c1" "b" "a" "A" 2 2] 1
  <= Z.max 0 1.
Proof.
  apply (fixture_respects_daily_cap four_teams [0; 1]%nat "rr" 2 1
           "09:00" "18:00" 60 60 None true 1).
  vm_compute. reflexivity.
Defined.

Lemma to_absolute_key s a : to_absolute s = Ok a -> a.1 = slot_key s.
Proof.
  destruct s as [[[d t] f] idx]. cbn.
  destruct (_time_to_minutes t); cbn; [|easy..]. now intros [= <-].
Qed.

Lemma fixture_slots_keys days fields start_time end_time dur midday_break slots :
  fixture_slots days fields start_time end_time dur midday_break = Ok slots ->
  exists ts,
    _generate_timeslots days fields start_time end_time dur midday_break = Ok ts
    /\ slots.*1 = slot_key <$> ts.
Proof.
  unfold fixture_slots.
  destruct (_generate_timeslots _ _ _ _ _ _) as [ts| |] eqn:E; cbn; [|easy..].
  destruct (generate_timeslots_ok _ _ _ _ _ _ _ E) as (_ & _ & ->).
  intros Ht. exists ts. split; [reflexivity|]. apply traverse_Ok in Ht.
  clear E. induction Ht as [|s a ts slots Hs _ IH]; [reflexivity|].
  cbn [fmap list_fmap]. rewrite IH. f_equal. now apply to_absolute_key.
Qed.

(** The time strings of the slot list were printed by [_minutes_to_time],
    so reading them back for [timeslot_absolute] cannot fail. *)
Lemma fixture_slots_total days fields start_time end_time dur midday_break ts :
  _generate_timeslots days fields start_time end_time dur midday_break = Ok ts ->
  exists slots, fixture_slots days fields start_time end_time dur midday_break = Ok slots.
Proof.
  intros E. unfold fixture_slots. rewrite E. cbn.
  destruct (generate_timeslots_ok _ _ _ _ _ _ _ E) as (_ & _ & ->).
  apply traverse_total.
  eapply Forall_impl; [exact (generate_timeslots_printed _ _ _ _ _ _ _ E)|].
  intros [[[d t] f] idx] [c Hc]. cbn in Hc. cbn.
  rewrite (time_roundtrip _ _ Hc). cbn. now eexists.
Qed.

(** X18. In a successful run every returned match sits on a slot of the
    enumerated grid: its (day, time, field) is that of a tuple returned by
    [_generate_timeslots] for the same configuration. *)
Theorem fixture_matches_on_grid
    (h : heap) (teams : list loc) (system : string) (days fields : Z)
    (start_time end_time : string) (match_duration rest : Z)
    (midday_break : option (string * string)) (home_and_away : bool)
    (max_matches_per_day : option Z) (result : list Match) (m : Match) :
  (generate_fixture h teams system days fields start_time end_time match_duration
     rest midday_break home_and_away max_matches_per_day).2 = Ok result ->
  m ∈ result ->
  exists ts idx,
    _generate_timeslots days fields start_time end_time match_duration midday_break = Ok ts
    /\ (day m, time m, field m, idx) ∈ ts.
Proof.
  intros (slots & st & sorted & Hs & _ & Hinv & _ & _ & Hp & _ & ->)%generate_fixture_Ok Hm.
  destruct (fixture_slots_keys _ _ _ _ _ _ _ Hs) as (ts & Hts & Hkeys).
  exists ts.
  apply list_elem_of_lookup in Hm as [i Hi]. rewrite renumber_lookup in Hi.
  destruct (sorted !! i) as [m0|] eqn:E0; [|discriminate]. injection Hi as <-.
  assert (Hin : m0 ∈ schedule st).
  { rewrite <- Hp. eapply list_elem_of_lookup_2, E0. }
  destruct Hinv as [_ Hsl _ _]. rewrite Forall_forall in Hsl.
  destruct (Hsl m0 Hin) as (j & a & _ & Hj).
  assert (Hk : slots.*1 !! j = Some (slot_of m0)).
  { apply list_lookup_fmap_Some. now exists (slot_of m0, a). }
  rewrite Hkeys in Hk. apply list_lookup_fmap_Some in Hk as ([[[d t] f] idx] & Hk & Hts').
  exists idx. split; [exact Hts|]. cbn in Hk. unfold slot_of in Hk. cbn.
  injection Hk as -> -> ->. eapply list_elem_of_lookup_2, Hts'.
Qed.

Lemma fixture_matches_on_grid_witness :
  exists ts idx,
    _generate_timeslots 1 1 "09:00" "18:00" 60 None = Ok ts
    /\ (1, "11:00", "c1", idx) ∈ ts.
Proof.
  apply (fixture_matches_on_grid four_teams [0; 1; 2; 3]%nat "rr" 1 1
           "09:00" "18:00" 60 60 None false None scenario_A_schedule
           (mkMatch 1 "11:00" "c1" "a" "c" "A" 2 3)).
  - vm_compute. reflexivity.
  - unfold scenario_A_schedule. do 2 apply list_elem_of_further. apply list_elem_of_here.
Defined.

Lemma assign_loop_outcomes slots rest cap todo st :
  (exists st', assign_loop slots rest cap todo st = Ok st')
  \/ assign_loop slots rest cap todo st = Raise (RuntimeError infeasible_msg).
Proof.
  revert st. induction todo as [|p todo IH]; intros st; cbn [assign_loop].
  - left. now eexists.
  - destruct (slot_loop st rest cap p (enumerate 0 slots)); [apply IH|now right].
Qed.

Lemma finalize_total slots rest st :
  Forall slot_entry_ok slots -> sched_inv slots rest st ->
  exists result, finalize (schedule st) = Ok result.
Proof.
  intros Hok [_ Hsl _ _]. unfold finalize.
  destruct (traverse_total sort_key (schedule st)) as [keys ->]; [|cbn; now eexists].
  rewrite Forall_forall in Hsl. rewrite Forall_forall in Hok.
  apply Forall_forall. intros m Hm.
  destruct (Hsl m Hm) as (i & a & _ & Hi).
  destruct (Hok (slot_of m, a)) as (t & Ht & _); [eapply list_elem_of_lookup_2, Hi|].
  cbn in Ht. unfold sort_key. rewrite Ht. cbn. now eexists.
Qed.

(** X19. With well-formed time strings, a positive match duration, start
    and end hours that print (below 10 ^ 4300 in magnitude) and a number
    of fields below that bound, a run of [generate_fixture] either
    returns a schedule or raises the scheduling-infeasibility
    RuntimeError: it does not diverge, and the times it printed itself
    never make it raise ValueError. *)
Theorem fixture_outcomes
    (h : heap) (teams : list loc) (system : string) (days fields : Z)
    (start_time end_time : string) (match_duration rest : Z)
    (midday_break : option (string * string)) (home_and_away : bool)
    (max_matches_per_day : option Z) (start_min end_min : Z) (brk : option (Z * Z)) :
  _time_to_minutes start_time = Ok start_min ->
  _time_to_minutes end_time = Ok end_min ->
  parse_break midday_break = Ok brk ->
  0 < match_duration ->
  Z.abs (start_min / 60) < digit_bound -> Z.abs (end_min / 60) < digit_bound ->
  fields < digit_bound ->
  (exists result,
      (generate_fixture h teams system days fields start_time end_time match_duration
         rest midday_break home_and_away max_matches_per_day).2 = Ok result)
  \/ (generate_fixture h teams system days fields start_time end_time match_duration
        rest midday_break home_and_away max_matches_per_day).2
     = Raise (RuntimeError infeasible_msg).
Proof.
  intros E1 E2 E3 Hdur Hs0 He0 Hf. rewrite generate_fixture_unfold.
  destruct (generate_timeslots_returns days fields start_time end_time match_duration
              midday_break start_min end_min brk Hdur E1 E2 E3 Hs0 He0 Hf) as [ts Hts].
  destruct (fixture_slots_total _ _ _ _ _ _ _ Hts) as [slots Hs].
  rewrite Hs. cbn.
  destruct (fixture_slots_ok _ _ _ _ _ _ _ Hs) as [Hok _].
  destruct (assign_loop_outcomes slots rest max_matches_per_day
              (fixture_pending h teams system home_and_away).2 empty_state)
    as [[st Hst]| ->]; [|now right].
  rewrite Hst. cbn. left.
  destruct (assign_loop_inv slots rest max_matches_per_day Hok _ _ _
              (inv_empty slots rest) Hst) as [Hinv _].
  exact (finalize_total slots rest st Hok Hinv).
Qed.

Lemma fixture_outcomes_witness :
  (exists result,
      (generate_fixture four_teams [0; 1]%nat "rr" 1 1 "09:00" "10:00" 60 120
         None true None).2 = Ok result)
  \/ (generate_fixture four_teams [0; 1]%nat "rr" 1 1 "09:00" "10:00" 60 120
        None true None).2 = Raise (RuntimeError infeasible_msg).
Proof.
  apply (fixture_outcomes four_teams [0; 1]%nat "rr" 1 1 "09:00" "10:00" 60 120
           None true None 540 600 None); reflexivity.
Defined.

(** X20. The empty team list: with well-formed time strings, a positive
    match duration, start and end hours that print and a number of
    fields below 10 ^ 4300, [generate_fixture] returns the empty schedule
    and leaves the heap as it was. *)
Theorem fixture_no_teams
    (h : heap) (system : string) (days fields : Z)
    (start_time end_time : string) (match_duration rest : Z)
    (midday_break : option (string * string)) (home_and_away : bool)
    (max_matches_per_day : option Z) (start_min end_min : Z) (brk : option (Z * Z)) :
  _time_to_minutes start_time = Ok start_min ->
  _time_to_minutes end_time = Ok end_min ->
  parse_break midday_break = Ok brk ->
  0 < match_duration ->
  Z.abs (start_min / 60) < digit_bound -> Z.abs (end_min / 60) < digit_bound ->
  fields < digit_bound ->
  generate_fixture h [] system days fields start_time end_time match_duration
    rest midday_break home_and_away max_matches_per_day = (h, Ok []).
Proof.
  intros E1 E2 E3 Hdur Hs0 He0 Hf.
  destruct (generate_timeslots_returns days fields start_time end_time match_duration
              midday_break start_min end_min brk Hdur E1 E2 E3 Hs0 He0 Hf) as [ts Hts].
  destruct (fixture_slots_total _ _ _ _ _ _ _ Hts) as [slots Hs].
  unfold generate_fixture. cbn [fixture_pending assign_zones forallb group_by_zone foldl
    all_zone_matches fmap list_fmap concat]. now rewrite Hs.
Qed.

Lemma fixture_no_teams_witness :
  generate_fixture four_teams [] "8x3" 2 2 "09:00" "18:00" 60 60
    (Some ("12:00", "13:00")) true (Some 4) = (four_teams, Ok []).
Proof.
  apply (fixture_no_teams four_teams "8x3" 2 2 "09:00" "18:00" 60 60
           (Some ("12:00", "13:00")) true (Some 4) 540 1080 (Some (720, 780)));
    reflexivity.
Defined.

(** X27. With a positive match duration every run of [generate_fixture]
    ends, in one of three ways: it returns a schedule, it raises the
    scheduling-infeasibility RuntimeError, or it raises ValueError (a
    malformed time string, or a number beyond the digit limit while the
    slots are enumerated). *)
Theorem fixture_terminates
    (h : heap) (teams : list loc) (system : string) (days fields : Z)
    (start_time end_time : string) (match_duration rest : Z)
    (midday_break : option (string * string)) (home_and_away : bool)
    (max_matches_per_day : option Z) :
  0 < match_duration ->
  (exists result,
      (generate_fixture h teams system days fields start_time end_time match_duration
         rest midday_break home_and_away max_matches_per_day).2 = Ok result)
  \/ (generate_fixture h teams system days fields start_time end_time match_duration
        rest midday_break home_and_away max_matches_per_day).2
     = Raise (RuntimeError infeasible_msg)
  \/ (generate_fixture h teams system days fields start_time end_time match_duration
        rest midday_break home_and_away max_matches_per_day).2
     = Raise ValueError.
Proof.
  intros Hdur. rewrite generate_fixture_unfold.
  destruct (generate_timeslots_spec days fields start_time end_time match_duration
              midday_break Hdur) as [Hterm _].
  destruct (_generate_timeslots days fields start_time end_time match_duration
              midday_break) as [ts|e|] eqn:Hts; [| |easy].
  - destruct (fixture_slots_total _ _ _ _ _ _ _ Hts) as [slots Hs].
    rewrite Hs. cbn.
    destruct (fixture_slots_ok _ _ _ _ _ _ _ Hs) as [Hok _].
    destruct (assign_loop_outcomes slots rest max_matches_per_day
                (fixture_pending h teams system home_and_away).2 empty_state)
      as [[st Hst]| ->]; [|now right; left].
    rewrite Hst. cbn. left.
    destruct (assign_loop_inv slots rest max_matches_per_day Hok _ _ _
                (inv_empty slots rest) Hst) as [Hinv _].
    exact (finalize_total slots rest st Hok Hinv).
  - right. right. apply generate_timeslots_raises in Hts as Hv. subst e.
    unfold fixture_slots. now rewrite Hts.
Qed.

Lemma fixture_terminates_witness :
  (exists result,
      (generate_fixture four_teams [0; 1]%nat "rr" 1 1 "09:00" "9h" 60 120
         None true None).2 = Ok result)
  \/ (generate_fixture four_teams [0; 1]%nat "rr" 1 1 "09:00" "9h" 60 120
        None true None).2 = Raise (RuntimeError infeasible_msg)
  \/ (generate_fixture four_teams [0; 1]%nat "rr" 1 1 "09:00" "9h" 60 120
        None true None).2 = Raise ValueError.
Proof.
  apply (fixture_terminates four_teams [0; 1]%nat "rr" 1 1 "09:00" "9h" 60 120
           None true None). lia.
Defined.

(* ===================================================================== *)
(** * The round-robin generator: the circle method *)
(* ===================================================================== *)

#[local] Open Scope nat_scope.

Section Rotation.
Context {A : Type}.
  Implicit Types l : list A.

Lemma rotate_length l : 2 <= length l -> length (rotate l) = length l.
  Proof.
    intros H. unfold rotate.
    rewrite !length_app, !length_take, !length_drop. lia.
  Qed.

Lemma rotate_perm l : 2 <= length l -> rotate l ≡ₚ l.
  Proof.
    intros H. unfold rotate.
    transitivity (take 1 l ++ drop 1 l); [|now rewrite take_drop].
    apply Permutation_app_head.
    transitivity (take (length l - 2) (drop 1 l) ++ drop (length l - 2) (drop 1 l));
      [|now rewrite take_drop].
    rewrite drop_drop. replace (1 + (length l - 2)) with (length l - 1) by lia.
    apply Permutation_app_comm.
  Qed.

  (** One rotation moves the element at position [p] to [rot_pos m p]. *)
Lemma rotate_lookup l m p x :
    length l = S m -> 1 <= m ->
    l !! p = Some x -> rotate l !! rot_pos m p = Some x.
  Proof.
    intros Hlen Hm Hp. pose proof (lookup_lt_Some _ _ _ Hp) as Hlt.
    unfold rotate, rot_pos. rewrite Hlen.
    replace (S m - 1) with m by lia. replace (S m - 2) with (m - 1) by lia.
    destruct (Nat.eqb_spec p 0) as [->|Hp0].
    { rewrite lookup_app_l by (rewrite length_take; lia).
      now rewrite lookup_take_lt by lia. }
    destruct (Nat.eqb_spec p m) as [->|Hpm];
      (rewrite lookup_app_r by (rewrite length_take; lia));
      rewrite length_take, Hlen; replace (1 `min` S m) with 1 by lia.
    { rewrite lookup_app_l by (rewrite length_drop; lia).
      rewrite lookup_drop. now replace (m + (1 - 1)) with m by lia. }
    rewrite lookup_app_r by (rewrite length_drop; lia).
    rewrite length_drop, Hlen.
    rewrite lookup_take_lt by lia. rewrite lookup_drop.
    now replace (1 + (S p - 1 - (S m - m))) with p by lia.
  Qed.

Lemma iter_rotate_length l r : 2 <= length l -> length (Nat.iter r rotate l) = length l.
  Proof.
    intros H. induction r as [|r IH]; [reflexivity|].
    change (Nat.iter (S r) rotate l) with (rotate (Nat.iter r rotate l)). rewrite rotate_length; lia.
  Qed.

Lemma iter_rotate_perm l r : 2 <= length l -> Nat.iter r rotate l ≡ₚ l.
  Proof.
    intros H. induction r as [|r IH]; [reflexivity|].
    change (Nat.iter (S r) rotate l) with (rotate (Nat.iter r rotate l)). rewrite rotate_perm; [exact IH|].
    rewrite iter_rotate_length; lia.
  Qed.

Lemma pos_step m r k : k <= m -> r < m -> pos m (S r) k = rot_pos m (pos m r k).
  Proof.
    intros Hk Hr. unfold pos.
    destruct (Nat.eqb_spec k 0); [reflexivity|].
    destruct (Nat.leb_spec (k + S r) m), (Nat.leb_spec (k + r) m); unfold rot_pos;
      repeat match goal with
             | |- context [Nat.eqb ?a ?b] => destruct (Nat.eqb_spec a b)
             end; lia.
  Qed.

Lemma pos_bound m r k : k <= m -> r <= m -> pos m r k <= m.
  Proof.
    intros Hk Hr. unfold pos.
    destruct (Nat.eqb_spec k 0); [lia|]. destruct (Nat.leb_spec (k + r) m); lia.
  Qed.

  (** After [r] rotations the element from index [k] sits at [pos m r k]. *)
Lemma iter_rotate_lookup l m r k x :
    length l = S m -> 1 <= m -> r <= m ->
    l !! k = Some x -> Nat.iter r rotate l !! pos m r k = Some x.
  Proof.
    intros Hlen Hm Hr Hk. pose proof (lookup_lt_Some _ _ _ Hk) as Hlt.
    induction r as [|r IH].
    - change (Nat.iter 0 rotate l) with l. unfold pos.
      destruct (Nat.eqb_spec k 0) as [->|]; [exact Hk|].
      destruct (Nat.leb_spec (k + 0) m); [|lia]. now rewrite Nat.add_0_r.
    - change (Nat.iter (S r) rotate l) with (rotate (Nat.iter r rotate l)). rewrite pos_step by lia.
      apply rotate_lookup; [|exact Hm|apply IH; lia].
      rewrite iter_rotate_length; lia.
  Qed.
End Rotation.

Ltac pos_cases :=
  unfold pos in *;
  repeat match goal with
         | |- context [Nat.eqb ?a ?b] => destruct (Nat.eqb_spec a b)
         | |- context [Nat.leb ?a ?b] => destruct (Nat.leb_spec a b)
         | H : context [Nat.eqb ?a ?b] |- _ => destruct (Nat.eqb_spec a b)
         | H : context [Nat.leb ?a ?b] |- _ => destruct (Nat.leb_spec a b)
         end.

Section CircleArithmetic.
Variables (m h : nat).
Hypothesis m_odd : m = 2 * h + 1.

  (** Two positions facing each other across the circle add up to [m];
      two different starting indices face each other in one round only. *)
Lemma facing_round_exists p q :
    p <= m -> q <= m -> p <> q ->
    exists r, r < m /\ pos m r p + pos m r q = m.
  Proof.
    intros Hp Hq Hpq.
    destruct (Nat.eq_dec p 0) as [->|Hp0].
    { exists (m - q). split; [lia|]. pos_cases; lia. }
    destruct (Nat.eq_dec q 0) as [->|Hq0].
    { exists (m - p). split; [lia|]. pos_cases; lia. }
    destruct (Nat.Even_or_Odd (p + q)) as [[u Hu]|[u Hu]].
    - exists (m - u). split; [lia|]. pos_cases; lia.
    - destruct (Nat.le_gt_cases (p + q) m) as [Hs|Hs].
      + exists (h - u). split; [lia|]. pos_cases; lia.
      + exists (3 * h + 1 - u). split; [lia|]. pos_cases; lia.
  Qed.

Lemma facing_round_unique p q r r' :
    p <= m -> q <= m -> p <> q -> r < m -> r' < m ->
    pos m r p + pos m r q = m -> pos m r' p + pos m r' q = m -> r = r'.
  Proof. intros Hp Hq Hpq Hr Hr' H H'. pos_cases; lia. Qed.

Lemma facing_distinct p q r :
    pos m r p + pos m r q = m -> pos m r p <> pos m r q.
  Proof. lia. Qed.
End CircleArithmetic.

Section Counting.

Lemma filter_seq_unique (P : nat -> Prop) `{!forall i, Decision (P i)} (n i0 : nat) :
    (forall i, i < n -> (P i <-> i = i0)) ->
    length (filter P (seq 0 n)) = if decide (i0 < n) then 1 else 0.
  Proof.
    induction n as [|n IH]; intros HP.
    - now destruct (decide (i0 < 0)); [lia|].
    - rewrite seq_S, filter_app, length_app, IH by (intros i Hi; apply HP; lia).
      cbn [Nat.add]. rewrite filter_cons, filter_nil.
      destruct (decide (P n)) as [Hn|Hn].
      + apply HP in Hn; [|lia]. subst i0.
        destruct (decide (n < n)); [lia|]. destruct (decide (n < S n)); [reflexivity|lia].
      + assert (n <> i0) by (intros ->; apply Hn, HP; lia).
        destruct (decide (i0 < n)), (decide (i0 < S n)); cbn; lia.
  Qed.

Lemma sum_list_with_fmap {A B} (f : B -> nat) (g : A -> B) (l : list A) :
    sum_list_with f (g <$> l) = sum_list_with (fun a => f (g a)) l.
  Proof. induction l as [|a l IH]; cbn; [reflexivity|]. now rewrite IH. Qed.

Lemma sum_list_with_ext {A} (f g : A -> nat) (l : list A) :
    (forall a, a ∈ l -> f a = g a) -> sum_list_with f l = sum_list_with g l.
  Proof.
    induction l as [|a l IH]; intros E; cbn; [reflexivity|].
    rewrite E, IH; [reflexivity| |apply list_elem_of_here].
    intros a' Ha'. apply E. now apply list_elem_of_further.
  Qed.

Lemma sum_list_with_indicator (n r0 : nat) :
    sum_list_with (fun r => if decide (r = r0) then 1 else 0) (seq 0 n)
    = if decide (r0 < n) then 1 else 0.
  Proof.
    induction n as [|n IH].
    - now destruct (decide (r0 < 0)); [lia|].
    - rewrite seq_S, sum_list_with_app, IH. cbn.
      destruct (decide (n = r0)), (decide (r0 < n)), (decide (r0 < S n)); lia.
  Qed.

  (** The bye filter of [pair_loop] does not touch pairings of two real
      teams. *)
Lemma count_pair_loop teams n rng (a b : string) :
    a <> BYE -> b <> BYE ->
    count_pairing (a, b) (pair_loop teams n rng)
    = length (filter (fun i => (teams !!! i, teams !!! (n - 1 - i)) = (a, b)) rng).
  Proof.
    intros Ha Hb. unfold count_pairing.
    induction rng as [|i rng IH]; [reflexivity|].
    cbn [pair_loop]. rewrite (filter_cons _ i).
    destruct (bool_decide (teams !!! i <> BYE) && bool_decide (teams !!! (n - 1 - i) <> BYE))
      eqn:E.
    - rewrite (filter_cons _ (teams !!! i, teams !!! (n - 1 - i))).
      destruct (decide ((teams !!! i, teams !!! (n - 1 - i)) = (a, b)));
        cbn [length]; now rewrite IH.
    - destruct (decide (_ = _)) as [[= E1 E2]|]; [|exact IH].
      rewrite E1, E2 in E.
      rewrite !bool_decide_true in E by assumption. discriminate.
  Qed.

Lemma round_loop_spec count n (teams : list string) :
    round_loop count n teams
    = (fun r => pair_loop (Nat.iter r rotate teams) n (seq 0 (n / 2))) <$> seq 0 count.
  Proof.
    revert teams. induction count as [|count IH]; intros teams; [reflexivity|].
    cbn [round_loop seq fmap list_fmap]. f_equal.
    rewrite IH, <- fmap_S_seq, <- list_fmap_compose.
    apply list_fmap_ext. intros _ r _. unfold compose. f_equal.
    symmetry. apply Nat.iter_succ_r.
  Qed.
End Counting.

Section Circle.
Variables (L : list string) (m h : nat).
Hypothesis m_odd : m = 2 * h + 1.
Hypothesis L_length : length L = S m.
Hypothesis L_NoDup : NoDup L.

Let T (r : nat) : list string := Nat.iter r rotate L.
Let round_of (r : nat) : list (string * string) :=
    pair_loop (T r) (S m) (seq 0 (S m / 2)).

Lemma half_length : S m / 2 = S h.
  Proof. replace (S m) with (S h * 2) by lia. apply Nat.div_mul. lia. Qed.

Lemma T_length r : length (T r) = S m.
  Proof. unfold T. rewrite iter_rotate_length; lia. Qed.

Lemma T_NoDup r : NoDup (T r).
  Proof. unfold T. rewrite iter_rotate_perm; [exact L_NoDup|lia]. Qed.

Lemma T_lookup r k x i :
    r <= m -> L !! k = Some x -> i < S m -> (T r !!! i = x <-> i = pos m r k).
  Proof.
    intros Hr Hk Hi.
    pose proof (iter_rotate_lookup L m r k x L_length ltac:(lia) Hr Hk) as Hpos.
    fold (T r) in Hpos. split.
    - intros E. eapply NoDup_lookup; [apply (T_NoDup r)| |exact Hpos].
      rewrite <- E. apply list_lookup_lookup_total_lt. now rewrite T_length.
    - intros ->. now apply list_lookup_total_correct.
  Qed.

  (** In round [r] the ordered pairing (x1, x2) occurs once if the two
      teams face each other with x1 on the home side, and not at all
      otherwise. *)
Lemma count_round r k1 k2 x1 x2 :
    r < m -> L !! k1 = Some x1 -> L !! k2 = Some x2 ->
    x1 <> BYE -> x2 <> BYE ->
    count_pairing (x1, x2) (round_of r)
    = if decide (pos m r k1 + pos m r k2 = m /\ pos m r k1 < pos m r k2) then 1 else 0.
  Proof.
    intros Hr H1 H2 Hx1 Hx2. unfold round_of.
    rewrite count_pair_loop by assumption. rewrite half_length.
    pose proof (lookup_lt_Some _ _ _ H1) as Hk1.
    pose proof (lookup_lt_Some _ _ _ H2) as Hk2.
    pose proof (pos_bound m r k1 ltac:(lia) ltac:(lia)) as Hb1.
    pose proof (pos_bound m r k2 ltac:(lia) ltac:(lia)) as Hb2.
    assert (HP : forall i, i < S h ->
      ((T r !!! i, T r !!! (S m - 1 - i)) = (x1, x2)
       <-> i = pos m r k1 /\ S m - 1 - i = pos m r k2)).
    { intros i Hi. split.
      - intros [= E1 E2]. split.
        + apply (T_lookup r k1 x1); [lia|exact H1|lia|exact E1].
        + apply (T_lookup r k2 x2); [lia|exact H2|lia|exact E2].
      - intros [E1 E2]. f_equal.
        + apply (T_lookup r k1 x1); [lia|exact H1|lia|exact E1].
        + apply (T_lookup r k2 x2); [lia|exact H2|lia|exact E2]. }
    destruct (decide (pos m r k1 + pos m r k2 = m /\ pos m r k1 < pos m r k2))
      as [[Hsum Hlt]|Hno].
    - rewrite (filter_seq_unique _ (S h) (pos m r k1)).
      + destruct (decide (pos m r k1 < S h)); [reflexivity|lia].
      + intros i Hi. rewrite (HP i Hi). lia.
    - rewrite (filter_seq_unique _ (S h) (S h)).
      + destruct (decide (S h < S h)); [lia|reflexivity].
      + intros i Hi. rewrite (HP i Hi). lia.
  Qed.

Variables (p q : nat) (a b : string).
Hypothesis Hp : L !! p = Some a.
Hypothesis Hq : L !! q = Some b.
Hypothesis Hpq : p <> q.
Hypothesis Ha : a <> BYE.
Hypothesis Hb : b <> BYE.

Lemma meets_round r :
    r < m ->
    meets a b (round_of r) = if decide (pos m r p + pos m r q = m) then 1 else 0.
  Proof.
    intros Hr. unfold meets.
    rewrite (count_round r p q a b), (count_round r q p b a) by assumption.
    repeat destruct (decide _); lia.
  Qed.

  (** The one round in which [a] and [b] meet. *)
Lemma meeting_round :
    exists r0, r0 < m
      /\ forall r, r < m -> meets a b (round_of r) = if decide (r = r0) then 1 else 0.
  Proof.
    pose proof (lookup_lt_Some _ _ _ Hp). pose proof (lookup_lt_Some _ _ _ Hq).
    destruct (facing_round_exists m h m_odd p q) as (r0 & Hr0 & Hsum); [lia..|].
    exists r0. split; [exact Hr0|]. intros r Hr. rewrite meets_round by exact Hr.
    destruct (decide (r = r0)) as [->|Hne].
    - now destruct (decide _).
    - destruct (decide _) as [Hs|]; [|reflexivity]. exfalso. apply Hne.
      apply (facing_round_unique m h m_odd p q); try assumption; lia.
  Qed.

Lemma rounds_from_circle :
    round_loop m (S m) L = round_of <$> seq 0 m.
  Proof. apply round_loop_spec. Qed.
End Circle.

(** The list the circle runs on: the names, and BYE when their number is
    odd; its length is even. *)
Lemma round_robin_shape (team_names : list string) :
  2 <= length team_names -> NoDup team_names -> BYE ∉ team_names ->
  exists (L : list string) (m h : nat),
    m = 2 * h + 1 /\ length L = S m /\ NoDup L
    /\ (forall k x, team_names !! k = Some x -> L !! k = Some x)
    /\ forall home_and_away,
        generate_round_robin team_names home_and_away
        = let rounds := (fun r => pair_loop (Nat.iter r rotate L) (S m) (seq 0 (S m / 2)))
                          <$> seq 0 m in
          if home_and_away
          then rounds ++ ((fun rnd : list (string * string) =>
                             (fun '(home, away) => (away, home)) <$> rnd) <$> rounds)
          else rounds.
Proof.
  intros Hlen Hnd Hbye.
  pose proof (Nat.div_mod_eq (length team_names) 2) as Hdm.
  pose proof (Nat.mod_upper_bound (length team_names) 2 ltac:(lia)) as Hmod.
  set (L := if Nat.eqb (length team_names mod 2) 1 then team_names ++ [BYE] else team_names).
  assert (HL : exists h, length L = S (2 * h + 1)).
  { unfold L. destruct (Nat.eqb_spec (length team_names mod 2) 1) as [E|E].
    - exists (length team_names / 2). rewrite length_app.
      change (length [BYE]) with 1. lia.
    - exists (length team_names / 2 - 1). lia. }
  destruct HL as [h HL]. exists L, (2 * h + 1), h.
  split; [reflexivity|]. split; [exact HL|]. split; [|split].
  - unfold L. destruct (Nat.eqb (length team_names mod 2) 1); [|exact Hnd].
    apply NoDup_app. repeat split; [exact Hnd| |apply NoDup_singleton].
    intros x Hx [->|Hx']%elem_of_cons; [contradiction|inversion Hx'].
  - intros k x Hk. unfold L. destruct (Nat.eqb (length team_names mod 2) 1); [|exact Hk].
    now apply lookup_app_l_Some.
  - intros home_and_away. unfold generate_round_robin. fold L. rewrite HL.
    replace (S (2 * h + 1) - 1) with (2 * h + 1) by lia.
    now rewrite round_loop_spec.
Qed.

Lemma count_pairing_swap (x y : string) (rnd : list (string * string)) :
  count_pairing (x, y) ((fun '(home, away) => (away, home)) <$> rnd)
  = count_pairing (y, x) rnd.
Proof.
  unfold count_pairing. induction rnd as [|[u v] rnd IH]; [reflexivity|].
  cbn [fmap list_fmap]. rewrite !filter_cons.
  destruct (decide ((v, u) = (x, y))) as [E1|E1],
    (decide ((u, v) = (y, x))) as [E2|E2]; cbn [length];
    try (now rewrite IH); exfalso; congruence.
Qed.

Lemma sum_list_with_add {A} (f g : A -> nat) (l : list A) :
  sum_list_with (fun x => f x + g x) l = sum_list_with f l + sum_list_with g l.
Proof. induction l as [|x l IH]; cbn; [reflexivity|]. rewrite IH. lia. Qed.

(** C3 as stated fails on a team called BYE: the pairing of the two
    distinct names BYE and x is dropped, so the pair appears in no round,
    one-legged or two-legged. *)
Lemma C3_counterexample_team_named_BYE :
  NoDup ["BYE"; "x"] /\ 2 <= length ["BYE"; "x"]
  /\ generate_round_robin ["BYE"; "x"] false = [[]]
  /\ generate_round_robin ["BYE"; "x"] true = [[]; []]
  /\ sum_list_with (meets "BYE" "x") (generate_round_robin ["BYE"; "x"] false) = 0
  /\ sum_list_with (meets "BYE" "x") (generate_round_robin ["BYE"; "x"] true) = 0.
Proof.
  split; [|split; [cbn; lia|repeat split]].
  apply NoDup_cons. split; [|apply NoDup_singleton].
  intros [= ]%list_elem_of_singleton.
Qed.

(** C3, amended. For every list of n >= 2 distinct team names none of
    which is BYE, and any two different names a, b of the list: with
    home_and_away false there is exactly one round in which a and b are
    paired, they are paired once in it, and no other round pairs them;
    with home_and_away true the ordered pairing (a, b) occurs exactly once
    across all rounds and so does (b, a): the pair appears twice, once in
    each home/away orientation. *)
Theorem C3_round_robin_pairs (team_names : list string) (a b : string) :
  2 <= length team_names -> NoDup team_names -> BYE ∉ team_names ->
  a ∈ team_names -> b ∈ team_names -> a <> b ->
  (exists r rnd,
      generate_round_robin team_names false !! r = Some rnd
      /\ meets a b rnd = 1
      /\ forall r' rnd', r' <> r ->
           generate_round_robin team_names false !! r' = Some rnd' ->
           meets a b rnd' = 0)
  /\ sum_list_with (meets a b) (generate_round_robin team_names false) = 1
  /\ sum_list_with (count_pairing (a, b)) (generate_round_robin team_names true) = 1
  /\ sum_list_with (count_pairing (b, a)) (generate_round_robin team_names true) = 1.
Proof.
  intros Hlen Hnd Hbye Ha Hb Hab.
  destruct (round_robin_shape team_names Hlen Hnd Hbye)
    as (L & m & h & Hm & HL & HLnd & Hlook & Hrr).
  rewrite (Hrr false), (Hrr true). cbv zeta.
  apply list_elem_of_lookup in Ha as [p Hp]. apply list_elem_of_lookup in Hb as [q Hq].
  assert (Hpq : p <> q) by (intros ->; congruence).
  assert (HaB : a <> BYE).
  { intros ->. apply Hbye. eapply list_elem_of_lookup_2, Hp. }
  assert (HbB : b <> BYE).
  { intros ->. apply Hbye. eapply list_elem_of_lookup_2, Hq. }
  apply Hlook in Hp, Hq.
  destruct (meeting_round L m h Hm HL HLnd p q a b Hp Hq Hpq HaB HbB) as (r0 & Hr0 & Hmeet).
  cbv zeta in Hmeet.
  set (round_of := fun r => pair_loop (Nat.iter r rotate L) (S m) (seq 0 (S m / 2))).
  assert (Hmeet' : forall r, r < m ->
            meets a b (round_of r) = if decide (r = r0) then 1 else 0) by exact Hmeet.
  clear Hmeet. rename Hmeet' into Hmeet.
  assert (Htotal : sum_list_with (meets a b) (round_of <$> seq 0 m) = 1).
  { rewrite sum_list_with_fmap.
    rewrite (sum_list_with_ext _ (fun r => if decide (r = r0) then 1 else 0)).
    - rewrite sum_list_with_indicator. destruct (decide (r0 < m)); [reflexivity|lia].
    - intros r Hr%elem_of_seq. apply Hmeet. lia. }
  assert (Hsplit : sum_list_with (count_pairing (a, b)) (round_of <$> seq 0 m)
                   + sum_list_with (count_pairing (b, a)) (round_of <$> seq 0 m) = 1).
  { rewrite <- sum_list_with_add. exact Htotal. }
  assert (Hswap : forall x y,
    sum_list_with (count_pairing (x, y))
      ((fun rnd : list (string * string) => (fun '(home, away) => (away, home)) <$> rnd)
         <$> (round_of <$> seq 0 m))
    = sum_list_with (count_pairing (y, x)) (round_of <$> seq 0 m)).
  { intros x y. rewrite sum_list_with_fmap. apply sum_list_with_ext.
    intros rnd _. apply count_pairing_swap. }
  split; [|split; [exact Htotal|split]].
  - exists r0, (round_of r0). split; [|split].
    + rewrite list_lookup_fmap, lookup_seq_lt by exact Hr0. reflexivity.
    + rewrite Hmeet by exact Hr0. destruct (decide (r0 = r0)); [reflexivity|congruence].
    + intros r' rnd' Hne Hr'. rewrite list_lookup_fmap in Hr'.
      destruct (seq 0 m !! r') as [r''|] eqn:Es; [|discriminate].
      apply lookup_seq in Es as [-> Hlt]. injection Hr' as <-.
      rewrite Hmeet by exact Hlt. destruct (decide (r' = r0)); [congruence|reflexivity].
  - rewrite sum_list_with_app, Hswap. exact Hsplit.
  - rewrite sum_list_with_app, Hswap. lia.
Qed.

Lemma C3_round_robin_pairs_witness :
  (exists r rnd,
      generate_round_robin ["a"; "b"; "c"; "d"; "e"] false !! r = Some rnd
      /\ meets "b" "e" rnd = 1
      /\ forall r' rnd', r' <> r ->
           generate_round_robin ["a"; "b"; "c"; "d"; "e"] false !! r' = Some rnd' ->
           meets "b" "e" rnd' = 0)
  /\ sum_list_with (meets "b" "e") (generate_round_robin ["a"; "b"; "c"; "d"; "e"] false) = 1
  /\ sum_list_with (count_pairing ("b", "e"))
       (generate_round_robin ["a"; "b"; "c"; "d"; "e"] true) = 1
  /\ sum_list_with (count_pairing ("e", "b"))
       (generate_round_robin ["a"; "b"; "c"; "d"; "e"] true) = 1.
Proof.
  apply (C3_round_robin_pairs ["a"; "b"; "c"; "d"; "e"] "b" "e").
  - cbn. lia.
  - apply (bool_decide_unpack _). vm_compute. exact I.
  - apply (bool_decide_unpack _). vm_compute. exact I.
  - apply (bool_decide_unpack _). vm_compute. exact I.
  - apply (bool_decide_unpack _). vm_compute. exact I.
  - discriminate.
Defined.

(* ===================================================================== *)
(** * Further properties of the round-robin generator *)
(* ===================================================================== *)

#[local] Open Scope nat_scope.

#[local] Instance real_pairing_dec p : Decision (real_pairing p).
Proof. unfold real_pairing. apply _. Defined.

Lemma pair_loop_filter teams n rng :
  pair_loop teams n rng = filter real_pairing (raw_pairs teams n rng).
Proof.
  unfold raw_pairs. induction rng as [|i rng IH]; [reflexivity|].
  cbn [pair_loop fmap list_fmap]. rewrite filter_cons, IH.
  destruct (decide (real_pairing (teams !!! i, teams !!! (n - 1 - i)))) as [[H1 H2]|Hn].
  - cbn in H1, H2. now rewrite !bool_decide_true by assumption.
  - destruct (bool_decide (teams !!! i <> BYE)) eqn:E1;
      destruct (bool_decide (teams !!! (n - 1 - i) <> BYE)) eqn:E2; try reflexivity.
    exfalso. apply Hn.
    split; cbn; [exact (bool_decide_eq_true_1 _ E1)|exact (bool_decide_eq_true_1 _ E2)].
Qed.

Lemma round_loop_length count n teams : length (round_loop count n teams) = count.
Proof. rewrite round_loop_spec. now rewrite length_fmap, length_seq. Qed.

Lemma padded_length team_names :
  length (padded team_names) = length team_names + length team_names mod 2.
Proof.
  unfold padded.
  pose proof (Nat.mod_upper_bound (length team_names) 2 ltac:(lia)).
  destruct (Nat.eqb_spec (length team_names mod 2) 1) as [E|E].
  - rewrite length_app. cbn [length]. lia.
  - lia.
Qed.

Lemma padded_even team_names : exists k, length (padded team_names) = 2 * k.
Proof.
  rewrite padded_length.
  pose proof (Nat.div_mod_eq (length team_names) 2).
  pose proof (Nat.mod_upper_bound (length team_names) 2 ltac:(lia)).
  destruct (Nat.eq_dec (length team_names mod 2) 0).
  - exists (length team_names / 2). lia.
  - exists (length team_names / 2 + 1). lia.
Qed.

(** [generate_round_robin] in terms of the rotated lists. *)
Lemma round_robin_unfold team_names home_and_away :
  generate_round_robin team_names home_and_away
  = let L := padded team_names in
    let n := length L in
    let rounds := (fun r => pair_loop (Nat.iter r rotate L) n (seq 0 (n / 2)))
                    <$> seq 0 (n - 1) in
    if home_and_away
    then rounds ++ ((fun rnd : list (string * string) =>
                       (fun '(home, away) => (away, home)) <$> rnd) <$> rounds)
    else rounds.
Proof. unfold generate_round_robin. fold (padded team_names). now rewrite round_loop_spec. Qed.

(** X21. The number of rounds: one fewer than the team count rounded up
    to an even number (none for an empty list), and twice as many with
    home_and_away. *)
Theorem round_robin_round_count (team_names : list string) (home_and_away : bool) :
  length (generate_round_robin team_names home_and_away)
  = (if home_and_away then 2 else 1)
    * (length team_names + length team_names mod 2 - 1).
Proof.
  rewrite round_robin_unfold. cbv zeta.
  destruct home_and_away; rewrite ?length_app, !length_fmap, length_seq, padded_length; lia.
Qed.

Lemma padded_elem team_names x : x ∈ padded team_names -> x <> BYE -> x ∈ team_names.
Proof.
  unfold padded. destruct (Nat.eqb _ 1); [|easy].
  intros [H|H%list_elem_of_singleton]%elem_of_app Hx; [exact H|contradiction].
Qed.

Lemma raw_pairs_elem teams n rng x y :
  (x, y) ∈ raw_pairs teams n rng ->
  exists i, i ∈ rng /\ x = teams !!! i /\ y = teams !!! (n - 1 - i).
Proof.
  unfold raw_pairs. intros (i & [= -> ->] & Hi)%list_elem_of_fmap. now exists i.
Qed.

Lemma first_leg_names team_names r x y :
  r < length (padded team_names) - 1 ->
  (x, y) ∈ pair_loop (Nat.iter r rotate (padded team_names))
             (length (padded team_names)) (seq 0 (length (padded team_names) / 2)) ->
  x ∈ team_names /\ y ∈ team_names /\ x <> BYE /\ y <> BYE.
Proof.
  intros Hr. rewrite pair_loop_filter.
  intros [[Hx Hy] Hin]%list_elem_of_filter. cbn in Hx, Hy.
  apply raw_pairs_elem in Hin as (i & Hi%elem_of_seq & -> & ->).
  destruct (padded_even team_names) as [k Hk].
  assert (Hlen : length (Nat.iter r rotate (padded team_names)) = length (padded team_names)).
  { apply iter_rotate_length. lia. }
  assert (Hhalf : length (padded team_names) / 2 = k).
  { rewrite Hk, Nat.mul_comm. apply Nat.div_mul. lia. }
  rewrite Hhalf in Hi.
  assert (Hin : forall j, j < length (padded team_names) ->
            Nat.iter r rotate (padded team_names) !!! j <> BYE ->
            Nat.iter r rotate (padded team_names) !!! j ∈ team_names).
  { intros j Hj Hne. apply padded_elem; [|exact Hne].
    pose proof (iter_rotate_perm (padded team_names) r ltac:(lia)) as Hp.
    eapply elem_of_Permutation_proper; [symmetry; exact Hp|].
    apply list_elem_of_lookup_total_2. lia. }
  repeat split; try assumption; apply Hin; try assumption; lia.
Qed.

Lemma round_robin_names
    (team_names : list string) (home_and_away : bool)
    (rnd : list (string * string)) (x y : string) :
  rnd ∈ generate_round_robin team_names home_and_away -> (x, y) ∈ rnd ->
  x ∈ team_names /\ y ∈ team_names /\ x <> BYE /\ y <> BYE.
Proof.
  rewrite round_robin_unfold. cbv zeta. intros Hrnd Hxy.
  assert (Hfirst : forall rnd' x' y',
    rnd' ∈ (fun r => pair_loop (Nat.iter r rotate (padded team_names))
                       (length (padded team_names))
                       (seq 0 (length (padded team_names) / 2)))
             <$> seq 0 (length (padded team_names) - 1) ->
    (x', y') ∈ rnd' ->
    x' ∈ team_names /\ y' ∈ team_names /\ x' <> BYE /\ y' <> BYE).
  { intros rnd' x' y' (r & -> & Hr%elem_of_seq)%list_elem_of_fmap Hin.
    eapply first_leg_names; [|exact Hin]. lia. }
  destruct home_and_away; [|eauto].
  apply elem_of_app in Hrnd as [Hrnd|Hrnd]; [eauto|].
  apply list_elem_of_fmap in Hrnd as (rnd0 & -> & Hrnd0).
  apply list_elem_of_fmap in Hxy as ([u v] & [= -> ->] & Huv).
  destruct (Hfirst rnd0 u v Hrnd0 Huv) as (? & ? & ? & ?). now repeat split.
Qed.

(** X22. Every pairing of every round consists of two names of the input
    list, neither of them BYE: the placeholder never reaches the output
    and no name is invented. *)
Theorem round_robin_pairs_are_input_names
    (team_names : list string) (home_and_away : bool)
    (rnd : list (string * string)) (x y : string) :
  rnd ∈ generate_round_robin team_names home_and_away -> (x, y) ∈ rnd ->
  x ∈ team_names /\ y ∈ team_names /\ x <> BYE /\ y <> BYE.
Proof. exact (round_robin_names team_names home_and_away rnd x y). Qed.

Lemma round_robin_pairs_are_input_names_witness :
  "c" ∈ ["a"; "b"; "c"] /\ "a" ∈ ["a"; "b"; "c"] /\ "c" <> BYE /\ "a" <> BYE.
Proof.
  apply (round_robin_pairs_are_input_names ["a"; "b"; "c"] true [("c", "a")] "c" "a").
  - apply (bool_decide_unpack _). vm_compute. exact I.
  - apply list_elem_of_here.
Defined.

(* --------------------------------------------------------------------- *)
(** ** Each round is a matching *)

Lemma raw_pairs_homes teams n rng :
  (raw_pairs teams n rng).*1 = (fun i => teams !!! i) <$> rng.
Proof. unfold raw_pairs. rewrite <- list_fmap_compose. reflexivity. Qed.

Lemma raw_pairs_aways teams n rng :
  (raw_pairs teams n rng).*2 = (fun i => teams !!! (n - 1 - i)) <$> rng.
Proof. unfold raw_pairs. rewrite <- list_fmap_compose. reflexivity. Qed.

Lemma lookup_total_inj (T : list string) i j :
  NoDup T -> i < length T -> j < length T -> T !!! i = T !!! j -> i = j.
Proof.
  intros HT Hi Hj E.
  eapply NoDup_lookup; [exact HT| |].
  - apply list_lookup_lookup_total_lt. exact Hi.
  - rewrite E. apply list_lookup_lookup_total_lt. exact Hj.
Qed.

(** In a duplicate-free list of 2h+2 names, position i faces position
    2h+1-i, and nobody is paired twice. *)
Lemma raw_pairs_NoDup (T : list string) h :
  NoDup T -> length T = 2 * h + 2 ->
  NoDup ((raw_pairs T (2 * h + 2) (seq 0 (S h))).*1
         ++ (raw_pairs T (2 * h + 2) (seq 0 (S h))).*2).
Proof.
  intros HT Hlen. rewrite raw_pairs_homes, raw_pairs_aways.
  apply NoDup_app. split; [|split].
  - apply NoDup_fmap_2_strong; [|apply NoDup_seq].
    intros i j Hi%elem_of_seq Hj%elem_of_seq E.
    apply (lookup_total_inj T); [exact HT|lia|lia|exact E].
  - intros x (i & -> & Hi%elem_of_seq)%list_elem_of_fmap
             (j & E & Hj%elem_of_seq)%list_elem_of_fmap.
    apply (lookup_total_inj T) in E; [lia|exact HT|lia|lia].
  - apply NoDup_fmap_2_strong; [|apply NoDup_seq].
    intros i j Hi%elem_of_seq Hj%elem_of_seq E.
    apply (lookup_total_inj T) in E; [lia|exact HT|lia|lia].
Qed.

Lemma pair_loop_NoDup (T : list string) h :
  NoDup T -> length T = 2 * h + 2 ->
  NoDup ((pair_loop T (2 * h + 2) (seq 0 (S h))).*1
         ++ (pair_loop T (2 * h + 2) (seq 0 (S h))).*2).
Proof.
  intros HT Hlen. rewrite pair_loop_filter.
  eapply sublist_NoDup; [exact (raw_pairs_NoDup T h HT Hlen)|].
  apply sublist_app; apply fmap_sublist, sublist_filter.
Qed.

Lemma filter_all {A} (P : A -> Prop) `{forall x, Decision (P x)} (l : list A) :
  Forall P l -> filter P l = l.
Proof.
  induction 1 as [|x l Hx Hl IH]; [reflexivity|].
  rewrite filter_cons_True by exact Hx. now rewrite IH.
Qed.

Lemma pair_loop_length_full (T : list string) h :
  length T = 2 * h + 2 -> BYE ∉ T ->
  length (pair_loop T (2 * h + 2) (seq 0 (S h))) = S h.
Proof.
  intros Hlen Hbye. rewrite pair_loop_filter, filter_all.
  - unfold raw_pairs. now rewrite length_fmap, length_seq.
  - apply Forall_forall. intros [x y] (i & Hi%elem_of_seq & -> & ->)%raw_pairs_elem.
    split; cbn; intros E; apply Hbye; rewrite <- E;
      apply list_elem_of_lookup_total_2; lia.
Qed.

Lemma length_filter_fmap {A B} (f : A -> B) (P : B -> Prop)
    `{forall x, Decision (P x)} (l : list A) :
  length (filter P (f <$> l)) = length (filter (fun x => P (f x)) l).
Proof.
  induction l as [|a l IH]; [reflexivity|].
  cbn [fmap list_fmap]. rewrite !filter_cons.
  destruct (decide (P (f a))); cbn [length]; now rewrite IH.
Qed.

Lemma length_filter_ext {A} (P Q : A -> Prop)
    `{forall x, Decision (P x)} `{forall x, Decision (Q x)} (l : list A) :
  (forall x, x ∈ l -> P x <-> Q x) ->
  length (filter P l) = length (filter Q l).
Proof.
  induction l as [|a l IH]; intros Hext; [reflexivity|].
  rewrite !filter_cons.
  assert (Ha : P a <-> Q a) by (apply Hext, list_elem_of_here).
  assert (IH' : length (filter P l) = length (filter Q l)).
  { apply IH. intros x Hx. apply Hext. now apply list_elem_of_further. }
  destruct (decide (P a)), (decide (Q a)); cbn [length]; tauto || lia.
Qed.

Lemma pair_loop_length_bye (T : list string) h :
  NoDup T -> length T = 2 * h + 2 -> BYE ∈ T ->
  length (pair_loop T (2 * h + 2) (seq 0 (S h))) = h.
Proof.
  intros HT Hlen (p & Hp)%list_elem_of_lookup_1.
  assert (Hplt : p < 2 * h + 2) by (rewrite <- Hlen; eapply lookup_lt_Some; exact Hp).
  assert (Hpt : T !!! p = BYE) by (now apply list_lookup_total_correct).
  assert (Hiff : forall i, i < 2 * h + 2 -> T !!! i = BYE <-> i = p).
  { intros i Hi. split; [|now intros ->].
    intros E. apply (lookup_total_inj T); [exact HT|lia|lia|congruence]. }
  rewrite pair_loop_filter.
  pose proof (filter_app_complement real_pairing
                (raw_pairs T (2 * h + 2) (seq 0 (S h)))) as Hc.
  apply Permutation_length in Hc. rewrite length_app in Hc.
  assert (Hraw : length (raw_pairs T (2 * h + 2) (seq 0 (S h))) = S h).
  { unfold raw_pairs. now rewrite length_fmap, length_seq. }
  assert (Hdrop : length (filter (fun x => ~ real_pairing x)
                            (raw_pairs T (2 * h + 2) (seq 0 (S h)))) = 1).
  { unfold raw_pairs. rewrite length_filter_fmap.
    rewrite (filter_seq_unique _ (S h) (if decide (p <= h) then p else 2 * h + 1 - p)).
    - destruct (decide (p <= h)); destruct (decide (_ < S h)); lia.
    - intros i Hi. unfold real_pairing. cbn [fst snd].
      pose proof (Hiff i ltac:(lia)) as H1.
      pose proof (Hiff (2 * h + 2 - 1 - i) ltac:(lia)) as H2.
      split.
      + intros Hnot.
        destruct (decide (T !!! i = BYE)) as [E1|E1].
        { apply H1 in E1. destruct (decide (p <= h)); lia. }
        destruct (decide (T !!! (2 * h + 2 - 1 - i) = BYE)) as [E2|E2].
        { apply H2 in E2. destruct (decide (p <= h)); lia. }
        exfalso. apply Hnot. now split.
      + intros Ei. destruct (decide (p <= h)).
        * intros [Hn _]. apply Hn, H1. lia.
        * intros [_ Hn]. apply Hn, H2. lia. }
  lia.
Qed.

Lemma padded_NoDup team_names :
  NoDup team_names -> BYE ∉ team_names -> NoDup (padded team_names).
Proof.
  intros Hnd Hbye. unfold padded. destruct (Nat.eqb _ 1); [|exact Hnd].
  apply NoDup_app. split; [exact Hnd|split].
  - intros x Hx ->%list_elem_of_singleton. contradiction.
  - apply NoDup_singleton.
Qed.

(** One round of the first leg: a matching of the right size. *)
Lemma first_leg_round team_names r :
  NoDup team_names -> BYE ∉ team_names ->
  r < length (padded team_names) - 1 ->
  let rnd := pair_loop (Nat.iter r rotate (padded team_names))
               (length (padded team_names)) (seq 0 (length (padded team_names) / 2)) in
  NoDup (rnd.*1 ++ rnd.*2) /\ length rnd = length team_names / 2.
Proof.
  intros Hnd Hbye Hr rnd. subst rnd.
  destruct (padded_even team_names) as [k Hk].
  destruct k as [|h]; [lia|].
  assert (Hn : length (padded team_names) = 2 * h + 2) by lia.
  assert (Hhalf : length (padded team_names) / 2 = S h).
  { rewrite Hk, Nat.mul_comm. apply Nat.div_mul. lia. }
  rewrite Hhalf, Hn.
  assert (HTlen : length (Nat.iter r rotate (padded team_names)) = 2 * h + 2).
  { rewrite iter_rotate_length; lia. }
  pose proof (iter_rotate_perm (padded team_names) r ltac:(lia)) as Hperm.
  assert (HTnd : NoDup (Nat.iter r rotate (padded team_names))).
  { eapply NoDup_Permutation_proper; [exact Hperm|]. now apply padded_NoDup. }
  split; [now apply pair_loop_NoDup|].
  pose proof (padded_length team_names) as Hpl.
  pose proof (Nat.div_mod_eq (length team_names) 2) as Hdm.
  pose proof (Nat.mod_upper_bound (length team_names) 2 ltac:(lia)) as Hmod.
  unfold padded in *.
  destruct (Nat.eqb_spec (length team_names mod 2) 1) as [E|E].
  - rewrite pair_loop_length_bye; [lia|exact HTnd|exact HTlen|].
    eapply elem_of_Permutation_proper; [exact Hperm|].
    apply elem_of_app. right. apply list_elem_of_here.
  - rewrite pair_loop_length_full; [lia|exact HTlen|].
    intros Hin. apply Hbye.
    eapply elem_of_Permutation_proper in Hin; [exact Hin|symmetry; exact Hperm].
Qed.

Lemma swap_participants (rnd : list (string * string)) :
  ((fun '(home, away) => (away, home)) <$> rnd).*1 = rnd.*2
  /\ ((fun '(home, away) => (away, home)) <$> rnd).*2 = rnd.*1.
Proof.
  induction rnd as [|[a b] rnd [IH1 IH2]]; [now split|].
  cbn [fmap list_fmap] in *. cbn [fst snd]. now rewrite IH1, IH2.
Qed.

Lemma every_round_matching
    (team_names : list string) (home_and_away : bool)
    (rnd : list (string * string)) :
  NoDup team_names -> BYE ∉ team_names ->
  rnd ∈ generate_round_robin team_names home_and_away ->
  NoDup (rnd.*1 ++ rnd.*2) /\ length rnd = length team_names / 2.
Proof.
  intros Hnd Hbye. rewrite round_robin_unfold. cbv zeta. intros Hrnd.
  assert (Hfirst : forall rnd',
    rnd' ∈ (fun r => pair_loop (Nat.iter r rotate (padded team_names))
                       (length (padded team_names))
                       (seq 0 (length (padded team_names) / 2)))
             <$> seq 0 (length (padded team_names) - 1) ->
    NoDup (rnd'.*1 ++ rnd'.*2) /\ length rnd' = length team_names / 2).
  { intros rnd' (r & -> & Hr%elem_of_seq)%list_elem_of_fmap.
    apply first_leg_round; [exact Hnd|exact Hbye|lia]. }
  destruct home_and_away; [|auto].
  apply elem_of_app in Hrnd as [Hrnd|Hrnd]; [auto|].
  apply list_elem_of_fmap in Hrnd as (rnd0 & -> & Hrnd0).
  destruct (Hfirst rnd0 Hrnd0) as [H1 H2].
  destruct (swap_participants rnd0) as [-> ->].
  split; [|now rewrite length_fmap].
  eapply NoDup_Permutation_proper; [|exact H1]. apply Permutation_app_comm.
Qed.

(** X23. For distinct names other than BYE every round is a matching:
    no team appears twice in a round, and a round has floor(n/2)
    pairings, so with an odd number of teams exactly one team rests. *)
Theorem round_robin_round_is_matching
    (team_names : list string) (home_and_away : bool)
    (rnd : list (string * string)) :
  NoDup team_names -> BYE ∉ team_names ->
  rnd ∈ generate_round_robin team_names home_and_away ->
  NoDup (rnd.*1 ++ rnd.*2) /\ length rnd = length team_names / 2.
Proof. exact (every_round_matching team_names home_and_away rnd). Qed.

Lemma round_robin_round_is_matching_witness :
  NoDup ([("b", "c")].*1 ++ [("b", "c")].*2)
  /\ length [("b", "c")] = length ["a"; "b"; "c"] / 2.
Proof.
  apply (round_robin_round_is_matching ["a"; "b"; "c"] false [("b", "c")]).
  - apply (bool_decide_unpack _). vm_compute. exact I.
  - apply (bool_decide_unpack _). vm_compute. exact I.
  - apply (bool_decide_unpack _). vm_compute. exact I.
Defined.

Lemma sum_lengths_const {A} (ls : list (list A)) c :
  (forall l, l ∈ ls -> length l = c) ->
  sum_list_with length ls = length ls * c.
Proof.
  induction ls as [|l ls IH]; intros Hc; [reflexivity|].
  cbn [sum_list_with length]. rewrite IH.
  - rewrite (Hc l) by apply list_elem_of_here. lia.
  - intros l' Hl'. apply Hc. now apply list_elem_of_further.
Qed.

Lemma triangular_count n :
  (n + n mod 2 - 1) * (n / 2) = n * (n - 1) / 2.
Proof.
  pose proof (Nat.div_mod_eq n 2) as Hdm.
  pose proof (Nat.mod_upper_bound n 2 ltac:(lia)) as Hmod.
  generalize dependent (n / 2). generalize dependent (n mod 2).
  intros m Hm k Hdm. subst n.
  apply Nat.div_unique_exact; [lia|].
  assert (m = 0 \/ m = 1) as [-> | ->] by lia; nia.
Qed.

(** X24. For n distinct names other than BYE a single leg holds
    n(n-1)/2 pairings in all, and home_and_away doubles that. *)
Theorem round_robin_total_pairings (team_names : list string) (home_and_away : bool) :
  NoDup team_names -> BYE ∉ team_names ->
  sum_list_with length (generate_round_robin team_names home_and_away)
  = (if home_and_away then 2 else 1)
    * (length team_names * (length team_names - 1) / 2).
Proof.
  intros Hnd Hbye.
  rewrite (sum_lengths_const _ (length team_names / 2)).
  - rewrite round_robin_round_count, <- triangular_count. lia.
  - intros rnd Hrnd.
    now apply (every_round_matching team_names home_and_away rnd).
Qed.

Lemma round_robin_total_pairings_witness :
  sum_list_with length (generate_round_robin ["a"; "b"; "c"; "d"; "e"] true)
  = 2 * (5 * (5 - 1) / 2).
Proof.
  apply (round_robin_total_pairings ["a"; "b"; "c"; "d"; "e"] true).
  - apply (bool_decide_unpack _). vm_compute. exact I.
  - apply (bool_decide_unpack _). vm_compute. exact I.
Defined.


(* ===================================================================== *)
(** * Zones never mix: [generate_match_list] and [generate_fixture] *)
(* ===================================================================== *)

Lemma elem_of_concat {A} (x : A) (ls : list (list A)) :
  x ∈ concat ls -> exists l, l ∈ ls /\ x ∈ l.
Proof.
  induction ls as [|l ls IH]; cbn [concat]; [now intros ?%elem_of_nil|].
  intros [H|H]%elem_of_app.
  - exists l. split; [apply list_elem_of_here|exact H].
  - destruct (IH H) as (l' & Hl' & Hx). exists l'.
    split; [now apply list_elem_of_further|exact Hx].
Qed.

Lemma enumerate_from {A} (l : list A) (start idx : Z) (a : A) :
  (idx, a) ∈ enumerate start l -> (start <= idx)%Z /\ a ∈ l.
Proof.
  revert start. induction l as [|b l IH]; intros start; cbn [enumerate].
  - now intros ?%elem_of_nil.
  - intros [E|H]%elem_of_cons.
    + injection E as -> ->. split; [lia|apply list_elem_of_here].
    + apply IH in H as [H1 H2]. split; [lia|now apply list_elem_of_further].
Qed.

Lemma setdefault_append_elem zones z t k ts x :
  (k, ts) ∈ setdefault_append zones z t -> x ∈ ts ->
  (x = t /\ k = z) \/ (exists ts', (k, ts') ∈ zones /\ x ∈ ts').
Proof.
  induction zones as [|[k0 ts0] zones IH]; cbn [setdefault_append].
  - intros E%list_elem_of_singleton Hx. injection E as -> ->.
    apply list_elem_of_singleton in Hx. now left.
  - destruct (bool_decide (k0 = z)) eqn:Ek.
    + apply bool_decide_eq_true_1 in Ek. subst k0.
      intros [E|H]%elem_of_cons Hx.
      * injection E as -> ->. apply elem_of_app in Hx as [Hx|Hx%list_elem_of_singleton].
        -- right. exists ts0. split; [apply list_elem_of_here|exact Hx].
        -- now left.
      * right. exists ts. split; [now apply list_elem_of_further|exact Hx].
    + intros [E|H]%elem_of_cons Hx.
      * injection E as -> ->. right. exists ts0.
        split; [apply list_elem_of_here|exact Hx].
      * destruct (IH H Hx) as [?|(ts' & H1 & H2)]; [now left|].
        right. exists ts'. split; [now apply list_elem_of_further|exact H2].
Qed.

(** The grouping puts a team under its own zone, and only listed teams. *)
Lemma group_by_zone_elem h teams k ts x :
  (k, ts) ∈ group_by_zone h teams -> x ∈ ts ->
  x ∈ teams /\ zone (team_at h x) = k.
Proof.
  unfold group_by_zone.
  assert (Hgen : forall l acc,
    (forall k ts x, (k, ts) ∈ acc -> x ∈ ts -> x ∈ teams /\ zone (team_at h x) = k) ->
    (forall t, t ∈ l -> t ∈ teams) ->
    forall k ts x,
      (k, ts) ∈ foldl (fun zones t => setdefault_append zones (zone (team_at h t)) t) acc l ->
      x ∈ ts -> x ∈ teams /\ zone (team_at h x) = k).
  { induction l as [|t l IH]; intros acc Hacc Hl k' ts' x'; cbn [foldl]; [apply Hacc|].
    apply IH.
    - intros k1 ts1 x1 Hin Hx1.
      destruct (setdefault_append_elem _ _ _ _ _ _ Hin Hx1) as [[-> ->]|(ts2 & H1 & H2)].
      + split; [apply Hl, list_elem_of_here|reflexivity].
      + eapply Hacc; eassumption.
    - intros t' Ht'. apply Hl. now apply list_elem_of_further. }
  apply Hgen; [|auto].
  intros k' ts' x' Hin. now apply elem_of_nil in Hin.
Qed.

Lemma zone_matches_elem h home_and_away z ts z' hm aw r :
  (z', hm, aw, r) ∈ zone_matches h home_and_away z ts ->
  z' = z /\ (1 <= r)%Z
  /\ exists rnd,
       rnd ∈ generate_round_robin ((fun t => name (team_at h t)) <$> ts) home_and_away
       /\ (hm, aw) ∈ rnd.
Proof.
  unfold zone_matches.
  intros (l & Hl & Hin)%elem_of_concat.
  apply list_elem_of_fmap in Hl as ([idx pairs] & -> & Hl).
  apply enumerate_from in Hl as [Hidx Hpairs].
  apply list_elem_of_fmap in Hin as ([hm' aw'] & E & Hin).
  injection E as -> -> -> ->.
  split; [reflexivity|]. split; [exact Hidx|]. now exists pairs.
Qed.

(** Every pending match opposes two listed teams of the zone it is
    filed under. *)
Lemma pending_within_zone h teams home_and_away z hm aw r :
  (z, hm, aw, r) ∈ all_zone_matches h home_and_away (group_by_zone h teams) ->
  exists t1 t2,
    t1 ∈ teams /\ t2 ∈ teams
    /\ name (team_at h t1) = hm /\ name (team_at h t2) = aw
    /\ zone (team_at h t1) = z /\ zone (team_at h t2) = z
    /\ hm <> BYE /\ aw <> BYE /\ (1 <= r)%Z.
Proof.
  unfold all_zone_matches.
  intros (l & Hl & Hin)%elem_of_concat.
  apply list_elem_of_fmap in Hl as ([k ts] & -> & Hk).
  apply zone_matches_elem in Hin as (-> & Hr & rnd & Hrnd & Hpair).
  destruct (round_robin_names _ _ _ _ _ Hrnd Hpair) as (Hh & Ha & Hhb & Hab).
  apply list_elem_of_fmap in Hh as (t1 & -> & Ht1).
  apply list_elem_of_fmap in Ha as (t2 & -> & Ht2).
  destruct (group_by_zone_elem _ _ _ _ _ Hk Ht1) as [H1 Z1].
  destruct (group_by_zone_elem _ _ _ _ _ Hk Ht2) as [H2 Z2].
  exists t1, t2. repeat split; assumption.
Qed.

Lemma assign_zones_same_list h teams system : (assign_zones h teams system).2 = teams.
Proof.
  unfold assign_zones. destruct (forallb _ teams); [reflexivity|].
  now destruct (group_size_of _ _).
Qed.

(** X25. Zones never mix in the match list: every entry opposes two of
    the listed teams that, after zone assignment, both carry the entry's
    zone; neither side is the BYE placeholder and rounds count from 1. *)
Theorem match_list_within_zone
    (h : heap) (teams : list loc) (system : string) (home_and_away : bool)
    (e : MatchEntry) :
  e ∈ (generate_match_list h teams system home_and_away).2 ->
  exists t1 t2,
    let h1 := (generate_match_list h teams system home_and_away).1 in
    t1 ∈ teams /\ t2 ∈ teams
    /\ name (team_at h1 t1) = e_home e /\ name (team_at h1 t2) = e_away e
    /\ zone (team_at h1 t1) = e_zone e /\ zone (team_at h1 t2) = e_zone e
    /\ e_home e <> BYE /\ e_away e <> BYE /\ (1 <= e_round e)%Z.
Proof.
  unfold generate_match_list, list_copy.
  pose proof (assign_zones_same_list h teams system) as Hsame.
  destruct (assign_zones h teams system) as [h1 tz]. cbn in Hsame. subst tz.
  cbn [fst snd].
  intros ([[[z hm] aw] r] & -> & Hin)%list_elem_of_fmap.
  exact (pending_within_zone _ _ _ _ _ _ _ Hin).
Qed.

Lemma match_list_within_zone_witness :
  exists t1 t2,
    let h1 := (generate_match_list four_teams [0; 1; 2; 3] "rr" false).1 in
    t1 ∈ [0; 1; 2; 3] /\ t2 ∈ [0; 1; 2; 3]
    /\ name (team_at h1 t1) = "a" /\ name (team_at h1 t2) = "d"
    /\ zone (team_at h1 t1) = "A" /\ zone (team_at h1 t2) = "A"
    /\ "a" <> BYE /\ "d" <> BYE /\ (1 <= 1)%Z.
Proof.
  apply (match_list_within_zone four_teams [0; 1; 2; 3] "rr" false
           (mkEntry "A" "a" "d" 1%Z)).
  vm_compute. apply list_elem_of_here.
Defined.

(** X26. Zones never mix in the fixture either: every match of a
    successful run opposes two of the listed teams that both carry the
    match's zone after zone assignment, and neither side is BYE. *)
Theorem fixture_within_zone
    (h : heap) (teams : list loc) (system : string) (days fields : Z)
    (start_time end_time : string) (match_duration rest : Z)
    (midday_break : option (string * string)) (home_and_away : bool)
    (max_matches_per_day : option Z) (result : list Match) (m : Match) :
  (generate_fixture h teams system days fields start_time end_time match_duration
     rest midday_break home_and_away max_matches_per_day).2 = Ok result ->
  m ∈ result ->
  exists t1 t2,
    let h1 := (generate_fixture h teams system days fields start_time end_time
                 match_duration rest midday_break home_and_away
                 max_matches_per_day).1 in
    t1 ∈ teams /\ t2 ∈ teams
    /\ name (team_at h1 t1) = home m /\ name (team_at h1 t2) = away m
    /\ zone (team_at h1 t1) = mzone m /\ zone (team_at h1 t2) = mzone m
    /\ home m <> BYE /\ away m <> BYE /\ (1 <= round m)%Z.
Proof.
  intros Hrun Hm.
  pose proof (scheduled_pending_perm _ _ _ _ _ _ _ _ _ _ _ _ _ Hrun) as Hperm.
  assert (Hin : pending_of m ∈ (fixture_pending h teams system home_and_away).2).
  { eapply elem_of_Permutation_proper; [symmetry; exact Hperm|].
    apply list_elem_of_fmap. now exists m. }
  clear Hrun Hperm. revert Hin.
  unfold generate_fixture, fixture_pending.
  pose proof (assign_zones_same_list h teams system) as Hsame.
  destruct (assign_zones h teams system) as [h1 tz]. cbn in Hsame. subst tz.
  cbn [fst snd]. unfold pending_of.
  exact (pending_within_zone _ _ _ _ _ _ _).
Qed.

Lemma fixture_within_zone_witness :
  exists t1 t2,
    let h1 := (generate_fixture four_teams [0; 1; 2; 3] "rr" 1 1 "09:00" "18:00"
                 60 60 None false None).1 in
    t1 ∈ [0; 1; 2; 3] /\ t2 ∈ [0; 1; 2; 3]
    /\ name (team_at h1 t1) = "a" /\ name (team_at h1 t2) = "c"
    /\ zone (team_at h1 t1) = "A" /\ zone (team_at h1 t2) = "A"
    /\ "a" <> BYE /\ "c" <> BYE /\ (1 <= 2)%Z.
Proof.
  apply (fixture_within_zone four_teams [0; 1; 2; 3] "rr" 1 1 "09:00" "18:00"
           60 60 None false None scenario_A_schedule
           (mkMatch 1 "11:00" "c1" "a" "c" "A" 2 3)).
  - vm_compute. reflexivity.
  - unfold scenario_A_schedule. do 2 apply list_elem_of_further. apply list_elem_of_here.
Defined.
